(** * NganwitPTK27: the client-side cache and data-aggregation layer

    A shallow embedding of [config.js] (GLOBAL_CACHE, CONFIG, isCacheValid,
    getAwardConfig), [DataService.js] (JSONP fetches, bulk preload, the
    localStorage mirror) and [CompetitionManager.js] (validation,
    normalisation, sorting, read accessors), followed by the properties
    proved about them.

    Conventions of the embedding.
    - A JavaScript string is the sequence of its UTF-8 bytes.
    - A number is an integer ([Z]); [Infinity] and [NaN] only arise as
      results of comparisons and live in [jsnum].
    - [undefined] is the absence of a value: a property read returns
      [option jsval], [None] standing for [undefined].  Records received
      from the endpoints are JSON data: plain objects whose prototype is
      [Object.prototype], in which no property holds [undefined] or a
      function.
    - An [async] function is a state transformer returning a [Completion]:
      [Returns v] for a fulfilled promise, [Throws e] for a rejected one.
    - [Date.now()] reads the clock of the [World]; awaiting a network
      request advances it by the latency of the request.
    - Tasks started together ([Promise.allSettled], [Promise.all]) run in
      pieces, in the order of the event loop: by the time they are due, and
      in the order they were scheduled when due at the same millisecond. *)

From Stdlib Require Import ZArith List Bool Ascii String Lia Permutation DecimalString.
From stdpp Require Import base option list strings gmap sorting.
From Stdlib Require Import Sorted.

Open Scope Z_scope.

(** ** JavaScript values *)

Inductive jsval : Type :=
| JNull
| JBool (b : bool)
| JNum (n : Z)
| JStr (s : string).

#[global] Instance jsval_eq_dec : EqDecision jsval.
Proof. solve_decision. Defined.

(** An object with own enumerable properties in property order. *)
Definition JsObject (V : Type) : Type := list (string * V).

(** A raw record as delivered by an endpoint. *)
Definition RawRecord : Type := JsObject jsval.

Inductive jsnum : Type :=
| Fin (z : Z)
| PInf
| NInf
| NaN.

Record Error : Type := mkError { message : string }.

Inductive Completion (A : Type) : Type :=
| Returns (v : A)
| Throws (e : Error).

Arguments Returns {A} v.
Arguments Throws {A} e.

(** Synchronous code that may throw. *)
#[global] Instance Completion_ret : MRet Completion := fun A v => Returns v.

#[global] Instance Completion_bind : MBind Completion := fun A B k c =>
  match c with
  | Returns v => k v
  | Throws e => Throws e
  end.

(** [array.every(f)] and [array.filter(f)] for a callback that may throw:
    the elements are visited in order and the first throw ends the loop. *)
Fixpoint Array_every {A : Type} (f : A -> Completion bool) (l : list A)
  : Completion bool :=
  match l with
  | [] => Returns true
  | x :: l' => ok ← f x; if ok : bool then Array_every f l' else Returns false
  end.

Fixpoint Array_filter {A : Type} (f : A -> Completion bool) (l : list A)
  : Completion (list A) :=
  match l with
  | [] => Returns []
  | x :: l' =>
      keep ← f x;
      rest ← Array_filter f l';
      Returns (if keep : bool then x :: rest else rest)
  end.

(** ToBoolean. *)
Definition truthy (v : option jsval) : bool :=
  match v with
  | None | Some JNull => false
  | Some (JBool b) => b
  | Some (JNum n) => negb (n =? 0)
  | Some (JStr s) => negb (String.eqb s "")
  end.

(** [a ?? b]. *)
Definition nullish (a b : option jsval) : option jsval :=
  match a with
  | None | Some JNull => b
  | Some _ => a
  end.

Infix "??" := nullish (at level 45, right associativity).

(** [a || b]. *)
Definition js_or (a b : option jsval) : option jsval :=
  if truthy a then a else b.

(** [a && b]. *)
Definition js_and (a b : option jsval) : option jsval :=
  if truthy a then b else a.

(** [String(v)]. *)
Definition String_of (v : option jsval) : string :=
  match v with
  | None => "undefined"
  | Some JNull => "null"
  | Some (JBool true) => "true"
  | Some (JBool false) => "false"
  | Some (JNum n) => NilZero.string_of_int (Z.to_int n)
  | Some (JStr s) => s
  end.

(** *** Strings *)

Definition ascii_ws (c : ascii) : bool :=
  let n := nat_of_ascii c in
  ((n =? 32) || ((9 <=? n) && (n <=? 13)))%nat.

(** U+00A0. *)
Definition ws2 (a b : ascii) : bool :=
  ((nat_of_ascii a =? 194) && (nat_of_ascii b =? 160))%nat.

(** U+1680, U+2000..U+200A, U+2028, U+2029, U+202F, U+205F, U+3000, U+FEFF. *)
Definition ws3 (a b c : ascii) : bool :=
  let x := nat_of_ascii a in
  let y := nat_of_ascii b in
  let z := nat_of_ascii c in
  (((x =? 225) && (y =? 154) && (z =? 128))
   || ((x =? 226) && (y =? 128)
       && (((128 <=? z) && (z <=? 138)) || (z =? 168) || (z =? 169) || (z =? 175)))
   || ((x =? 226) && (y =? 129) && (z =? 159))
   || ((x =? 227) && (y =? 128) && (z =? 128))
   || ((x =? 239) && (y =? 187) && (z =? 191)))%nat.

(** Drops the white space and line terminators at the front of [s]; with
    [back] set, [s] is read back to front. *)
Fixpoint stripWs (back : bool) (s : string) : string :=
  match s with
  | EmptyString => s
  | String c r =>
      if ascii_ws c then stripWs back r
      else
        match r with
        | EmptyString => s
        | String c1 r1 =>
            if (if back then ws2 c1 c else ws2 c c1) then stripWs back r1
            else
              match r1 with
              | EmptyString => s
              | String c2 r2 =>
                  if (if back then ws3 c2 c1 c else ws3 c c1 c2)
                  then stripWs back r2
                  else s
              end
        end
  end.

(** [String.prototype.trim]. *)
Definition trim (s : string) : string :=
  String.rev (stripWs true (String.rev (stripWs false s))).

Definition lower_ascii (c : ascii) : ascii :=
  let n := nat_of_ascii c in
  if ((65 <=? n) && (n <=? 90))%nat then ascii_of_nat (n + 32) else c.

(** [String.prototype.toLowerCase]; only A-Z have a case in this model. *)
Fixpoint toLowerCase (s : string) : string :=
  match s with
  | EmptyString => EmptyString
  | String c r => String (lower_ascii c) (toLowerCase r)
  end.

(** *** parseInt *)

Definition digit_value (c : ascii) : option Z :=
  let n := Z.of_nat (nat_of_ascii c) in
  if (48 <=? n) && (n <=? 57) then Some (n - 48)
  else if (97 <=? n) && (n <=? 122) then Some (n - 87)
  else if (65 <=? n) && (n <=? 90) then Some (n - 55)
  else None.

(** Reads the longest prefix of digits in base [radix], most significant
    first; [acc] is [None] until a digit has been read. *)
Fixpoint parse_digits (radix : Z) (acc : option Z) (s : string) : option Z :=
  match s with
  | EmptyString => acc
  | String c r =>
      match digit_value c with
      | Some d =>
          if d <? radix
          then parse_digits radix (Some (default 0 acc * radix + d)) r
          else acc
      | None => acc
      end
  end.

Definition has_hex_prefix (s : string) : bool :=
  match s with
  | String "0"%char (String c _) =>
      (nat_of_ascii c =? 120)%nat || (nat_of_ascii c =? 88)%nat
  | _ => false
  end.

Definition hex_body (s : string) : string :=
  match s with
  | String _ (String _ r) => r
  | _ => s
  end.

(** [parseInt(v, radix)]: the result [None] is [NaN]; [radix = None] is a
    call without the second argument, which reads a [0x] prefix as base 16.
    The source passes no radix or 10. *)
Definition parseInt (v : option jsval) (radix : option Z) : option Z :=
  let s := stripWs false (String_of v) in
  let '(neg, s) :=
    match s with
    | String "-"%char r => (true, r)
    | String "+"%char r => (false, r)
    | _ => (false, s)
    end in
  let '(R, s) :=
    match radix with
    | None => if has_hex_prefix s then (16, hex_body s) else (10, s)
    | Some r => (r, s)
    end in
  match parse_digits R None s with
  | Some n => Some (if neg then - n else n)
  | None => None
  end.

(** *** Objects *)

Section Objects.
Context {V : Type}.

(** [o[k]] on own properties. *)
Fixpoint obj_get (o : JsObject V) (k : string) : option V :=
  match o with
  | [] => None
  | (k', v) :: o' => if String.eqb k' k then Some v else obj_get o' k
  end.

Definition hasOwnProperty (o : JsObject V) (k : string) : bool :=
  match obj_get o k with Some _ => true | None => false end.

(** An array index: a canonical numeric string below 2^32 - 1.  Such keys
    come first in property order, in ascending numeric order. *)
Definition arrayIndex (k : string) : option Z :=
  match parse_digits 10 None k with
  | Some n =>
      if String.eqb (String_of (Some (JNum n))) k && (n <=? 4294967294)
      then Some n else None
  | None => None
  end.

Fixpoint obj_replace (k : string) (v : V) (o : JsObject V) : JsObject V :=
  match o with
  | [] => []
  | (k', v') :: o' =>
      if String.eqb k' k then (k', v) :: o' else (k', v') :: obj_replace k v o'
  end.

Fixpoint obj_insert_index (n : Z) (k : string) (v : V) (o : JsObject V)
  : JsObject V :=
  match o with
  | [] => [(k, v)]
  | (k', v') :: o' =>
      match arrayIndex k' with
      | Some n' =>
          if n' <? n then (k', v') :: obj_insert_index n k v o'
          else (k, v) :: o
      | None => (k, v) :: o
      end
  end.

(** [o[k] = v]: an existing property keeps its place; a new one is added
    in property order. *)
Definition obj_set (o : JsObject V) (k : string) (v : V) : JsObject V :=
  if hasOwnProperty o k then obj_replace k v o
  else
    match arrayIndex k with
    | Some n => obj_insert_index n k v o
    | None => o ++ [(k, v)]
    end.

End Objects.

(** *** Map *)

(** A [Map] in insertion order.  Keys are compared by SameValueZero, which
    on [option jsval] is equality. *)
Definition JsMap (V : Type) : Type := list (option jsval * V).

Section Maps.
Context {V : Type}.

Fixpoint map_get (m : JsMap V) (k : option jsval) : option V :=
  match m with
  | [] => None
  | (k', v) :: m' => if decide (k' = k) then Some v else map_get m' k
  end.

Definition map_has (m : JsMap V) (k : option jsval) : bool :=
  match map_get m k with Some _ => true | None => false end.

Fixpoint map_replace (k : option jsval) (v : V) (m : JsMap V) : JsMap V :=
  match m with
  | [] => []
  | (k', v') :: m' =>
      if decide (k' = k) then (k', v) :: m' else (k', v') :: map_replace k v m'
  end.

(** [m.set(k, v)]. *)
Definition map_set (m : JsMap V) (k : option jsval) (v : V) : JsMap V :=
  if map_has m k then map_replace k v m else m ++ [(k, v)].

(** [Object.fromEntries(m)]: every key goes through [String]. *)
Definition Object_fromEntries (m : JsMap V) : JsObject V :=
  foldl (fun o kv => obj_set o (String_of (fst kv)) (snd kv)) [] m.

(** [new Map(Object.entries(o))]. *)
Definition Map_of_entries (o : JsObject V) : JsMap V :=
  foldl (fun m kv => map_set m (Some (JStr (fst kv))) (snd kv)) [] o.

End Maps.

(** ** config.js *)

(** [CONFIG.CACHE.TIMEOUT]: one hour, in milliseconds. *)
Definition CACHE_TIMEOUT : Z := 60 * 60 * 1000.

(** [CONFIG.API.TIMEOUT]. *)
Definition API_TIMEOUT : Z := 15000.

Definition PERSIST_KEY : string := "nganwit_cache_v2".
Definition VERSION_KEY : string := "nganwit_version".

(** [CONFIG.APP.VERSION]. *)
Definition APP_VERSION : string := "2.0.0".

Definition SCIENCE_URL : string :=
  "https://script.google.com/macros/s/AKfycbxWyESyMxTu6WmnvF82xkdlEtUKeoacylcqXhBZv6f756BcYdzgosqk23SzkQoLRGP5PQ/exec".
Definition GEM_URL : string :=
  "https://script.google.com/macros/s/AKfycbwZ2OOojlO_f2CIlIZ9sejLlJWJlN1_7XXP787GT6K7iRN6v2181Hn-_Q4wWFXTN7aHRQ/exec".

(** [CONFIG.ERRORS]. *)
Definition ERR_NETWORK : string := "ไม่สามารถเชื่อมต่อเครือข่ายได้ กรุณาลองอีกครั้ง".
Definition ERR_API_ERROR : string := "เกิดข้อผิดพลาดในการโหลดข้อมูล".
Definition ERR_TIMEOUT : string := "หมดเวลาการเชื่อมต่อ กรุณาลองอีกครั้ง".
Definition ERR_SCIENCE_LOAD_FAILED : string :=
  "ไม่สามารถโหลดรายการการแข่งขันวิทยาศาสตร์ได้".
Definition ERR_GEM_LOAD_FAILED : string :=
  "ไม่สามารถโหลดรายการการแข่งขันเจียระไนเพชรได้".

(** [CONFIG.AWARDS]. *)
Record AwardConfig : Type := mkAward {
  award_id : string;
  award_name : string;
  award_rank : Z;
  award_color : string;
  award_icon : string
}.

Definition CHAMPION : AwardConfig :=
  mkAward "champion" "ชนะเลิศ" 1 "#d4af37" "🥇".
Definition FIRST_RUNNER : AwardConfig :=
  mkAward "first-runner" "รองชนะเลิศอันดับ 1" 2 "#c0c0c0" "🥈".
Definition SECOND_RUNNER : AwardConfig :=
  mkAward "second-runner" "รองชนะเลิศอันดับ 2" 3 "#cd7f32" "🥉".
Definition THIRD_RUNNER : AwardConfig :=
  mkAward "third-runner" "รองชนะเลิศอันดับ 3" 4 "#8b4513" "🏆".
Definition HONORABLE : AwardConfig :=
  mkAward "honorable" "ชมเชย" 5 "#3498db" "🏅".
Definition PARTICIPANT : AwardConfig :=
  mkAward "participant" "เข้าร่วม" 6 "#95a5a6" "🎖️".

Definition awardMap : JsObject AwardConfig :=
  [ ("ชนะเลิศ", CHAMPION);
    ("รองชนะเลิศอันดับ 1", FIRST_RUNNER);
    ("รองชนะเลิศอันดับ1", FIRST_RUNNER);
    ("รองชนะเลิศอันดับ 2", SECOND_RUNNER);
    ("รองชนะเลิศอันดับ2", SECOND_RUNNER);
    ("รองชนะเลิศอันดับ 3", THIRD_RUNNER);
    ("รองชนะเลิศอันดับ3", THIRD_RUNNER);
    ("ชมเชย", HONORABLE);
    ("เข้าร่วม", PARTICIPANT) ].

(** The property names every object literal inherits from
    [Object.prototype]: reading one of them from [awardMap] or from
    [this.competitions] yields a function (or the prototype), not
    [undefined]. *)
Definition objectPrototypeKeys : list string :=
  [ "constructor"; "__defineGetter__"; "__defineSetter__"; "hasOwnProperty";
    "__lookupGetter__"; "__lookupSetter__"; "isPrototypeOf";
    "propertyIsEnumerable"; "toString"; "valueOf"; "__proto__";
    "toLocaleString" ].

Definition inherited (k : string) : bool :=
  existsb (String.eqb k) objectPrototypeKeys.

(** What [getAwardConfig] can return besides [null]. *)
Inductive AwardEntry : Type :=
| Config (a : AwardConfig)
| Inherited (name : string).

(** [entry.rank]; [None] is [undefined]. *)
Definition entry_rank (e : AwardEntry) : option Z :=
  match e with
  | Config a => Some (award_rank a)
  | Inherited _ => None
  end.

(** [getAwardConfig(awardName)]; [None] is [null]. *)
Definition getAwardConfig (awardName : string) : option AwardEntry :=
  if String.eqb awardName "" then None
  else
    match obj_get awardMap awardName with
    | Some a => Some (Config a)
    | None =>
        if inherited awardName then Some (Inherited awardName)
        else Some (Config PARTICIPANT)
    end.

(** ** CompetitionManager.js: results *)

Record Result : Type := mkResult {
  res_competitionId : string;
  res_rank : option Z;
  res_level : string;
  res_type : string;
  res_award : string;
  res_school : string;
  res_participants : string;
  res_coach : string;
  res_certificateUrl : string;
  res_projectTitle : string;
  res_notes : string
}.

(** [v && String(v).trim() !== ''], as a truth value. *)
Definition has_text (v : option jsval) : bool :=
  truthy v && negb (String.eqb (trim (String_of v)) "").

Definition validateResult (result : RawRecord) : bool :=
  let school := obj_get result "school" ?? obj_get result "โรงเรียน" in
  let award := obj_get result "award" ?? obj_get result "รางวัล" in
  let hasSchool := has_text school in
  let hasAward := has_text award in
  hasSchool || hasAward.

(** [v ? String(v).trim() : d]. *)
Definition trimmed_or (v : option jsval) (d : string) : string :=
  if truthy v then trim (String_of v) else d.

Definition normalizeResult (result : RawRecord) (competitionId : string)
  : Result :=
  let level := obj_get result "level" ?? obj_get result "ระดับ" ?? Some (JStr "") in
  let type := obj_get result "type" ?? obj_get result "ประเภท" ?? Some (JStr "") in
  let award := obj_get result "award" ?? obj_get result "รางวัล" ?? Some (JStr "") in
  let school := obj_get result "school" ?? obj_get result "โรงเรียน" ?? Some (JStr "") in
  let certTh :=
    obj_get result "ดาวโหลดน์เกียรติบัตร" ?? obj_get result "ดาวโหลดเกียรติบัตร"
    ?? Some (JStr "") in
  let certEn :=
    obj_get result "certificate_url" ?? obj_get result "certificateUrl"
    ?? Some (JStr "") in
  {| res_competitionId := competitionId;
     res_rank :=
       (let raw := obj_get result "ลำดับที่" ?? obj_get result "rank" ?? Some (JStr "") in
        parseInt raw (Some 10));
     res_level := trim (String_of level);
     res_type := trim (String_of type);
     res_award := trim (String_of award);
     res_school := trim (String_of school);
     res_participants := trimmed_or (obj_get result "participants") "-";
     res_coach := trimmed_or (obj_get result "coach") "-";
     res_certificateUrl :=
       trim (String_of (js_or (js_or certEn certTh) (Some (JStr ""))));
     res_projectTitle := trimmed_or (obj_get result "project_title") "";
     res_notes := trimmed_or (obj_get result "notes") "" |}.

(** *** Numbers with infinities *)

Definition num_sub (a b : jsnum) : jsnum :=
  match a, b with
  | NaN, _ | _, NaN => NaN
  | Fin x, Fin y => Fin (x - y)
  | Fin _, PInf => NInf
  | Fin _, NInf => PInf
  | PInf, PInf => NaN
  | PInf, _ => PInf
  | NInf, NInf => NaN
  | NInf, _ => NInf
  end.

(** [a !== b] on numbers. *)
Definition num_neq (a b : jsnum) : bool :=
  match a, b with
  | Fin x, Fin y => negb (x =? y)
  | PInf, PInf | NInf, NInf => false
  | _, _ => true
  end.

(** [v > 0]. *)
Definition positive (v : jsnum) : bool :=
  match v with
  | Fin z => 0 <? z
  | PInf => true
  | NInf | NaN => false
  end.


(** [x !== y] and [x - y] where [x], [y] are numbers or [undefined]. *)
Definition rank_neq (x y : option Z) : bool :=
  match x, y with
  | Some a, Some b => negb (a =? b)
  | None, None => false
  | _, _ => true
  end.

Definition rank_sub (x y : option Z) : jsnum :=
  match x, y with
  | Some a, Some b => Fin (a - b)
  | _, _ => NaN
  end.

(** The [toNum] of [compareResults] applied to [a.rank ?? a['ลำดับที่']]
    for a normalized result [a]: a number is kept; [null] falls through to
    the Thai key, which a normalized result does not have, and
    [Number(undefined)] is [NaN], hence [Infinity]. *)
Definition toNum (rank : option Z) : jsnum :=
  match rank with
  | Some n => Fin n
  | None => PInf
  end.

Section Sorting.

(** [String.prototype.localeCompare(_, 'th')], supplied by the host. *)
Variable localeCompare : string -> string -> Z.

Definition compareResults (a b : Result) : jsnum :=
  let ra := toNum (res_rank a) in
  let rb := toNum (res_rank b) in
  if num_neq ra rb then num_sub ra rb
  else
    let A := getAwardConfig (res_award a) in
    let B := getAwardConfig (res_award b) in
    if bool_decide (is_Some A) && bool_decide (is_Some B)
       && rank_neq (A ≫= entry_rank) (B ≫= entry_rank)
    then rank_sub (A ≫= entry_rank) (B ≫= entry_rank)
    else if bool_decide (is_Some A) && negb (bool_decide (is_Some B))
    then Fin (-1)
    else if negb (bool_decide (is_Some A)) && bool_decide (is_Some B)
    then Fin 1
    else Fin (localeCompare (res_school a) (res_school b)).

Context {A : Type}.

(** Inserts [x], which preceded every element of the sorted [l] in the
    array, before the first element it does not have to follow. *)
Fixpoint sort_insert (cmp : A -> A -> jsnum) (x : A) (l : list A) : list A :=
  match l with
  | [] => [x]
  | y :: l' => if positive (cmp x y) then y :: sort_insert cmp x l' else x :: l
  end.

(** [Array.prototype.sort(cmp)]: a stable sort; a comparison that yields
    [NaN] counts as 0.  For a consistent comparator every stable sort
    returns this array. *)
Definition Array_sort (cmp : A -> A -> jsnum) (l : list A) : list A :=
  foldr (sort_insert cmp) [] l.

End Sorting.

Definition processResults (localeCompare : string -> string -> Z)
  (rawResults : list RawRecord) (competitionId : string) : list Result :=
  Array_sort (compareResults localeCompare)
    (map (fun result => normalizeResult result competitionId)
       (List.filter validateResult rawResults)).

(** Ordinal comparison of the bytes: a collation to run examples with.
    It agrees with the Thai collation on equal strings and on the ASCII
    capitals used below. *)
Fixpoint ordinalCompare (s t : string) : Z :=
  match s, t with
  | EmptyString, EmptyString => 0
  | EmptyString, String _ _ => -1
  | String _ _, EmptyString => 1
  | String c s', String d t' =>
      let x := Z.of_nat (nat_of_ascii c) in
      let y := Z.of_nat (nat_of_ascii d) in
      if x <? y then -1 else if y <? x then 1 else ordinalCompare s' t'
  end.

(** ** CompetitionManager.js: competitions *)

Record Competition : Type := mkCompetition {
  comp_id : string;
  comp_name : string;
  comp_category : string;
  comp_level : string;
  comp_status : string;
  comp_description : string;
  comp_participantCount : Z;
  comp_icon : jsval;
  comp_date : jsval;
  comp_orderIndex : option Z
}.

Definition ERR_NOT_A_FUNCTION : string :=
  "competition.hasOwnProperty is not a function".

(** [competition.hasOwnProperty(field)].  The method is read from the
    record: an own property named [hasOwnProperty] is found before the
    method of [Object.prototype], and as the record is data it holds no
    function, so the call throws a [TypeError]. *)
Definition call_hasOwnProperty (competition : RawRecord) (field : string)
  : Completion bool :=
  match obj_get competition "hasOwnProperty" with
  | Some _ => Throws (mkError ERR_NOT_A_FUNCTION)
  | None => Returns (hasOwnProperty competition field)
  end.

(** The callback of [required.every]: the record has the own property
    [field] and it is neither [null], [undefined] nor ['']. *)
Definition field_present (competition : RawRecord) (field : string)
  : Completion bool :=
  own ← call_hasOwnProperty competition field;
  Returns
    (own
     && match obj_get competition field with
        | None | Some JNull | Some (JStr EmptyString) => false
        | Some _ => true
        end).

Definition validateCompetition (competition : RawRecord) : Completion bool :=
  Array_every (field_present competition) ["id"; "name"].

Definition getDefaultIcon (category : string) : string :=
  if String.eqb category "gem" then "💎" else "🔬".

Definition normalizeCompetition (competition : RawRecord) (category : string)
  : Competition :=
  {| comp_id := trim (String_of (obj_get competition "id"));
     comp_name := trim (String_of (obj_get competition "name"));
     comp_category :=
       if negb (String.eqb category "") then category
       else trim (toLowerCase (String_of
              (js_or (obj_get competition "category") (Some (JStr "science")))));
     comp_level := trimmed_or (obj_get competition "level") "ทุกระดับ";
     comp_status :=
       trim (toLowerCase (String_of
         (js_or (obj_get competition "status") (Some (JStr "completed")))));
     comp_description := trimmed_or (obj_get competition "description") "";
     comp_participantCount :=
       default 0 (parseInt (obj_get competition "participantCount") None);
     comp_icon :=
       (if truthy (obj_get competition "icon")
        then default JNull (obj_get competition "icon")
        else JStr (getDefaultIcon category));
     comp_date :=
       (if truthy (obj_get competition "date")
        then default JNull (obj_get competition "date")
        else JNull);
     comp_orderIndex :=
       match obj_get competition "__orderIndex" with
       | Some (JNum n) => Some n
       | _ => None
       end |}.

(** [rawCompetitions.filter(c => this.validateCompetition(c))
      .map((c, idx) => normalizeCompetition({...c, __orderIndex: idx}, category))];
    [keepSheetOrder] is the constant [true], so the items are returned as
    they are.  A throw of [validateCompetition] leaves the method. *)
Definition processCompetitions (rawCompetitions : list RawRecord)
  (category : string) : Completion (list Competition) :=
  valid ← Array_filter validateCompetition rawCompetitions;
  Returns
    (imap (fun idx c =>
             normalizeCompetition
               (obj_set c "__orderIndex" (JNum (Z.of_nat idx))) category)
       valid).

(** ** The cache store and the world *)

(** What a per-category error slot can hold: [null], the [Error] a
    rejected fetch left there, or the plain object [JSON.parse] produces. *)
Inductive ErrorSlot : Type :=
| SlotNull
| SlotError (e : Error)
| SlotObject (props : RawRecord).

Record Errors : Type := mkErrors {
  err_science : ErrorSlot;
  err_gem : ErrorSlot
}.

(** The object [fetchAllCompetitions] resolves with. *)
Record FetchedCompetitions : Type := mkFetched {
  fc_science : list RawRecord;
  fc_gem : list RawRecord;
  fc_errors : Errors
}.

(** [GLOBAL_CACHE]; its constant [version] field is never read. *)
Record GlobalCache : Type := mkGlobalCache {
  gc_competitions : option FetchedCompetitions;
  gc_results : JsMap (list RawRecord);
  gc_lastUpdated : option Z;
  gc_isLoaded : bool
}.

(** The [cacheData] object of [saveToLocalStorage]. *)
Record CacheData : Type := mkCacheData {
  cd_competitions : option FetchedCompetitions;
  cd_results : JsObject (list RawRecord);
  cd_lastUpdated : option Z;
  cd_version : string
}.

(** An item of [localStorage]: the JSON text of a cache document, named
    by the document it denotes, or any other text. *)
Inductive StorageItem : Type :=
| Json (d : CacheData)
| Text (s : string).

(** An entry of [DataService.cache]. *)
Record CacheEntry : Type := mkCacheEntry {
  ce_data : list RawRecord;
  ce_timestamp : Z
}.

Record DataService : Type := mkDataService {
  ds_cache : gmap string CacheEntry;
  ds_isPreloading : bool
}.

(** An array of competitions lives in the store under a reference. *)
Abbreviation ref := nat.
Abbreviation Store := (list (list Competition)).

(** [CompetitionManager]; [this.competitions] holds three array
    references.  The [results] map of processed results is left out. *)
Record CompetitionManager : Type := mkManager {
  m_science : ref;
  m_gem : ref;
  m_all : ref;
  m_errors : Errors;
  m_isLoading : bool;
  m_isInitialized : bool
}.

Record Request : Type := mkRequest {
  req_url : string;
  req_action : string;
  req_id : option string
}.

Record World : Type := mkWorld {
  clock : Z;
  GLOBAL_CACHE : GlobalCache;
  localStorage : gmap string StorageItem;
  storageWritable : bool;
  dataService : DataService;
  manager : CompetitionManager;
  store : Store;
  requests : list Request
}.

Definition set_clock (t : Z) (w : World) : World :=
  mkWorld t (GLOBAL_CACHE w) (localStorage w) (storageWritable w)
    (dataService w) (manager w) (store w) (requests w).

Definition set_GLOBAL_CACHE (g : GlobalCache) (w : World) : World :=
  mkWorld (clock w) g (localStorage w) (storageWritable w)
    (dataService w) (manager w) (store w) (requests w).

Definition set_localStorage (l : gmap string StorageItem) (w : World) : World :=
  mkWorld (clock w) (GLOBAL_CACHE w) l (storageWritable w)
    (dataService w) (manager w) (store w) (requests w).

Definition set_dataService (d : DataService) (w : World) : World :=
  mkWorld (clock w) (GLOBAL_CACHE w) (localStorage w) (storageWritable w)
    d (manager w) (store w) (requests w).

Definition set_manager (m : CompetitionManager) (w : World) : World :=
  mkWorld (clock w) (GLOBAL_CACHE w) (localStorage w) (storageWritable w)
    (dataService w) m (store w) (requests w).

Definition set_store (s : Store) (w : World) : World :=
  mkWorld (clock w) (GLOBAL_CACHE w) (localStorage w) (storageWritable w)
    (dataService w) (manager w) s (requests w).

Definition set_requests (r : list Request) (w : World) : World :=
  mkWorld (clock w) (GLOBAL_CACHE w) (localStorage w) (storageWritable w)
    (dataService w) (manager w) (store w) r.

(** Time passing while nothing runs. *)
Definition elapse (dt : nat) (w : World) : World :=
  set_clock (clock w + Z.of_nat dt) w.

(** *** Computations *)

Definition M (A : Type) : Type := World -> Completion A * World.

#[global] Instance M_ret : MRet M := fun A v w => (Returns v, w).

#[global] Instance M_bind : MBind M := fun A B k m w =>
  match m w with
  | (Returns v, w') => k v w'
  | (Throws e, w') => (Throws e, w')
  end.

Definition throw {A : Type} (e : Error) : M A := fun w => (Throws e, w).

(** [try { m } catch (error) { h error }]. *)
Definition try_catch {A : Type} (m : M A) (h : Error -> M A) : M A :=
  fun w =>
    match m w with
    | (Returns v, w') => (Returns v, w')
    | (Throws e, w') => h e w'
    end.

(** [try { m } finally { f }] for a block [f] that cannot throw. *)
Definition finally {A : Type} (m : M A) (f : World -> World) : M A :=
  fun w => let '(r, w') := m w in (r, f w').

Definition gets {A : Type} (f : World -> A) : M A := fun w => (Returns (f w), w).

Definition modify (f : World -> World) : M unit := fun w => (Returns tt, f w).

(** The settled state of a promise, as [Promise.allSettled] reports it. *)
Definition settle {A : Type} (m : M A) : M (Completion A) :=
  fun w => let '(r, w') := m w in (Returns r, w').

(** A task of a batch that started at [t0]: it runs from [t0], and the
    batch is over when the slowest task is. *)
Definition concurrently {A : Type} (t0 : Z) (m : M A) : M A :=
  fun w =>
    let '(r, w') := m (set_clock t0 w) in
    (r, set_clock (Z.max (clock w) (clock w')) w').

(** Synchronous code run in the course of a computation. *)
Definition lift {A : Type} (c : Completion A) : M A := fun w => (c, w).

(** ** config.js: cache helpers *)

Definition jsnum_of (v : option Z) : option jsval := Some (from_option JNum JNull v).

(** [ToNumber] of a timestamp slot: [null] counts as 0. *)
Definition elapsed_since (now : Z) (lastUpdated : option Z) : Z :=
  now - default 0 lastUpdated.

(** [isCacheValid()], called when the clock reads [now]: the value of
    [isLoaded && lastUpdated && (Date.now() - lastUpdated) < TIMEOUT]. *)
Definition isCacheValid (now : Z) (g : GlobalCache) : option jsval :=
  js_and (Some (JBool (gc_isLoaded g)))
    (js_and (jsnum_of (gc_lastUpdated g))
       (Some (JBool (elapsed_since now (gc_lastUpdated g) <? CACHE_TIMEOUT)))).


(** ** DataService.js *)

(** The payload handed to the JSONP callback. *)
Record Response : Type := mkResponse {
  success : bool;
  data : option (list RawRecord);
  error : option string
}.

Inductive Reply : Type :=
| Callback (response : option Response)
| ScriptError.

(** What happens to an injected script: the reply and the milliseconds
    until it arrives. *)
Record JsonpEvent : Type := mkEvent {
  reply : Reply;
  latency : nat
}.

Definition Network : Type := Request -> JsonpEvent.

Section Service.
Variable net : Network.

(** How the promise of [simpleJSONP] settles: rejected by the timer when
    the reply takes [CONFIG.API.TIMEOUT] or longer, else settled by the
    callback or by [onerror]. *)
Definition jsonpCompletion (req : Request) : Completion (list RawRecord) :=
  let ev := net req in
  if API_TIMEOUT <=? Z.of_nat (latency ev) then Throws (mkError ERR_TIMEOUT)
  else
    match reply ev with
    | Callback (Some response) =>
        if success response then Returns (default [] (data response))
        else Throws (mkError
               (match error response with
                | Some e => if String.eqb e "" then ERR_API_ERROR else e
                | None => ERR_API_ERROR
                end))
    | Callback None => Throws (mkError ERR_API_ERROR)
    | ScriptError => Throws (mkError ERR_NETWORK)
    end.

(** [simpleJSONP] up to the point where its promise is handed out: the
    script is appended, which sends the request.  The result is the time
    the promise settles and how. *)
Definition sendJSONP (req : Request) : M (Z * Completion (list RawRecord)) :=
  fun w =>
    (Returns (clock w + Z.min (Z.of_nat (latency (net req))) API_TIMEOUT,
              jsonpCompletion req),
     set_requests (requests w ++ [req]) w).

(** [await this.simpleJSONP(url, params)]. *)
Definition simpleJSONP (req : Request) : M (list RawRecord) :=
  fun w =>
    let ev := net req in
    let w := set_requests (requests w ++ [req]) w in
    if API_TIMEOUT <=? Z.of_nat (latency ev)
    then (Throws (mkError ERR_TIMEOUT), set_clock (clock w + API_TIMEOUT) w)
    else
      let w := set_clock (clock w + Z.of_nat (latency ev)) w in
      match reply ev with
      | Callback (Some response) =>
          if success response then (Returns (default [] (data response)), w)
          else
            (Throws (mkError
               (match error response with
                | Some e => if String.eqb e "" then ERR_API_ERROR else e
                | None => ERR_API_ERROR
                end)), w)
      | Callback None => (Throws (mkError ERR_API_ERROR), w)
      | ScriptError => (Throws (mkError ERR_NETWORK), w)
      end.

(** [CONFIG.MOCK.ENABLED] is [false]: the fetches go through JSONP. *)
Definition fetchScienceCompetitions : M (list RawRecord) :=
  try_catch (simpleJSONP (mkRequest SCIENCE_URL "getCompetitions" None))
    (fun _ => throw (mkError ERR_SCIENCE_LOAD_FAILED)).

Definition fetchGemCompetitions : M (list RawRecord) :=
  try_catch (simpleJSONP (mkRequest GEM_URL "getCompetitions" None))
    (fun _ => throw (mkError ERR_GEM_LOAD_FAILED)).

(** The object literal [fetchAllCompetitions] builds from the two settled
    promises. *)
Definition collectSettled (scienceCompetitions gemCompetitions
  : Completion (list RawRecord)) : FetchedCompetitions :=
  {| fc_science :=
       match scienceCompetitions with Returns value => value | Throws _ => [] end;
     fc_gem :=
       match gemCompetitions with Returns value => value | Throws _ => [] end;
     fc_errors :=
       {| err_science :=
            match scienceCompetitions with
            | Throws reason => SlotError reason
            | Returns _ => SlotNull
            end;
          err_gem :=
            match gemCompetitions with
            | Throws reason => SlotError reason
            | Returns _ => SlotNull
            end |} |}.

Definition fetchAllCompetitions : M FetchedCompetitions :=
  try_catch
    (t0 ← gets clock;
     scienceCompetitions ← concurrently t0 (settle fetchScienceCompetitions);
     gemCompetitions ← concurrently t0 (settle fetchGemCompetitions);
     mret (collectSettled scienceCompetitions gemCompetitions))
    (fun error => throw error).

Definition getFromCache (key : string) : M (option (list RawRecord)) :=
  fun w =>
    let ds := dataService w in
    match ds_cache ds !! key with
    | Some cached =>
        if clock w - ce_timestamp cached <? CACHE_TIMEOUT
        then (Returns (Some (ce_data cached)), w)
        else (Returns None,
              set_dataService
                (mkDataService (delete key (ds_cache ds)) (ds_isPreloading ds)) w)
    | None => (Returns None, w)
    end.

Definition setCache (key : string) (d : list RawRecord) : M unit :=
  modify (fun w =>
    let ds := dataService w in
    set_dataService
      (mkDataService (<[key := mkCacheEntry d (clock w)]> (ds_cache ds))
         (ds_isPreloading ds)) w).

Definition getApiUrl (category : option jsval) : string :=
  match category with
  | Some (JStr c) =>
      if String.eqb c "science" then SCIENCE_URL
      else if String.eqb c "gem" || String.eqb c "academic" then GEM_URL
      else SCIENCE_URL
  | _ => SCIENCE_URL
  end.

Definition fetchResultsInternal (competitionId category : option jsval)
  : M (list RawRecord) :=
  let cacheKey := "results_" +:+ String_of competitionId in
  cached ← getFromCache cacheKey;
  match cached with
  | Some d => mret d
  | None =>
      try_catch
        (let apiUrl := getApiUrl category in
         results ← simpleJSONP
                     (mkRequest apiUrl "getResults" (Some (String_of competitionId)));
         setCache cacheKey results;;
         mret results)
        (fun error =>
           throw (mkError ("ไม่สามารถโหลดผลการแข่งขัน " +:+ String_of competitionId
                           +:+ " ได้: " +:+ message error)))
  end.

(** *** The batch of result fetches *)

(** [fetchResultsInternal] up to its [await]: the lookup in the cache and,
    on a miss, the request.  [inl] is the cached array it returns at once,
    [inr] the promise of [simpleJSONP]. *)
Definition fetchResultsInternal_begin (competitionId category : option jsval)
  : M (list RawRecord + Z * Completion (list RawRecord)) :=
  let cacheKey := "results_" +:+ String_of competitionId in
  cached ← getFromCache cacheKey;
  match cached with
  | Some d => mret (inl d)
  | None =>
      let apiUrl := getApiUrl category in
      promise ← sendJSONP
                  (mkRequest apiUrl "getResults" (Some (String_of competitionId)));
      mret (inr promise)
  end.

(** [fetchResultsInternal] from its [await] on, once the promise has
    settled with [reply]. *)
Definition fetchResultsInternal_resume (competitionId : option jsval)
  (reply : Completion (list RawRecord)) : M (list RawRecord) :=
  let cacheKey := "results_" +:+ String_of competitionId in
  try_catch
    (results ← lift reply;
     setCache cacheKey results;;
     mret results)
    (fun error =>
       throw (mkError ("ไม่สามารถโหลดผลการแข่งขัน " +:+ String_of competitionId
                       +:+ " ได้: " +:+ message error))).

(** An element of [resultsSummary]. *)
Record TaskReport : Type := mkReport {
  tr_id : option jsval;
  tr_success : bool;
  tr_error : option string
}.

(** The callback of [allCompetitions.map] from its
    [await this.fetchResultsInternal(...)] on; [fetched] is the rest of that
    call.  The map [allResults] it writes to is passed along. *)
Definition preloadTask_resume (allResults : JsMap (list RawRecord))
  (comp : RawRecord) (fetched : M (list RawRecord))
  : M (JsMap (list RawRecord) * TaskReport) :=
  try_catch
    (results ← fetched;
     mret (map_set allResults (obj_get comp "id") results,
           mkReport (obj_get comp "id") true None))
    (fun error =>
       mret (map_set allResults (obj_get comp "id") [],
             mkReport (obj_get comp "id") false (Some (message error)))).

(** A task whose request is under way: when the promise of [simpleJSONP]
    settles, and how. *)
Record Pending : Type := mkPending {
  pd_index : nat;
  pd_comp : RawRecord;
  pd_due : Z;
  pd_reply : Completion (list RawRecord)
}.

(** The state of the batch: the map [allResults], the values of the
    fulfilled promises of [resultPromises] with their index, in index
    order, and the requests under way in the order their replies will be
    handled. *)
Record Batch : Type := mkBatch {
  b_allResults : JsMap (list RawRecord);
  b_reports : list (nat * TaskReport);
  b_queue : list Pending
}.

(** A reply is handled after those due earlier and after those due at the
    same time that were requested earlier. *)
Fixpoint enqueue (p : Pending) (queue : list Pending) : list Pending :=
  match queue with
  | [] => [p]
  | q :: queue' =>
      if pd_due p <? pd_due q then p :: queue else q :: enqueue p queue'
  end.

(** [Promise.all] resolves with the values in index order. *)
Fixpoint placeReport (index : nat) (report : TaskReport)
  (reports : list (nat * TaskReport)) : list (nat * TaskReport) :=
  match reports with
  | [] => [(index, report)]
  | r :: reports' =>
      if (index <? fst r)%nat then (index, report) :: reports
      else r :: placeReport index report reports'
  end.

(** A task runs from the call of [fetchResultsInternal] up to the [await]
    of its request; served from the cache, it runs to its end. *)
Definition startTask (comp : RawRecord) (index : nat) (b : Batch) : M Batch :=
  begun ← fetchResultsInternal_begin (obj_get comp "id") (obj_get comp "category");
  match begun with
  | inl cached =>
      '(allResults, report) ← preloadTask_resume (b_allResults b) comp (mret cached);
      mret (mkBatch allResults (placeReport index report (b_reports b)) (b_queue b))
  | inr (due, reply) =>
      mret (mkBatch (b_allResults b) (b_reports b)
              (enqueue (mkPending index comp due reply) (b_queue b)))
  end.

Fixpoint startTasks (comps : list RawRecord) (index : nat) (b : Batch) : M Batch :=
  match comps with
  | [] => mret b
  | comp :: comps' =>
      b ← startTask comp index b;
      startTasks comps' (S index) b
  end.

(** The reply to a request arrives: the task runs to its end. *)
Definition settleTask (p : Pending)
  (done : JsMap (list RawRecord) * list (nat * TaskReport))
  : M (JsMap (list RawRecord) * list (nat * TaskReport)) :=
  modify (set_clock (pd_due p));;
  '(allResults, report) ←
     preloadTask_resume (fst done) (pd_comp p)
       (fetchResultsInternal_resume (obj_get (pd_comp p) "id") (pd_reply p));
  mret (allResults, placeReport (pd_index p) report (snd done)).

Fixpoint settleTasks (queue : list Pending)
  (done : JsMap (list RawRecord) * list (nat * TaskReport))
  : M (JsMap (list RawRecord) * list (nat * TaskReport)) :=
  match queue with
  | [] => mret done
  | p :: queue' =>
      done ← settleTask p done;
      settleTasks queue' done
  end.

(** [await Promise.all(allCompetitions.map(async (comp, index) => ...))].
    The callbacks are called one after the other: the first task runs up
    to its request, the others up to [await Utils.sleep(200)].  When the
    timers fire, 200 ms later, the reply to the first task has been handled
    if it was due by then, and the other tasks run in index order up to
    their requests.  Then the replies are handled as they arrive, and the
    batch is over with the last of them. *)
Definition preloadTasks (allCompetitions : list RawRecord)
  : M (JsMap (list RawRecord) * list TaskReport) :=
  match allCompetitions with
  | [] => mret ([], [])
  | first :: others =>
      t0 ← gets clock;
      b ← startTask first 0 (mkBatch [] [] []);
      b ← match others with
          | [] => mret b
          | _ :: _ =>
              '(allResults, reports) ←
                 settleTasks (List.filter (fun p => pd_due p <=? t0 + 200) (b_queue b))
                   (b_allResults b, b_reports b);
              modify (set_clock (t0 + 200));;
              startTasks others 1
                (mkBatch allResults reports
                   (List.filter (fun p => negb (pd_due p <=? t0 + 200)) (b_queue b)))
          end;
      '(allResults, reports) ← settleTasks (b_queue b) (b_allResults b, b_reports b);
      mret (allResults, map snd reports)
  end.

(** Error slots as [JSON.stringify] writes them: an [Error] has no
    enumerable property and becomes [{}]. *)
Definition json_slot (s : ErrorSlot) : ErrorSlot :=
  match s with
  | SlotNull => SlotNull
  | SlotError _ => SlotObject []
  | SlotObject props => SlotObject props
  end.

Definition json_competitions (c : FetchedCompetitions) : FetchedCompetitions :=
  {| fc_science := fc_science c;
     fc_gem := fc_gem c;
     fc_errors :=
       {| err_science := json_slot (err_science (fc_errors c));
          err_gem := json_slot (err_gem (fc_errors c)) |} |}.

(** [JSON.stringify(cacheData)]. *)
Definition JSON_stringify (d : CacheData) : StorageItem :=
  Json {| cd_competitions := json_competitions <$> cd_competitions d;
          cd_results := cd_results d;
          cd_lastUpdated := cd_lastUpdated d;
          cd_version := cd_version d |}.

(** [localStorage.setItem]; it throws when the storage refuses the write. *)
Definition setItem (key : string) (item : StorageItem) : M unit :=
  fun w =>
    if storageWritable w
    then (Returns tt, set_localStorage (<[key := item]> (localStorage w)) w)
    else (Throws (mkError "QuotaExceededError"), w).

Definition saveToLocalStorage : M unit :=
  try_catch
    (g ← gets GLOBAL_CACHE;
     let cacheData :=
       {| cd_competitions := gc_competitions g;
          cd_results := Object_fromEntries (gc_results g);
          cd_lastUpdated := gc_lastUpdated g;
          cd_version := APP_VERSION |} in
     setItem PERSIST_KEY (JSON_stringify cacheData);;
     setItem VERSION_KEY (Text APP_VERSION))
    (fun error => mret tt).

(** [!cached]: the item is missing or the empty string. *)
Definition item_missing (cached : option StorageItem) : bool :=
  match cached with
  | None | Some (Text EmptyString) => true
  | Some _ => false
  end.

(** [cachedVersion !== CONFIG.APP.VERSION]. *)
Definition version_differs (cachedVersion : option StorageItem) : bool :=
  match cachedVersion with
  | Some (Text v) => negb (String.eqb v APP_VERSION)
  | _ => true
  end.

Definition loadFromLocalStorage : M bool :=
  try_catch
    (cached ← gets (fun w => localStorage w !! PERSIST_KEY);
     cachedVersion ← gets (fun w => localStorage w !! VERSION_KEY);
     if item_missing cached || version_differs cachedVersion then mret false
     else
       match cached with
       | Some (Json data) =>
           now ← gets clock;
           if negb (truthy (jsnum_of (cd_lastUpdated data)))
              || (CACHE_TIMEOUT <? elapsed_since now (cd_lastUpdated data))
           then mret false
           else
             modify (set_GLOBAL_CACHE
                       {| gc_competitions := cd_competitions data;
                          gc_results := Map_of_entries (cd_results data);
                          gc_lastUpdated := cd_lastUpdated data;
                          gc_isLoaded := true |});;
             mret true
       | _ => throw (mkError "SyntaxError")
       end)
    (fun error => mret false).

Definition isCacheReady : M bool :=
  gets (fun w =>
    gc_isLoaded (GLOBAL_CACHE w)
    && truthy (isCacheValid (clock w) (GLOBAL_CACHE w))).

Record Summary : Type := mkSummary {
  sum_total : nat;
  sum_loaded : nat;
  sum_failed : nat
}.

(** What [DataService.preloadAllData] resolves with. *)
Inductive PreloadResult : Type :=
| AlreadyPreloading
| Preloaded (competitions : FetchedCompetitions)
    (results : JsMap (list RawRecord)) (summary : Summary).

Definition set_isPreloading (b : bool) (w : World) : World :=
  set_dataService (mkDataService (ds_cache (dataService w)) b) w.

Definition DataService_preloadAllData : M PreloadResult :=
  fun w =>
    if ds_isPreloading (dataService w) then (Returns AlreadyPreloading, w)
    else
      finally
        (try_catch
           (modify (set_isPreloading true);;
            competitions ← fetchAllCompetitions;
            if bool_decide (fc_science competitions = [])
               && bool_decide (fc_gem competitions = [])
            then throw (mkError "No competitions data loaded")
            else
              let allCompetitions := fc_science competitions ++ fc_gem competitions in
              '(allResults, resultsSummary) ← preloadTasks allCompetitions;
              let successCount := length (List.filter tr_success resultsSummary) in
              now ← gets clock;
              modify (set_GLOBAL_CACHE
                        {| gc_competitions := Some competitions;
                           gc_results := allResults;
                           gc_lastUpdated := Some now;
                           gc_isLoaded := true |});;
              saveToLocalStorage;;
              mret (Preloaded competitions allResults
                      {| sum_total := length allCompetitions;
                         sum_loaded := successCount;
                         sum_failed := length allCompetitions - successCount |}))
           (fun error => throw error))
        (set_isPreloading false)
        w.


End Service.

(** ** CompetitionManager.js: loading and read accessors *)

(** A new array with the given elements. *)
Definition alloc (elems : list Competition) : M ref :=
  fun w => (Returns (length (store w)), set_store (store w ++ [elems]) w).

(** The elements of the array at [r]. *)
Definition elements (s : Store) (r : ref) : list Competition :=
  default [] (s !! r).

(** [array.push(c)] and [array.pop()] on the array at [r]. *)
Definition Array_push (r : ref) (c : Competition) (s : Store) : Store :=
  <[r := elements s r ++ [c]]> s.

Definition Array_pop (r : ref) (s : Store) : Store :=
  <[r := removelast (elements s r)]> s.

Definition set_science (science : ref) (w : World) : World :=
  let m := manager w in
  set_manager (mkManager science (m_gem m) (m_all m) (m_errors m)
                 (m_isLoading m) (m_isInitialized m)) w.

Definition set_gem (gem : ref) (w : World) : World :=
  let m := manager w in
  set_manager (mkManager (m_science m) gem (m_all m) (m_errors m)
                 (m_isLoading m) (m_isInitialized m)) w.

Definition set_all (all : ref) (w : World) : World :=
  let m := manager w in
  set_manager (mkManager (m_science m) (m_gem m) all (m_errors m)
                 (m_isLoading m) (m_isInitialized m)) w.

Definition set_errors (errors : Errors) (w : World) : World :=
  let m := manager w in
  set_manager (mkManager (m_science m) (m_gem m) (m_all m) errors
                 (m_isLoading m) (m_isInitialized m)) w.

Definition set_isLoading (b : bool) (w : World) : World :=
  let m := manager w in
  set_manager (mkManager (m_science m) (m_gem m) (m_all m) (m_errors m)
                 b (m_isInitialized m)) w.

Definition set_isInitialized (b : bool) (w : World) : World :=
  let m := manager w in
  set_manager (mkManager (m_science m) (m_gem m) (m_all m) (m_errors m)
                 (m_isLoading m) b) w.

(** The three assignments to [this.competitions] and the one to
    [this.errors] shared by [loadFromGlobalCache] and
    [loadAllCompetitions], one after the other: when
    [processCompetitions] throws, the assignments before it have been
    made. *)
Definition storeCompetitions (c : FetchedCompetitions) : M unit :=
  science ← lift (processCompetitions (fc_science c) "science");
  science ← alloc science;
  modify (set_science science);;
  gem ← lift (processCompetitions (fc_gem c) "gem");
  gem ← alloc gem;
  modify (set_gem gem);;
  w ← gets id;
  all ← alloc (elements (store w) (m_science (manager w))
               ++ elements (store w) (m_gem (manager w)));
  modify (set_all all);;
  modify (set_errors (fc_errors c)).

Definition loadFromGlobalCache : M unit :=
  g ← gets GLOBAL_CACHE;
  match gc_isLoaded g, gc_competitions g with
  | true, Some competitions => storeCompetitions competitions
  | _, _ => throw (mkError "Global cache is not ready")
  end.

Section Manager.
Variable net : Network.

Definition loadAllCompetitions : M unit :=
  try_catch
    (result ← fetchAllCompetitions net;
     storeCompetitions result)
    (fun error => throw (mkError ERR_API_ERROR)).

Definition preloadAllData : M unit :=
  try_catch
    (result ← DataService_preloadAllData net;
     match result with
     | Preloaded _ _ _ => loadFromGlobalCache
     | AlreadyPreloading => throw (mkError "Pre-load failed")
     end)
    (fun error => loadAllCompetitions).

Definition initialize : M unit :=
  finally
    (try_catch
       (modify (set_isLoading true);;
        ready ← isCacheReady;
        if ready : bool
        then loadFromGlobalCache;; modify (set_isInitialized true)
        else
          restored ← loadFromLocalStorage;
          if restored : bool
          then loadFromGlobalCache;; modify (set_isInitialized true)
          else preloadAllData;; modify (set_isInitialized true))
       (fun error => throw error))
    (set_isLoading false).

End Manager.

Definition getAllCompetitions : M ref :=
  w ← gets id;
  alloc (elements (store w) (m_all (manager w))).

(** [[...(this.competitions[normalizedCategory] || [])]]: the object has
    the own keys [science], [gem] and [all]; an inherited member is truthy
    and not iterable, and spreading it throws. *)
Definition getCompetitionsByCategory (category : string) : M ref :=
  if String.eqb category "" then alloc []
  else
    let normalizedCategory := trim (toLowerCase category) in
    w ← gets id;
    if String.eqb normalizedCategory "academic"
    then alloc (elements (store w) (m_gem (manager w)))
    else if String.eqb normalizedCategory "science"
    then alloc (elements (store w) (m_science (manager w)))
    else if String.eqb normalizedCategory "gem"
    then alloc (elements (store w) (m_gem (manager w)))
    else if String.eqb normalizedCategory "all"
    then alloc (elements (store w) (m_all (manager w)))
    else if inherited normalizedCategory
    then throw (mkError "TypeError: not iterable")
    else alloc [].

(** The result is the element itself, not a copy; [None] is [null]. *)
Definition getCompetitionById (competitionId : string) : M (option Competition) :=
  if String.eqb competitionId "" then mret None
  else
    let normalizedId := trim competitionId in
    w ← gets id;
    mret (List.find (fun comp => String.eqb (comp_id comp) normalizedId)
            (elements (store w) (m_all (manager w)))).

Record Grouped : Type := mkGrouped {
  grp_science : ref;
  grp_gem : ref;
  grp_academic : ref
}.

Definition getCompetitionsGrouped : M Grouped :=
  w ← gets id;
  science ← alloc (elements (store w) (m_science (manager w)));
  gem ← alloc (elements (store w) (m_gem (manager w)));
  academic ← alloc (elements (store w) (m_gem (manager w)));
  mret (mkGrouped science gem academic).

(** *** A fresh page *)

(** The state after the scripts have loaded: [new CompetitionManager()]
    has allocated its three empty arrays. *)
Definition freshWorld (now : Z) (storage : gmap string StorageItem) : World :=
  {| clock := now;
     GLOBAL_CACHE := mkGlobalCache None [] None false;
     localStorage := storage;
     storageWritable := true;
     dataService := mkDataService ∅ false;
     manager := mkManager 0%nat 1%nat 2%nat (mkErrors SlotNull SlotNull) false false;
     store := [[]; []; []];
     requests := [] |}.

(** ** config.js: categories, endpoints and keyword detection *)

Definition upper_ascii (c : ascii) : ascii :=
  let n := nat_of_ascii c in
  if ((97 <=? n) && (n <=? 122))%nat then ascii_of_nat (n - 32) else c.

(** [String.prototype.toUpperCase]; only a-z have a case in this model. *)
Fixpoint toUpperCase (s : string) : string :=
  match s with
  | EmptyString => EmptyString
  | String c r => String (upper_ascii c) (toUpperCase r)
  end.

(** [s.includes(sub)]. *)
Fixpoint includes (s sub : string) : bool :=
  String.prefix sub s
  || match s with
     | EmptyString => false
     | String _ r => includes r sub
     end.

(** [CONFIG.CATEGORIES]. *)
Record CategoryConfig : Type := mkCategory {
  cat_id : string;
  cat_name : string;
  cat_icon : string;
  cat_color : string;
  cat_description : string
}.

Definition SCIENCE : CategoryConfig :=
  mkCategory "science" "กลุ่มสาระวิทยาศาสตร์และเทคโนโลยี" "🔬" "#74b9ff"
    "การแข่งขันในกลุ่มสาระการเรียนรู้วิทยาศาสตร์และเทคโนโลยี".
Definition GEM : CategoryConfig :=
  mkCategory "gem" "กิจกรรมเจียระไนเพชรวิชาการ" "💎" "#ff6b6b"
    "กิจกรรมการแข่งขันเจียระไนเพชรวิชาการ".
Definition ACADEMIC : CategoryConfig :=
  mkCategory "academic" "กิจกรรมเจียระไนเพชรวิชาการ" "💎" "#ff6b6b"
    "กิจกรรมการแข่งขันเจียระไนเพชรวิชาการ".

Definition CATEGORIES : JsObject CategoryConfig :=
  [ ("SCIENCE", SCIENCE); ("GEM", GEM); ("ACADEMIC", ACADEMIC) ].

(** What [getCategoryConfig] can return besides [null]. *)
Inductive CategoryEntry : Type :=
| Category (c : CategoryConfig)
| InheritedMember (name : string).

(** [getCategoryConfig(categoryId)]; [None] is [null]. *)
Definition getCategoryConfig (categoryId : string) : option CategoryEntry :=
  if String.eqb categoryId "" then None
  else
    let normalizedId := toLowerCase categoryId in
    if String.eqb normalizedId "academic" then Some (Category GEM)
    else
      match obj_get CATEGORIES (toUpperCase categoryId) with
      | Some c => Some (Category c)
      | None =>
          if inherited (toUpperCase categoryId)
          then Some (InheritedMember (toUpperCase categoryId))
          else None
      end.

(** [CONFIG.API.BASE_URL], a placeholder kept for backward compatibility. *)
Definition BASE_URL : string :=
  "https://script.google.com/macros/s/YOUR_SCRIPT_ID_HERE/exec".

(** The [getAPIUrl] of config.js; [DataService.getApiUrl] is its own
    method. *)
Definition getAPIUrl (category : option jsval) : string :=
  match category with
  | Some (JStr c) =>
      if String.eqb c "science" then SCIENCE_URL
      else if String.eqb c "gem" || String.eqb c "academic" then GEM_URL
      else BASE_URL
  | _ => BASE_URL
  end.

Definition scienceKeywords : list string :=
  [ "วิทยาศาสตร์"; "science"; "จรวด"; "บอลลูน"; "เครื่องร่อน"; "เครื่องบิน";
    "rov"; "esport"; "e-sport"; "พร้อมลอย"; "ทักษะเต็มรูป"; "ยิงยาง";
    "ร่อนนาน"; "พลังยาง"; "บินนาน"; "3d"; "ปล่อยอิสระ"; "แม่นยำ"; "show" ].

Definition gemKeywords : list string :=
  [ "เจียระไน"; "คัดลายมือ"; "เรียงความ"; "คิดเลข"; "วาดภาพ"; "นิทาน";
    "มารยาท"; "ภาษาไทย"; "ภาษาอังกฤษ"; "story telling"; "storytelling" ].

Definition detectCompetitionCategory (name : string) : string :=
  if String.eqb name "" then "science"
  else
    let lowerName := toLowerCase name in
    if existsb (fun keyword => includes lowerName (toLowerCase keyword))
         scienceKeywords
    then "science"
    else if existsb (fun keyword => includes lowerName (toLowerCase keyword))
              gemKeywords
    then "gem"
    else "science".

(** ** DataService.js: results by competition *)

(** [fetchResults(competitionId, category = 'science')]: the preloaded
    snapshot is asked first; [has] and [get] are one lookup here. *)
Definition fetchResults (net : Network) (competitionId category : option jsval)
  : M (list RawRecord) :=
  let category :=
    match category with None => Some (JStr "science") | Some _ => category end in
  if negb (truthy competitionId)
  then throw (mkError "Competition ID is required")
  else
    g ← gets GLOBAL_CACHE;
    match map_get (gc_results g) competitionId with
    | Some results => mret results
    | None => fetchResultsInternal net competitionId category
    end.

(** ** CompetitionManager.js: refresh and search *)


(** [searchCompetitions(query, category = null)]: with a blank query the
    array obtained from the accessor is returned as it is, otherwise
    [filter] builds a new one.  [null] is the empty string here. *)
Definition searchCompetitions (query category : string) : M ref :=
  competitions ← getAllCompetitions;
  competitions ← (if negb (String.eqb category "")
                  then getCompetitionsByCategory category
                  else mret competitions);
  if String.eqb query "" || String.eqb (trim query) "" then mret competitions
  else
    let normalizedQuery := trim (toLowerCase query) in
    s ← gets store;
    alloc (List.filter
             (fun competition =>
                includes (toLowerCase (comp_name competition)) normalizedQuery
                || includes (toLowerCase (comp_description competition)) normalizedQuery
                || includes (toLowerCase (comp_level competition)) normalizedQuery)
             (elements s competitions)).

(** ** CompetitionManager.js: the results of one competition *)

Definition ERR_COMPETITION_NOT_FOUND : string := "ไม่พบการแข่งขันที่ต้องการ".

(** [loadResults(competitionId)] for an id given as a string.
    [this.results], the map of processed results that the manager record
    leaves out, is passed in and handed back with the results; when the
    call throws, the map is as it was. *)
Definition loadResults (localeCompare : string -> string -> Z) (net : Network)
  (results : JsMap (list Result)) (competitionId : string)
  : M (JsMap (list Result) * list Result) :=
  if String.eqb competitionId "" then throw (mkError ERR_COMPETITION_NOT_FOUND)
  else
    match map_get results (Some (JStr competitionId)) with
    | Some processedResults => mret (results, processedResults)
    | None =>
        g ← gets GLOBAL_CACHE;
        match map_get (gc_results g) (Some (JStr competitionId)) with
        | Some cachedResults =>
            let processedResults :=
              processResults localeCompare cachedResults competitionId in
            mret (map_set results (Some (JStr competitionId)) processedResults,
                  processedResults)
        | None =>
            try_catch
              (competition ← getCompetitionById competitionId;
               match competition with
               | None => throw (mkError ERR_COMPETITION_NOT_FOUND)
               | Some competition =>
                   rawResults ← fetchResults net (Some (JStr competitionId))
                                  (Some (JStr (comp_category competition)));
                   let processedResults :=
                     processResults localeCompare rawResults competitionId in
                   modify (fun w =>
                     let g := GLOBAL_CACHE w in
                     set_GLOBAL_CACHE
                       (mkGlobalCache (gc_competitions g)
                          (map_set (gc_results g) (Some (JStr competitionId))
                             rawResults)
                          (gc_lastUpdated g) (gc_isLoaded g)) w);;
                   mret (map_set results (Some (JStr competitionId))
                           processedResults,
                         processedResults)
               end)
              (fun error => throw error)
        end
    end.

(** ** Notions used in the statements *)

(** A network whose science endpoint answers every request with [science]
    and whose gem endpoint answers with [gem]. *)
Definition answering (science gem : JsonpEvent) : Network :=
  fun req => if String.eqb (req_url req) SCIENCE_URL then science else gem.

(** The school and the award as [validateResult] reads them: the
    English field unless it is missing or [null], else the Thai one. *)
Definition schoolOf (result : RawRecord) : option jsval :=
  obj_get result "school" ?? obj_get result "โรงเรียน".

Definition awardOf (result : RawRecord) : option jsval :=
  obj_get result "award" ?? obj_get result "รางวัล".

(** What [validateResult] takes for non-blank: a string with a character
    that is not white space, a number other than 0, or [true]. *)
Definition nonBlank (v : option jsval) : Prop :=
  match v with
  | Some (JStr s) => trim s <> ""
  | Some (JNum n) => n <> 0
  | Some (JBool b) => b = true
  | Some JNull | None => False
  end.

(** The specification's reading.  A field is non-blank when it holds a
    value whose text is not empty after trimming; a record has a school
    when the English or the Thai field is non-blank, likewise an award; a
    record is to be retained when it has a school or an award. *)
Definition spec_nonBlank (v : option jsval) : Prop :=
  match v with
  | None | Some JNull => False
  | Some _ => trim (String_of v) <> ""
  end.

Definition spec_hasSchool (result : RawRecord) : Prop :=
  spec_nonBlank (obj_get result "school")
  \/ spec_nonBlank (obj_get result "โรงเรียน").

Definition spec_hasAward (result : RawRecord) : Prop :=
  spec_nonBlank (obj_get result "award")
  \/ spec_nonBlank (obj_get result "รางวัล").

Definition spec_retained (result : RawRecord) : Prop :=
  spec_hasSchool result \/ spec_hasAward result.

(** Where the two readings part: a value that is falsy although its text
    is not blank (the number 0, [false]), and an English field that is
    present and blank while the Thai field is not. *)
Definition falsyText (v : option jsval) : Prop :=
  v = Some (JNum 0) \/ v = Some (JBool false).

Definition hidesThai (english thai : option jsval) : Prop :=
  english <> None /\ english <> Some JNull
  /\ ~ spec_nonBlank english /\ spec_nonBlank thai.

(** A record lacks a non-empty [field] when the property is absent, [null]
    or the empty string. *)
Definition lacks (r : RawRecord) (field : string) : Prop :=
  match obj_get r field with
  | None | Some JNull | Some (JStr EmptyString) => True
  | Some _ => False
  end.

(** A record with a non-empty id and a non-empty name. *)
Definition complete (r : RawRecord) : bool :=
  match obj_get r "id", obj_get r "name" with
  | None, _ | Some JNull, _ | Some (JStr EmptyString), _ => false
  | _, None | _, Some JNull | _, Some (JStr EmptyString) => false
  | Some _, Some _ => true
  end.

(** A record with an own property named [hasOwnProperty], which hides the
    method [validateCompetition] calls. *)
Definition shadowing (r : RawRecord) : bool :=
  hasOwnProperty r "hasOwnProperty".

(** No record of the catalogue hides the method. *)
Definition sound (c : FetchedCompetitions) : bool :=
  forallb (fun r => negb (shadowing r)) (fc_science c)
  && forallb (fun r => negb (shadowing r)) (fc_gem c).

(** [x] is the normal form of a catalogue record that has a non-empty id
    and a non-empty name. *)
Definition fromValidRecord (c : FetchedCompetitions) (x : Competition) : Prop :=
  exists (r : RawRecord) (idx : nat) (category : string),
    (r ∈ fc_science c \/ r ∈ fc_gem c)
    /\ ~ lacks r "id" /\ ~ lacks r "name"
    /\ x = normalizeCompetition (obj_set r "__orderIndex" (JNum (Z.of_nat idx))) category.

(** [x] is in one of the manager's three collections. *)
Definition collected (w : World) (x : Competition) : Prop :=
  x ∈ elements (store w) (m_science (manager w))
  \/ x ∈ elements (store w) (m_gem (manager w))
  \/ x ∈ elements (store w) (m_all (manager w)).



(** A character that is not white space and cannot be part of a
    multi-byte one. *)
Definition plain (c : ascii) : Prop :=
  ascii_ws c = false /\ (nat_of_ascii c < 128)%nat.

Fixpoint all_plain (s : string) : Prop :=
  match s with
  | EmptyString => True
  | String c r => plain c /\ all_plain r
  end.


(** The three collections the manager holds. *)
Definition internalCollections (w : World)
  : list Competition * list Competition * list Competition :=
  (elements (store w) (m_science (manager w)),
   elements (store w) (m_gem (manager w)),
   elements (store w) (m_all (manager w))).

(** The references of the manager point into the store. *)
Definition manager_wf (w : World) : Prop :=
  (m_science (manager w) < length (store w))%nat
  /\ (m_gem (manager w) < length (store w))%nat
  /\ (m_all (manager w) < length (store w))%nat.

(** What a caller can do to an array it was handed. *)
Inductive ArrayOp : Type :=
| Push (c : Competition)
| Pop.

Definition applyOp (s : Store) (op : ref * ArrayOp) : Store :=
  match snd op with
  | Push c => Array_push (fst op) c s
  | Pop => Array_pop (fst op) s
  end.

(** The caller mutates the arrays it holds; nothing else changes. *)
Definition mutate (ops : list (ref * ArrayOp)) (w : World) : World :=
  set_store (foldl applyOp (store w) ops) w.

(** The call [m] hands out copies of the lists [contents]: it returns
    arrays that hold these lists, that are new in the store, distinct from
    each other and none of the manager's own; it leaves the manager and
    the arrays that existed as they were; and whatever the caller then
    pushes to or pops from the arrays it was handed, the manager's
    collections stay as they were and a further call hands out the same
    lists again. *)
Definition handsOutCopies {R : Type} (m : M R) (refs : R -> list ref)
  (contents : list (list Competition)) (w : World) : Prop :=
  exists g w1,
    m w = (Returns g, w1)
    /\ map (elements (store w1)) (refs g) = contents
    /\ NoDup (refs g)
    /\ Forall (fun r => (length (store w) <= r < length (store w1))%nat
                        /\ r <> m_science (manager w)
                        /\ r <> m_gem (manager w)
                        /\ r <> m_all (manager w)) (refs g)
    /\ manager w1 = manager w
    /\ store w `prefix_of` store w1
    /\ internalCollections w1 = internalCollections w
    /\ forall ops,
         Forall (fun op => fst op ∈ refs g) ops ->
         internalCollections (mutate ops w1) = internalCollections w
         /\ exists g' w3,
              m (mutate ops w1) = (Returns g', w3)
              /\ map (elements (store w3)) (refs g') = contents.

(** A step that only talks to the network: it may advance the clock, log
    requests and touch [DataService.cache], and leaves the rest alone. *)
Definition steady (w w' : World) : Prop :=
  GLOBAL_CACHE w' = GLOBAL_CACHE w
  /\ localStorage w' = localStorage w
  /\ storageWritable w' = storageWritable w
  /\ manager w' = manager w
  /\ store w' = store w
  /\ ds_isPreloading (dataService w') = ds_isPreloading (dataService w)
  /\ clock w <= clock w'.

(** The same, the clock aside. *)
Definition still (w w' : World) : Prop :=
  GLOBAL_CACHE w' = GLOBAL_CACHE w
  /\ localStorage w' = localStorage w
  /\ storageWritable w' = storageWritable w
  /\ manager w' = manager w
  /\ store w' = store w
  /\ ds_isPreloading (dataService w') = ds_isPreloading (dataService w).

Definition preserves {A : Type} (P : World -> World -> Prop) (m : M A) : Prop :=
  forall w r w', m w = (r, w') -> P w w'.

(** The ids of a list of raw competitions, as [preloadAllData] reads
    them. *)
Definition idsOf (comps : list RawRecord) : list (option jsval) :=
  map (fun comp => obj_get comp "id") comps.

(** Two snapshots with the same content. *)
Definition sameContent (g g' : GlobalCache) : Prop :=
  gc_competitions g = gc_competitions g'
  /\ gc_lastUpdated g = gc_lastUpdated g'
  /\ gc_isLoaded g = gc_isLoaded g'
  /\ forall k, map_get (gc_results g) k = map_get (gc_results g') k.

(** A map keyed by strings, each key once. *)
Definition stringKeyed {V : Type} (m : JsMap V) : Prop :=
  Forall (fun kv => exists s, fst kv = Some (JStr s)) m /\ NoDup (map fst m).

(** A network to run examples with: the science endpoint has no
    competition, the gem endpoint has the competitions [g1] and [g2] (and a
    record without a name); the script for the results of [g1] fails to
    load, the results of [g2] arrive. *)
Definition sampleNetwork : Network :=
  fun req =>
    if String.eqb (req_action req) "getCompetitions"
    then
      if String.eqb (req_url req) SCIENCE_URL
      then mkEvent (Callback (Some (mkResponse true (Some []) None))) 300
      else mkEvent (Callback (Some (mkResponse true
             (Some [ [("id", JStr "g1"); ("name", JStr "Essay")];
                     [("id", JStr "g2"); ("name", JStr "Drawing")];
                     [("id", JStr "g3"); ("name", JStr "")] ]) None))) 500
    else
      if bool_decide (req_id req = Some "g1")
      then mkEvent ScriptError 100
      else mkEvent (Callback (Some (mkResponse true
             (Some [ [("school", JStr "S"); ("award", JStr "ชนะเลิศ")] ]) None))) 700.

(** A network whose endpoints answer every request with an empty array. *)
Definition emptyNetwork : Network :=
  fun req => mkEvent (Callback (Some (mkResponse true (Some []) None))) 300.

(** A network whose science endpoint is down while the gem endpoint has one
    competition, whose results arrive. *)
Definition scienceDown : Network :=
  fun req =>
    if String.eqb (req_url req) SCIENCE_URL then mkEvent ScriptError 100
    else if String.eqb (req_action req) "getCompetitions"
    then mkEvent (Callback (Some (mkResponse true
           (Some [ [("id", JStr "g1"); ("name", JStr "Essay");
                    ("category", JStr "gem")] ]) None))) 500
    else mkEvent (Callback (Some (mkResponse true
           (Some [ [("school", JStr "S"); ("award", JStr "ชนะเลิศ")] ]) None))) 700.

(** A network whose two endpoints number their competitions
    independently, so that a science and a gem competition share the id
    [1]; the results of the science one fail to load, those of the gem one
    arrive. *)
Definition sharedIdNetwork : Network :=
  fun req =>
    if String.eqb (req_action req) "getCompetitions"
    then
      if String.eqb (req_url req) SCIENCE_URL
      then mkEvent (Callback (Some (mkResponse true
             (Some [ [("id", JStr "1"); ("name", JStr "Rocket");
                      ("category", JStr "science")] ]) None))) 300
      else mkEvent (Callback (Some (mkResponse true
             (Some [ [("id", JStr "1"); ("name", JStr "Essay");
                      ("category", JStr "gem")] ]) None))) 500
    else
      if String.eqb (req_url req) SCIENCE_URL
      then mkEvent ScriptError 100
      else mkEvent (Callback (Some (mkResponse true
             (Some [ [("school", JStr "S"); ("award", JStr "ชนะเลิศ")] ]) None))) 700.

(** A network whose gem endpoint delivers a record with a column named
    [hasOwnProperty]. *)
Definition shadowingNetwork : Network :=
  fun req =>
    if String.eqb (req_action req) "getCompetitions"
    then
      if String.eqb (req_url req) SCIENCE_URL
      then mkEvent (Callback (Some (mkResponse true
             (Some [ [("id", JStr "s1"); ("name", JStr "Rocket")] ]) None))) 300
      else mkEvent (Callback (Some (mkResponse true
             (Some [ [("id", JStr "g1"); ("name", JStr "Essay");
                      ("hasOwnProperty", JStr "x")] ]) None))) 500
    else mkEvent (Callback (Some (mkResponse true
           (Some [ [("school", JStr "S"); ("award", JStr "ชนะเลิศ")] ]) None))) 700.
(** The two requests [fetchAllCompetitions] sends. *)
Definition catalogueRequests : list Request :=
  [ mkRequest SCIENCE_URL "getCompetitions" None;
    mkRequest GEM_URL "getCompetitions" None ].

(** The manager holds the processed catalogue [c]. *)
Definition holds (c : FetchedCompetitions) (w : World) : Prop :=
  exists science gem,
    processCompetitions (fc_science c) "science" = Returns science
    /\ processCompetitions (fc_gem c) "gem" = Returns gem
    /\ internalCollections w = (science, gem, science ++ gem)
    /\ m_errors (manager w) = fc_errors c
    /\ manager_wf w.

(** The catalogue the endpoints offer: what [fetchAllCompetitions]
    resolves with. *)
Definition offered (net : Network) : FetchedCompetitions :=
  collectSettled
    (match jsonpCompletion net (mkRequest SCIENCE_URL "getCompetitions" None) with
     | Returns value => Returns value
     | Throws _ => Throws (mkError ERR_SCIENCE_LOAD_FAILED)
     end)
    (match jsonpCompletion net (mkRequest GEM_URL "getCompetitions" None) with
     | Returns value => Returns value
     | Throws _ => Throws (mkError ERR_GEM_LOAD_FAILED)
     end).

(** The key of [DataService.cache] and the request for the results of a
    raw competition, as [preloadAllData] forms them. *)
Definition resultsKey (comp : RawRecord) : string :=
  "results_" +:+ String_of (obj_get comp "id").

Definition resultsRequest (comp : RawRecord) : Request :=
  mkRequest (getApiUrl (obj_get comp "category")) "getResults"
    (Some (String_of (obj_get comp "id"))).

(** The message of the error [fetchResultsInternal] throws for [comp]
    when its request failed with [e]. *)
Definition resultsFailure (comp : RawRecord) (e : Error) : string :=
  "ไม่สามารถโหลดผลการแข่งขัน " +:+ String_of (obj_get comp "id")
  +:+ " ได้: " +:+ message e.

(** What a task of the preload leaves when the promise of its request
    settles with [reply]: the entry under the id of its competition, and
    its report. *)
Definition entryFor (reply : Completion (list RawRecord)) : list RawRecord :=
  match reply with
  | Returns results => results
  | Throws _ => []
  end.

Definition reportFor (comp : RawRecord) (reply : Completion (list RawRecord))
  : TaskReport :=
  match reply with
  | Returns _ => mkReport (obj_get comp "id") true None
  | Throws e => mkReport (obj_get comp "id") false (Some (resultsFailure comp e))
  end.

(** No other competition of the list has an id with the same text as the
    id of the competition at [i]. *)
Definition idUnshared (comps : list RawRecord) (i : nat) : Prop :=
  forall j comp other,
    comps !! i = Some comp -> comps !! j = Some other -> j <> i ->
    String_of (obj_get other "id") <> String_of (obj_get comp "id").

(** [DataService.cache] holds an entry under [key] that a lookup at the
    time of [w] would return. *)
Definition usable (key : string) (w : World) : Prop :=
  exists entry,
    ds_cache (dataService w) !! key = Some entry
    /\ clock w - ce_timestamp entry < CACHE_TIMEOUT.

(** The position of an award in the sort: its tier, and 7 for a result
    without an award. *)
Definition tier (award : string) : Z :=
  match getAwardConfig award with
  | Some e => default 0 (entry_rank e)
  | None => 7
  end.

(** [a] may stand before [b]: by rank, results without a rank last, and by
    award tier among equal ranks. *)
Definition inOrder (a b : Result) : Prop :=
  match res_rank a, res_rank b with
  | Some x, Some y => x < y \/ (x = y /\ tier (res_award a) <= tier (res_award b))
  | Some _, None => True
  | None, Some _ => False
  | None, None => tier (res_award a) <= tier (res_award b)
  end.

(** A string of ASCII characters. *)
Fixpoint isAscii (s : string) : Prop :=
  match s with
  | EmptyString => True
  | String c r => (nat_of_ascii c < 128)%nat /\ isAscii r
  end.

(** [localStorage] holds a document [d], stamped [t], that
    [loadFromLocalStorage] accepts: it parses, carries the version tag of
    the application, and is not older than the TTL. *)
Definition restorable (w : World) (d : CacheData) (t : Z) : Prop :=
  localStorage w !! PERSIST_KEY = Some (Json d)
  /\ localStorage w !! VERSION_KEY = Some (Text APP_VERSION)
  /\ cd_lastUpdated d = Some t
  /\ t <> 0
  /\ clock w - t <= CACHE_TIMEOUT.

(** Nothing to strip at the front of [s] (at its end when [s] is read
    back to front). *)
Definition headClean (back : bool) (s : string) : Prop :=
  match s with
  | EmptyString => True
  | String c r =>
      ascii_ws c = false
      /\ match r with
         | EmptyString => True
         | String c1 r1 =>
             (if back then ws2 c1 c else ws2 c c1) = false
             /\ match r1 with
                | EmptyString => True
                | String c2 r2 => (if back then ws3 c2 c1 c else ws3 c c1 c2) = false
                end
         end
  end.

(** The competitions the manager lists. *)
Definition listed (w : World) : list Competition :=
  elements (store w) (m_all (manager w)).

(** A network whose endpoints deliver their catalogue only just before the
    request timeout, the science one with a record that has a column named
    [hasOwnProperty], and never answer a results request in time. *)
Definition slowShadowingNetwork : Network :=
  fun req =>
    if String.eqb (req_action req) "getCompetitions"
    then
      if String.eqb (req_url req) SCIENCE_URL
      then mkEvent (Callback (Some (mkResponse true
             (Some [ [("id", JStr "s1"); ("name", JStr "Rocket");
                      ("hasOwnProperty", JStr "x")] ]) None))) (Z.to_nat 14999)
      else mkEvent (Callback (Some (mkResponse true
             (Some [ [("id", JStr "g1"); ("name", JStr "Essay")] ]) None))) (Z.to_nat 14999)
    else mkEvent ScriptError (Z.to_nat 20000).
(** * Properties *)

(** ** Cache validity *)

Lemma truthy_jsnum_of (v : option Z) :
  truthy (jsnum_of v) = true <-> exists t, v = Some t /\ t <> 0.
Proof.
  destruct v as [t|]; simpl.
  - rewrite negb_true_iff, Z.eqb_neq. split; [eauto | intros (? & [= <-] & ?); done].
  - split; [done | intros (? & ? & _); done].
Qed.

Lemma truthy_js_and (a b : option jsval) :
  truthy (js_and a b) = truthy a && truthy b.
Proof. unfold js_and. destruct (truthy a) eqn:E; [done | by rewrite E]. Qed.

Lemma js_and_is_true (a b : option jsval) :
  js_and a b = Some (JBool true) <->
  truthy a = true /\ b = Some (JBool true).
Proof.
  unfold js_and. destruct (truthy a) eqn:E.
  - split; [intros -> | intros [_ ->]]; done.
  - split; [intros -> | intros [? _]]; done.
Qed.

Lemma isCacheValid_true (now : Z) (g : GlobalCache) :
  isCacheValid now g = Some (JBool true) <->
  gc_isLoaded g = true
  /\ (exists t, gc_lastUpdated g = Some t /\ t <> 0)
  /\ elapsed_since now (gc_lastUpdated g) < CACHE_TIMEOUT.
Proof.
  unfold isCacheValid. rewrite !js_and_is_true, truthy_jsnum_of.
  change (truthy (Some (JBool (gc_isLoaded g)))) with (gc_isLoaded g).
  split.
  - intros (? & ? & [= H]). apply Z.ltb_lt in H. done.
  - intros (? & ? & H). apply Z.ltb_lt in H. by rewrite H.
Qed.

Lemma isCacheValid_truthy (now : Z) (g : GlobalCache) :
  truthy (isCacheValid now g) = true <-> isCacheValid now g = Some (JBool true).
Proof.
  rewrite isCacheValid_true. unfold isCacheValid.
  rewrite !truthy_js_and, !andb_true_iff, truthy_jsnum_of.
  change (truthy (Some (JBool (gc_isLoaded g)))) with (gc_isLoaded g).
  change (truthy (Some (JBool ?b))) with b.
  by rewrite Z.ltb_lt.
Qed.

(** C3.  While the clock reads at least one TTL past the epoch, [isCacheValid]
    returns [true] exactly when the loaded flag is set and the time elapsed
    since [lastUpdated] is under the TTL, and a falsy value otherwise; a
    loaded snapshot stamped TTL + 1 ms ago is reported invalid and one
    stamped TTL - 1 ms ago is reported valid. *)
Theorem isCacheValid_iff (now : Z) (g : GlobalCache)
  (c : option FetchedCompetitions) (r : JsMap (list RawRecord)) :
  CACHE_TIMEOUT <= now ->
  (isCacheValid now g = Some (JBool true) <->
     gc_isLoaded g = true
     /\ exists t, gc_lastUpdated g = Some t /\ now - t < CACHE_TIMEOUT)
  /\ (truthy (isCacheValid now g) = true <->
        isCacheValid now g = Some (JBool true))
  /\ truthy (isCacheValid now
               (mkGlobalCache c r (Some (now - (CACHE_TIMEOUT + 1))) true)) = false
  /\ isCacheValid now
       (mkGlobalCache c r (Some (now - (CACHE_TIMEOUT - 1))) true)
     = Some (JBool true).
Proof.
  intros Hnow. split; [split|split; [|split]].
  - intros (? & (t & Ht & ?) & Hlt)%isCacheValid_true.
    rewrite Ht in Hlt. unfold elapsed_since in Hlt. simpl in Hlt. eauto.
  - intros (? & t & Ht & Hlt). apply isCacheValid_true.
    split; [done|]. rewrite Ht. unfold elapsed_since. simpl.
    split; [|done]. exists t. split; [done|]. lia.
  - apply isCacheValid_truthy.
  - apply not_true_is_false.
    intros (_ & _ & Hlt)%isCacheValid_truthy%isCacheValid_true.
    unfold elapsed_since in Hlt. simpl in Hlt. lia.
  - apply isCacheValid_true. unfold elapsed_since. simpl.
    split; [done|]. split; [|lia]. eexists. split; [done|]. lia.
Qed.

Lemma isCacheValid_iff_witness :
  (isCacheValid 1700000000000
     (mkGlobalCache None [] (Some 1699999000000) true) = Some (JBool true) <->
     true = true
     /\ exists t, Some 1699999000000 = Some t /\ 1700000000000 - t < CACHE_TIMEOUT)
  /\ truthy (isCacheValid 1700000000000
               (mkGlobalCache None [] (Some (1700000000000 - (CACHE_TIMEOUT + 1))) true))
     = false.
Proof.
  pose proof (isCacheValid_iff 1700000000000
                (mkGlobalCache None [] (Some 1699999000000) true) None []) as H.
  destruct H as (H1 & _ & H3 & _).
  - unfold CACHE_TIMEOUT. lia.
  - split; [exact H1 | exact H3].
Defined.

(** ** Fetching the two catalogues *)

Lemma simpleJSONP_fst (net : Network) (req : Request) (w : World) :
  fst (simpleJSONP net req w) = jsonpCompletion net req.
Proof.
  unfold simpleJSONP, jsonpCompletion.
  destruct (API_TIMEOUT <=? _); [done|].
  destruct (reply (net req)) as [[response|]|]; [|done..].
  by destruct (success response).
Qed.

Lemma fetchScienceCompetitions_fst (net : Network) (w w' : World) :
  fst (fetchScienceCompetitions net w) = fst (fetchScienceCompetitions net w').
Proof.
  unfold fetchScienceCompetitions, try_catch.
  pose proof (simpleJSONP_fst net (mkRequest SCIENCE_URL "getCompetitions" None) w) as H.
  pose proof (simpleJSONP_fst net (mkRequest SCIENCE_URL "getCompetitions" None) w') as H'.
  destruct (simpleJSONP net _ w) as [[v|e] w1], (simpleJSONP net _ w') as [[v'|e'] w1'];
    simpl in *; congruence.
Qed.

Lemma fetchGemCompetitions_fst (net : Network) (w w' : World) :
  fst (fetchGemCompetitions net w) = fst (fetchGemCompetitions net w').
Proof.
  unfold fetchGemCompetitions, try_catch.
  pose proof (simpleJSONP_fst net (mkRequest GEM_URL "getCompetitions" None) w) as H.
  pose proof (simpleJSONP_fst net (mkRequest GEM_URL "getCompetitions" None) w') as H'.
  destruct (simpleJSONP net _ w) as [[v|e] w1], (simpleJSONP net _ w') as [[v'|e'] w1'];
    simpl in *; congruence.
Qed.

(** [fetchAllCompetitions] resolves with what the two settled fetches
    left. *)
Lemma fetchAllCompetitions_returns (net : Network) (w : World) :
  exists w',
    fetchAllCompetitions net w
    = (Returns (collectSettled (fst (fetchScienceCompetitions net w))
                  (fst (fetchGemCompetitions net w))), w').
Proof.
  unfold fetchAllCompetitions, try_catch, mbind, M_bind, gets, concurrently, settle, mret, M_ret.
  rewrite (fetchScienceCompetitions_fst net w (set_clock (clock w) w)).
  destruct (fetchScienceCompetitions net (set_clock (clock w) w)) as [s w1]; simpl.
  rewrite (fetchGemCompetitions_fst net w
             (set_clock (clock w) (set_clock (clock w `max` clock w1) w1))).
  destruct (fetchGemCompetitions net _) as [g w2]; simpl.
  eauto.
Qed.

Lemma simpleJSONP_spec (net : Network) (req : Request) (w : World) :
  simpleJSONP net req w
  = (jsonpCompletion net req,
     set_clock (clock w + Z.min API_TIMEOUT (Z.of_nat (latency (net req))))
       (set_requests (requests w ++ [req]) w)).
Proof.
  unfold simpleJSONP, jsonpCompletion.
  destruct (API_TIMEOUT <=? Z.of_nat (latency (net req))) eqn:E.
  - apply Z.leb_le in E. rewrite Z.min_l by exact E. reflexivity.
  - apply Z.leb_gt in E. rewrite Z.min_r by lia.
    destruct (reply (net req)) as [[response|]|]; [destruct (success response)|..];
      reflexivity.
Qed.

(** [fetchAllCompetitions] resolves with the catalogue the endpoints
    offer, having logged the two requests and waited for the slower of the
    two; nothing else changes. *)
Lemma fetchAllCompetitions_spec (net : Network) (w : World) :
  exists t,
    fetchAllCompetitions net w
    = (Returns (offered net),
       set_clock t (set_requests (requests w ++ catalogueRequests) w))
    /\ clock w <= t <= clock w + API_TIMEOUT.
Proof.
  unfold fetchAllCompetitions, fetchScienceCompetitions, fetchGemCompetitions,
    try_catch, mbind, M_bind, gets, concurrently, settle, offered.
  rewrite simpleJSONP_spec.
  destruct (jsonpCompletion net (mkRequest SCIENCE_URL "getCompetitions" None));
    cbn -[Z.min Z.max API_TIMEOUT]; rewrite simpleJSONP_spec;
    destruct (jsonpCompletion net (mkRequest GEM_URL "getCompetitions" None));
    cbn -[Z.min Z.max API_TIMEOUT]; rewrite <- app_assoc;
    (eexists; split; [reflexivity|]); unfold API_TIMEOUT; lia.
Qed.

Lemma offered_settled (net : Network) (w : World) :
  collectSettled (fst (fetchScienceCompetitions net w))
    (fst (fetchGemCompetitions net w))
  = offered net.
Proof.
  destruct (fetchAllCompetitions_returns net w) as [w1 H1].
  destruct (fetchAllCompetitions_spec net w) as (t & H2 & _).
  rewrite H1 in H2. apply (f_equal fst) in H2. cbn [fst] in H2. congruence.
Qed.

(** C1.  [fetchAllCompetitions] always resolves, with each category's
    outcome captured on its own: a fulfilled category yields its array and a
    [null] error slot, a rejected one an empty array and its reason; the
    outcome of one category does not touch the other.  A science endpoint
    that answers with an empty array leaves [errors.science] at [null]
    whatever the gem endpoint does. *)
Theorem fetchAllCompetitions_never_fails (net : Network) (w : World) :
  (exists w',
     fetchAllCompetitions net w
     = (Returns (collectSettled (fst (fetchScienceCompetitions net w))
                   (fst (fetchGemCompetitions net w))), w'))
  /\ (forall vs vg,
        collectSettled (Returns vs) (Returns vg)
        = mkFetched vs vg (mkErrors SlotNull SlotNull))
  /\ (forall vs rg,
        collectSettled (Returns vs) (Throws rg)
        = mkFetched vs [] (mkErrors SlotNull (SlotError rg)))
  /\ (forall rs vg,
        collectSettled (Throws rs) (Returns vg)
        = mkFetched [] vg (mkErrors (SlotError rs) SlotNull))
  /\ (forall rs rg,
        collectSettled (Throws rs) (Throws rg)
        = mkFetched [] [] (mkErrors (SlotError rs) (SlotError rg)))
  /\ (forall gem e,
        exists result w',
          fetchAllCompetitions
            (answering (mkEvent (Callback (Some (mkResponse true (Some []) e))) 300) gem) w
          = (Returns result, w')
          /\ fc_science result = []
          /\ err_science (fc_errors result) = SlotNull).
Proof.
  split; [apply fetchAllCompetitions_returns|].
  do 4 (split; [done|]).
  intros gem e.
  destruct (fetchAllCompetitions_returns
              (answering (mkEvent (Callback (Some (mkResponse true (Some []) e))) 300) gem) w)
    as [w' Hw'].
  eexists _, w'. split; [exact Hw'|].
  unfold fetchScienceCompetitions, try_catch.
  pose proof (simpleJSONP_fst
    (answering (mkEvent (Callback (Some (mkResponse true (Some []) e))) 300) gem)
    (mkRequest SCIENCE_URL "getCompetitions" None) w) as H.
  destruct (simpleJSONP _ _ w) as [[v|err] w1]; simpl in H |- *.
  - injection H as ->. done.
  - discriminate H.
Qed.

(** ** Validation of results *)

Lemma plain_ws2 (c x : ascii) : plain c -> ws2 c x = false /\ ws2 x c = false.
Proof.
  intros [_ H]. unfold ws2. split.
  - destruct (Nat.eqb_spec (nat_of_ascii c) 194); [lia|done].
  - destruct (Nat.eqb_spec (nat_of_ascii c) 160); [lia|by rewrite andb_false_r].
Qed.

Lemma plain_ws3 (c x y : ascii) : plain c -> ws3 c x y = false /\ ws3 x y c = false.
Proof.
  intros [_ H]. unfold ws3. split.
  - repeat match goal with
           | |- context [Nat.eqb (nat_of_ascii c) ?n] =>
               destruct (Nat.eqb_spec (nat_of_ascii c) n); [lia|]
           end.
    done.
  - repeat match goal with
           | |- context [Nat.eqb (nat_of_ascii c) ?n] =>
               destruct (Nat.eqb_spec (nat_of_ascii c) n); [lia|]
           end.
    destruct (Nat.leb_spec 128 (nat_of_ascii c)); [lia|].
    cbn [andb orb]. by rewrite !andb_false_r.
Qed.

Lemma stripWs_plain (back : bool) (c : ascii) (r : string) :
  plain c -> stripWs back (String c r) = String c r.
Proof.
  intros Hc. cbn [stripWs]. rewrite (proj1 Hc).
  destruct r as [|c1 r1]; [done|].
  destruct (plain_ws2 c c1 Hc) as [-> ->].
  destruct r1 as [|c2 r2]; [by destruct back|].
  destruct (plain_ws3 c c1 c2 Hc) as [-> _].
  destruct (plain_ws3 c c2 c1 Hc) as [_ ->].
  by destruct back.
Qed.

Lemma rev_app_plain (s t : string) :
  all_plain s -> all_plain t -> all_plain (String.rev_app s t).
Proof.
  revert t. induction s as [|c s IH]; intros t Hs Ht; [done|].
  destruct Hs as [Hc Hs]. apply IH; [done|]. by split.
Qed.

Lemma rev_app_nonempty (s t : string) :
  s <> "" \/ t <> "" -> String.rev_app s t <> "".
Proof.
  revert t. induction s as [|c s IH]; intros t H; simpl.
  - by destruct H.
  - apply IH. by right.
Qed.

Lemma trim_plain_nonempty (s : string) :
  all_plain s -> s <> "" -> trim s <> "".
Proof.
  intros Hs Hne. unfold trim.
  destruct s as [|c r]; [done|]. destruct Hs as [Hc Hr].
  rewrite stripWs_plain by done.
  pose proof (rev_app_plain (String c r) "" (conj Hc Hr) I) as Hp.
  pose proof (rev_app_nonempty (String c r) "" (or_introl Hne)) as Hn.
  fold (String.rev (String c r)) in Hp, Hn.
  destruct (String.rev (String c r)) as [|c' r'] eqn:E; [done|].
  rewrite stripWs_plain by apply Hp.
  apply rev_app_nonempty. by left.
Qed.

Lemma uint_plain (d : Decimal.uint) : all_plain (NilEmpty.string_of_uint d).
Proof. induction d; simpl; repeat split; try done; cbv; lia. Qed.

Lemma decimal_plain (n : Z) :
  all_plain (String_of (Some (JNum n))) /\ String_of (Some (JNum n)) <> "".
Proof.
  unfold String_of, NilZero.string_of_int.
  destruct (Z.to_int n) as [d|d]; unfold NilZero.string_of_uint.
  - destruct d; (split; [first [apply uint_plain | simpl; repeat split; cbv; lia] | done]).
  - split; [|done]. split; [split; cbv; [done|lia]|].
    destruct d; first [apply uint_plain | simpl; repeat split; cbv; lia].
Qed.

Lemma has_text_nonBlank (v : option jsval) : has_text v = true <-> nonBlank v.
Proof.
  unfold has_text. rewrite andb_true_iff, negb_true_iff, String.eqb_neq.
  destruct v as [[|b|n|s]|]; simpl.
  - split; [intros [? _]; done | done].
  - destruct b; [|split; [intros [? _]; done | done]].
    split; [done|]. intros _. split; [done|]. by vm_compute.
  - rewrite negb_true_iff, Z.eqb_neq. split; [by intros [? _]|].
    intros Hn. split; [done|].
    apply trim_plain_nonempty; apply decimal_plain.
  - rewrite negb_true_iff, String.eqb_neq. split; [by intros [_ ?]|].
    intros Ht. split; [|done]. intros ->. by apply Ht.
  - split; [intros [? _]; done | done].
Qed.

Lemma validateResult_iff (result : RawRecord) :
  validateResult result = true <->
  nonBlank (schoolOf result) \/ nonBlank (awardOf result).
Proof.
  unfold validateResult. rewrite orb_true_iff, !has_text_nonBlank. done.
Qed.

(** ** Sorting *)

Lemma sort_insert_perm {A : Type} (cmp : A -> A -> jsnum) (x : A) (l : list A) :
  sort_insert cmp x l ≡ₚ x :: l.
Proof.
  induction l as [|y l IH]; simpl; [done|].
  destruct (positive (cmp x y)); [|done].
  rewrite IH. apply Permutation_swap.
Qed.

Lemma Array_sort_perm {A : Type} (cmp : A -> A -> jsnum) (l : list A) :
  Array_sort cmp l ≡ₚ l.
Proof.
  induction l as [|x l IH]; simpl; [done|].
  rewrite sort_insert_perm. by rewrite IH.
Qed.

Lemma has_text_spec (v : option jsval) : has_text v = true -> spec_nonBlank v.
Proof.
  unfold has_text. rewrite andb_true_iff, negb_true_iff, String.eqb_neq.
  intros [Ht Hs]. destruct v as [[|b|n|s]|]; done.
Qed.

Lemma spec_nonBlank_has_text (v : option jsval) :
  spec_nonBlank v -> ~ falsyText v -> has_text v = true.
Proof.
  intros Hs Hf. apply has_text_nonBlank.
  destruct v as [[|b|n|s]|]; simpl in *; try done.
  - destruct b; [done|]. destruct Hf. by right.
  - intros ->. destruct Hf. by left.
Qed.

Lemma nullish_spec (english thai : option jsval) :
  spec_nonBlank (english ?? thai) -> spec_nonBlank english \/ spec_nonBlank thai.
Proof. destruct english as [[| | |]|]; simpl; auto. Qed.

Lemma has_text_nullish (english thai : option jsval) :
  spec_nonBlank english \/ spec_nonBlank thai ->
  ~ falsyText english -> ~ falsyText thai -> ~ hidesThai english thai ->
  has_text (english ?? thai) = true.
Proof.
  intros Hs He Ht Hh.
  destruct (decide (english = None)) as [->|Hn].
  { destruct Hs as [[]|Hs]. by apply spec_nonBlank_has_text. }
  destruct (decide (english = Some JNull)) as [->|Hnull].
  { destruct Hs as [[]|Hs]. by apply spec_nonBlank_has_text. }
  assert (english ?? thai = english) as -> by (by destruct english as [[| | |]|]).
  destruct Hs as [Hs|Hs]; [by apply spec_nonBlank_has_text|].
  apply spec_nonBlank_has_text; [|done].
  destruct english as [[|b|n|s]|]; try done; simpl;
    intros Hb; apply Hh; (split; [done|]); (split; [done|]); (split; [|done]);
    simpl; intros Hc; by apply Hc.
Qed.

(** C6, as the code has it.  [validateResult] keeps a record exactly when
    the school it reads or the award it reads is non-blank, the value read
    being the English field unless that is missing or [null].  Every
    record it keeps has a non-blank school or award under one of the two
    field names; a record with such a field is kept as well, provided no
    field holds 0 or [false] and no blank English field hides a non-blank
    Thai one.  [processResults] returns a rearrangement of the normal forms
    of the records kept.  A record with an empty school and the award
    "ชนะเลิศ" is kept; one with both empty is dropped. *)
Theorem processResults_keeps_nonblank
  (localeCompare : string -> string -> Z) (rawResults : list RawRecord)
  (competitionId : string) (result : RawRecord) :
  (validateResult result = true <->
     nonBlank (schoolOf result) \/ nonBlank (awardOf result))
  /\ (validateResult result = true -> spec_retained result)
  /\ (spec_retained result ->
      ~ falsyText (obj_get result "school") ->
      ~ falsyText (obj_get result "โรงเรียน") ->
      ~ falsyText (obj_get result "award") ->
      ~ falsyText (obj_get result "รางวัล") ->
      ~ hidesThai (obj_get result "school") (obj_get result "โรงเรียน") ->
      ~ hidesThai (obj_get result "award") (obj_get result "รางวัล") ->
      validateResult result = true)
  /\ processResults localeCompare rawResults competitionId
     ≡ₚ map (fun r => normalizeResult r competitionId)
          (List.filter validateResult rawResults)
  /\ (exists kept,
        processResults localeCompare
          [ [("school", JStr ""); ("award", JStr "ชนะเลิศ")];
            [("school", JStr ""); ("award", JStr "")] ] competitionId = [kept]
        /\ kept = normalizeResult
                    [("school", JStr ""); ("award", JStr "ชนะเลิศ")] competitionId).
Proof.
  split; [apply validateResult_iff|]. split; [|split; [|split]].
  - unfold validateResult. rewrite orb_true_iff.
    intros [H%has_text_spec%nullish_spec | H%has_text_spec%nullish_spec];
      [by left | by right].
  - intros [Hs|Ha] Hf1 Hf2 Hf3 Hf4 Hh1 Hh2; unfold validateResult;
      apply orb_true_iff; [left | right]; by apply has_text_nullish.
  - apply Array_sort_perm.
  - eexists. split; [|done]. done.
Qed.

Lemma processResults_keeps_nonblank_witness :
  validateResult [("โรงเรียน", JStr " Y "); ("award", JNull)] = true.
Proof.
  apply (proj1 (proj2 (proj2
           (processResults_keeps_nonblank ordinalCompare []
              "c1" [("โรงเรียน", JStr " Y "); ("award", JNull)])))).
  - left. right. vm_compute. discriminate.
  - vm_compute. intros [H|H]; discriminate H.
  - vm_compute. intros [H|H]; discriminate H.
  - vm_compute. intros [H|H]; discriminate H.
  - vm_compute. intros [H|H]; discriminate H.
  - intros (H & _). by apply H.
  - intros (_ & _ & _ & H). vm_compute in H. exact H.
Defined.

(** The claim of C6 fails on the code: a record whose Thai school field
    is non-blank is dropped when its English school field is present and
    empty, and so is a record whose school is the number 0, whose text "0"
    is not blank. *)
Lemma blank_english_field_hides_thai :
  spec_retained [("school", JStr ""); ("โรงเรียน", JStr "Y")]
  /\ validateResult [("school", JStr ""); ("โรงเรียน", JStr "Y")] = false
  /\ processResults ordinalCompare
       [ [("school", JStr ""); ("โรงเรียน", JStr "Y")] ] "c1" = []
  /\ spec_retained [("school", JNum 0)]
  /\ validateResult [("school", JNum 0)] = false
  /\ processResults ordinalCompare [ [("school", JNum 0)] ] "c1" = [].
Proof.
  split; [left; right; vm_compute; discriminate|].
  split; [reflexivity|]. split; [reflexivity|].
  split; [left; left; vm_compute; discriminate|].
  split; reflexivity.
Qed.

(** ** The comparison of normalized results *)











(** ** The order of a rank column [3, null, 1, null] *)

Lemma compareResults_ranks (lc : string -> string -> Z) (x y : Result) :
  res_rank x <> res_rank y ->
  compareResults lc x y = num_sub (toNum (res_rank x)) (toNum (res_rank y)).
Proof.
  intros H. unfold compareResults.
  assert (num_neq (toNum (res_rank x)) (toNum (res_rank y)) = true) as ->; [|done].
  destruct (res_rank x) as [n|], (res_rank y) as [m|]; simpl; try done.
  apply negb_true_iff, Z.eqb_neq. congruence.
Qed.

(** C8, as the code has it.  Four results whose parsed ranks are
    [3, null, 1, null] come out of [processResults] with ranks
    [1, 3, null, null]: the entries without a rank follow the ranked ones.
    The two unranked entries keep their original order unless
    [compareResults], which goes on to the award tier and the school name,
    puts the second strictly before the first. *)
Theorem processResults_rank_order
  (localeCompare : string -> string -> Z) (rawResults : list RawRecord)
  (competitionId : string) :
  map res_rank
    (map (fun r => normalizeResult r competitionId)
       (List.filter validateResult rawResults))
  = [Some 3; None; Some 1; None] ->
  map res_rank (processResults localeCompare rawResults competitionId)
  = [Some 1; Some 3; None; None]
  /\ exists a b c d,
       map (fun r => normalizeResult r competitionId)
         (List.filter validateResult rawResults) = [a; b; c; d]
       /\ processResults localeCompare rawResults competitionId
          = if positive (compareResults localeCompare b d)
            then [c; a; d; b] else [c; a; b; d].
Proof.
  unfold processResults.
  destruct (map _ (List.filter validateResult rawResults))
    as [|a [|b [|c [|d [|? ?]]]]]; try discriminate.
  intros [= Ha Hb Hc Hd].
  assert (Hcd : compareResults localeCompare c d = NInf).
  { rewrite compareResults_ranks; rewrite Hc, Hd; done. }
  assert (Hbc : compareResults localeCompare b c = PInf).
  { rewrite compareResults_ranks; rewrite Hb, Hc; done. }
  assert (Hac : compareResults localeCompare a c = Fin 2).
  { rewrite compareResults_ranks; rewrite Ha, Hc; done. }
  assert (Had : compareResults localeCompare a d = NInf).
  { rewrite compareResults_ranks; rewrite Ha, Hd; done. }
  assert (Hab : compareResults localeCompare a b = NInf).
  { rewrite compareResults_ranks; rewrite Ha, Hb; done. }
  assert (Hsort : Array_sort (compareResults localeCompare) [a; b; c; d]
                  = if positive (compareResults localeCompare b d)
                    then [c; a; d; b] else [c; a; b; d]).
  { unfold Array_sort. simpl. rewrite Hcd. simpl. rewrite Hbc. simpl.
    destruct (positive (compareResults localeCompare b d)); simpl;
      rewrite Hac; simpl; rewrite ?Had, ?Hab; done. }
  split.
  - rewrite Hsort. destruct (positive _); simpl; congruence.
  - by exists a, b, c, d.
Qed.

Lemma processResults_rank_order_witness :
  map res_rank
    (processResults ordinalCompare
       [ [("rank", JNum 3); ("school", JStr "A"); ("award", JStr "ชมเชย")];
         [("school", JStr "B"); ("award", JStr "ชมเชย")];
         [("rank", JStr "1"); ("school", JStr "C"); ("award", JStr "ชมเชย")];
         [("school", JStr "D"); ("award", JStr "ชมเชย")] ] "c1")
  = [Some 1; Some 3; None; None].
Proof.
  apply (processResults_rank_order ordinalCompare
           [ [("rank", JNum 3); ("school", JStr "A"); ("award", JStr "ชมเชย")];
             [("school", JStr "B"); ("award", JStr "ชมเชย")];
             [("rank", JStr "1"); ("school", JStr "C"); ("award", JStr "ชมเชย")];
             [("school", JStr "D"); ("award", JStr "ชมเชย")] ] "c1").
  reflexivity.
Defined.

(** The claim of C8 fails on the code: the unranked entries do not keep
    their original order when the later one has the better award.  School
    "B" precedes school "D" in the input and follows it in the output. *)
Lemma unranked_entries_reordered :
  map (fun r => (res_rank r, res_school r))
    (map (fun r => normalizeResult r "c1")
       (List.filter validateResult
          [ [("rank", JNum 3); ("school", JStr "A"); ("award", JStr "ชมเชย")];
            [("school", JStr "B"); ("award", JStr "ชมเชย")];
            [("rank", JNum 1); ("school", JStr "C"); ("award", JStr "ชมเชย")];
            [("school", JStr "D"); ("award", JStr "ชนะเลิศ")] ]))
  = [(Some 3, "A"); (None, "B"); (Some 1, "C"); (None, "D")]
  /\ map (fun r => (res_rank r, res_school r))
       (processResults ordinalCompare
          [ [("rank", JNum 3); ("school", JStr "A"); ("award", JStr "ชมเชย")];
            [("school", JStr "B"); ("award", JStr "ชมเชย")];
            [("rank", JNum 1); ("school", JStr "C"); ("award", JStr "ชมเชย")];
            [("school", JStr "D"); ("award", JStr "ชนะเลิศ")] ] "c1")
     = [(Some 1, "C"); (Some 3, "A"); (None, "D"); (None, "B")].
Proof. split; reflexivity. Qed.

(** ** The store of arrays *)

Lemma elements_app_l (s t : Store) (r : ref) :
  (r < length s)%nat -> elements (s ++ t) r = elements s r.
Proof. intros H. unfold elements. by rewrite lookup_app_l. Qed.

Lemma elements_app_new (s t : Store) (a : list Competition) :
  elements (s ++ a :: t) (length s) = a.
Proof.
  unfold elements. rewrite lookup_app_r by lia.
  by rewrite Nat.sub_diag.
Qed.

Lemma alloc_spec (a : list Competition) (w : World) :
  alloc a w = (Returns (length (store w)), set_store (store w ++ [a]) w).
Proof. done. Qed.

(** ** Validation of competitions *)

Lemma validateCompetition_cases (r : RawRecord) :
  validateCompetition r
  = if shadowing r then Throws (mkError ERR_NOT_A_FUNCTION)
    else Returns (complete r).
Proof.
  unfold validateCompetition, shadowing, complete, Array_every, field_present,
    call_hasOwnProperty, hasOwnProperty.
  destruct (obj_get r "hasOwnProperty"); [done|].
  cbn [mbind Completion_bind].
  destruct (obj_get r "id") as [[|?|?|[|? ?]]|]; cbn [andb mbind Completion_bind];
    try reflexivity;
    destruct (obj_get r "name") as [[|?|?|[|? ?]]|]; reflexivity.
Qed.

Lemma complete_lacks (r : RawRecord) :
  complete r = true <-> ~ lacks r "id" /\ ~ lacks r "name".
Proof.
  unfold complete, lacks.
  destruct (obj_get r "id") as [[|?|?|[|? ?]]|],
           (obj_get r "name") as [[|?|?|[|? ?]]|]; split; try done; tauto.
Qed.

Lemma Array_filter_validateCompetition (raws : list RawRecord) :
  Array_filter validateCompetition raws
  = if forallb (fun r => negb (shadowing r)) raws
    then Returns (List.filter complete raws)
    else Throws (mkError ERR_NOT_A_FUNCTION).
Proof.
  induction raws as [|r raws IH]; [done|].
  cbn [Array_filter forallb List.filter]. rewrite validateCompetition_cases.
  destruct (shadowing r); [done|]. cbn [mbind Completion_bind negb andb].
  rewrite IH. destruct (forallb _ raws); [|done].
  cbn [mbind Completion_bind]. by destruct (complete r).
Qed.

(** [processCompetitions] throws exactly when a record hides the method;
    otherwise it returns the normal forms of the complete records, each
    with its position among them. *)
Lemma processCompetitions_cases (raws : list RawRecord) (category : string) :
  processCompetitions raws category
  = if forallb (fun r => negb (shadowing r)) raws
    then Returns
           (imap (fun idx c =>
                    normalizeCompetition
                      (obj_set c "__orderIndex" (JNum (Z.of_nat idx))) category)
              (List.filter complete raws))
    else Throws (mkError ERR_NOT_A_FUNCTION).
Proof.
  unfold processCompetitions. rewrite Array_filter_validateCompetition.
  by destruct (forallb _ raws).
Qed.

Lemma processCompetitions_valid (c : FetchedCompetitions) (raws : list RawRecord)
  (category : string) (items : list Competition) (x : Competition) :
  (forall r, r ∈ raws -> r ∈ fc_science c \/ r ∈ fc_gem c) ->
  processCompetitions raws category = Returns items ->
  x ∈ items -> fromValidRecord c x.
Proof.
  intros Hsub Hp Hx. rewrite processCompetitions_cases in Hp.
  destruct (forallb _ raws); [|done]. injection Hp as <-.
  apply list_elem_of_lookup in Hx as [i Hi].
  rewrite list_lookup_imap in Hi.
  apply fmap_Some in Hi as (r & Hr & ->).
  assert (r ∈ List.filter complete raws) as Hin
    by (apply list_elem_of_lookup; eauto).
  apply list_elem_of_In, filter_In in Hin as [Hin Hv].
  apply complete_lacks in Hv as [Hid Hname].
  exists r, i, category. split; [apply Hsub; by apply list_elem_of_In|done].
Qed.

Lemma processCompetitions_length (raws : list RawRecord) (category : string)
  (items : list Competition) :
  processCompetitions raws category = Returns items ->
  length items = length (List.filter complete raws).
Proof.
  rewrite processCompetitions_cases. destruct (forallb _ raws); [|done].
  intros [= <-]. by rewrite length_imap.
Qed.

Lemma sound_processCompetitions (c : FetchedCompetitions) :
  sound c = true <->
  exists science gem,
    processCompetitions (fc_science c) "science" = Returns science
    /\ processCompetitions (fc_gem c) "gem" = Returns gem.
Proof.
  unfold sound. rewrite !processCompetitions_cases, andb_true_iff.
  destruct (forallb _ (fc_science c)), (forallb _ (fc_gem c)); split;
    try (intros [? ?]; done); try (intros (? & ? & ? & ?); done).
  intros _. eauto.
Qed.

(** ** Adopting a catalogue *)

(** What [storeCompetitions] leaves behind when both lists are
    processed. *)
Lemma storeCompetitions_spec (c : FetchedCompetitions) (w : World)
  (science gem : list Competition) :
  processCompetitions (fc_science c) "science" = Returns science ->
  processCompetitions (fc_gem c) "gem" = Returns gem ->
  exists w',
    storeCompetitions c w = (Returns tt, w')
    /\ store w' = store w ++ [science; gem; science ++ gem]
    /\ manager w'
       = mkManager (length (store w)) (S (length (store w)))
           (S (S (length (store w)))) (fc_errors c)
           (m_isLoading (manager w)) (m_isInitialized (manager w))
    /\ clock w' = clock w
    /\ GLOBAL_CACHE w' = GLOBAL_CACHE w
    /\ localStorage w' = localStorage w
    /\ storageWritable w' = storageWritable w
    /\ dataService w' = dataService w
    /\ requests w' = requests w.
Proof.
  intros Hs Hg. unfold storeCompetitions, lift, mbind, M_bind.
  rewrite Hs, !alloc_spec. unfold modify. rewrite Hg, !alloc_spec.
  unfold gets. cbn [id]. rewrite alloc_spec.
  eexists. split; [reflexivity|]. cbn.
  rewrite !length_app. cbn.
  replace (length (store w) + 1)%nat with (S (length (store w))) by lia.
  replace (S (length (store w)) + 1)%nat with (S (S (length (store w)))) by lia.
  split; [|done].
  rewrite <- !app_assoc. cbn.
  rewrite (elements_app_new (store w) [_]).
  unfold elements. rewrite lookup_app_r by lia.
  replace (S (length (store w)) - length (store w))%nat with 1%nat by lia.
  done.
Qed.

(** When the science list cannot be processed nothing is assigned; when
    the gem list cannot, the science collection has been replaced. *)
Lemma storeCompetitions_throws (c : FetchedCompetitions) (w : World) :
  sound c = false ->
  (storeCompetitions c w = (Throws (mkError ERR_NOT_A_FUNCTION), w))
  \/ (exists science,
        processCompetitions (fc_science c) "science" = Returns science
        /\ storeCompetitions c w
           = (Throws (mkError ERR_NOT_A_FUNCTION),
              set_science (length (store w))
                (set_store (store w ++ [science]) w))).
Proof.
  unfold sound, storeCompetitions, lift, mbind, M_bind.
  rewrite !processCompetitions_cases.
  destruct (forallb _ (fc_science c)); [|by left].
  destruct (forallb _ (fc_gem c)); [done|].
  intros _. right. eexists. split; [reflexivity|].
  rewrite alloc_spec. unfold modify. reflexivity.
Qed.

Lemma storeCompetitions_sound (c : FetchedCompetitions) (w w' : World) :
  storeCompetitions c w = (Returns tt, w') -> sound c = true.
Proof.
  intros H. destruct (sound c) eqn:E; [done|].
  destruct (storeCompetitions_throws c w E) as [H'|(? & _ & H')];
    rewrite H in H'; discriminate.
Qed.

Lemma internalCollections_stored (c : FetchedCompetitions) (w w' : World) :
  storeCompetitions c w = (Returns tt, w') ->
  exists science gem,
    processCompetitions (fc_science c) "science" = Returns science
    /\ processCompetitions (fc_gem c) "gem" = Returns gem
    /\ internalCollections w' = (science, gem, science ++ gem)
    /\ manager_wf w'.
Proof.
  intros H.
  destruct (proj1 (sound_processCompetitions c) (storeCompetitions_sound _ _ _ H))
    as (science & gem & Hs & Hg).
  exists science, gem. split; [done|]. split; [done|].
  destruct (storeCompetitions_spec c w _ _ Hs Hg) as (w1 & H1 & Hst & Hm & _).
  rewrite H in H1. injection H1 as <-.
  unfold internalCollections, manager_wf. rewrite Hst, Hm. cbn.
  split.
  - rewrite (elements_app_new (store w) [_; _]).
    unfold elements. rewrite !lookup_app_r by lia.
    replace (S (length (store w)) - length (store w))%nat with 1%nat by lia.
    replace (S (S (length (store w))) - length (store w))%nat with 2%nat by lia.
    done.
  - rewrite length_app. cbn. lia.
Qed.

Lemma holds_stored (c : FetchedCompetitions) (w w' : World) :
  storeCompetitions c w = (Returns tt, w') -> holds c w'.
Proof.
  intros Hs.
  destruct (internalCollections_stored _ _ _ Hs)
    as (science & gem & Hsci & Hgem & Hint & Hwf).
  exists science, gem. split; [done|]. split; [done|]. split; [done|].
  destruct (storeCompetitions_spec c w _ _ Hsci Hgem) as (w1 & Hs1 & _ & Hm & _).
  rewrite Hs in Hs1. injection Hs1 as <-.
  split; [by rewrite Hm | exact Hwf].
Qed.


(** Every competition in the manager's collections after a call of
    [storeCompetitions], whether it returned or threw, was there before or
    is the normal form of a record with a non-empty id and name. *)
Lemma storeCompetitions_collected (c : FetchedCompetitions) (w w' : World)
  (r : Completion unit) (x : Competition) :
  storeCompetitions c w = (r, w') ->
  collected w' x -> collected w x \/ fromValidRecord c x.
Proof.
  intros Hrun Hx.
  destruct (sound c) eqn:Esound.
  { apply sound_processCompetitions in Esound as (science & gem & Hs & Hg).
    destruct (storeCompetitions_spec c w _ _ Hs Hg) as (w1 & H & _).
    rewrite H in Hrun. injection Hrun as <- <-.
    destruct (internalCollections_stored _ _ _ H)
      as (science' & gem' & Hs' & Hg' & Hint & _).
    rewrite Hs in Hs'. rewrite Hg in Hg'.
    injection Hs' as <-. injection Hg' as <-.
    injection Hint as Hsci Hgem Hall. right.
    unfold collected in Hx. rewrite Hsci, Hgem, Hall in Hx.
    destruct Hx as [Hx|[Hx|Hx]].
    - by apply (processCompetitions_valid c (fc_science c) "science" science);
        [left|..].
    - by apply (processCompetitions_valid c (fc_gem c) "gem" gem); [right|..].
    - apply elem_of_app in Hx as [Hx|Hx].
      + by apply (processCompetitions_valid c (fc_science c) "science" science);
          [left|..].
      + by apply (processCompetitions_valid c (fc_gem c) "gem" gem); [right|..]. }
  destruct (storeCompetitions_throws c w Esound) as [H|(science & Hs & H)];
    rewrite H in Hrun; injection Hrun as <- <-.
  { by left. }
  assert (forall r x,
            x ∈ elements (store w ++ [science]) r ->
            x ∈ elements (store w) r \/ fromValidRecord c x) as Hel.
  { intros r0 y.
    destruct (decide (r0 < length (store w))%nat) as [Hlt|Hge].
    - rewrite elements_app_l by done. by left.
    - destruct (decide (r0 = length (store w))) as [->|Hne].
      + rewrite (elements_app_new (store w) []). intros Hy. right.
        apply (processCompetitions_valid c (fc_science c) "science" science);
          [by left|done..].
      + unfold elements. rewrite lookup_ge_None_2; [by intros ?%elem_of_nil|].
        rewrite length_app. cbn. lia. }
  unfold collected in *.
  cbn [store manager set_science set_store set_manager m_science m_gem m_all] in Hx.
  destruct Hx as [Hx|[Hx|Hx]].
  - rewrite (elements_app_new (store w) []) in Hx. right.
    apply (processCompetitions_valid c (fc_science c) "science" science);
      [by left|done..].
  - destruct (Hel _ _ Hx); auto.
  - destruct (Hel _ _ Hx); auto.
Qed.

(** Whether it returns or throws, [storeCompetitions] touches the manager
    and the store only.  It returns exactly for a sound catalogue, and the
    manager then holds it; otherwise it throws the [TypeError] of
    [validateCompetition], with the error slots as they were. *)
Lemma storeCompetitions_cases (c : FetchedCompetitions) (w : World) :
  exists r w',
    storeCompetitions c w = (r, w')
    /\ clock w' = clock w
    /\ GLOBAL_CACHE w' = GLOBAL_CACHE w
    /\ localStorage w' = localStorage w
    /\ storageWritable w' = storageWritable w
    /\ dataService w' = dataService w
    /\ requests w' = requests w
    /\ m_isLoading (manager w') = m_isLoading (manager w)
    /\ m_isInitialized (manager w') = m_isInitialized (manager w)
    /\ ((sound c = true /\ r = Returns tt /\ holds c w')
        \/ (sound c = false /\ r = Throws (mkError ERR_NOT_A_FUNCTION)
            /\ m_errors (manager w') = m_errors (manager w))).
Proof.
  destruct (sound c) eqn:Esound.
  - apply sound_processCompetitions in Esound as (science & gem & Hs & Hg).
    destruct (storeCompetitions_spec c w _ _ Hs Hg)
      as (w1 & H & _ & Hm & Hc & Hgc & Hl & Hsw & Hd & Hr).
    exists (Returns tt), w1. rewrite Hm. cbn.
    do 9 (split; [done|]). left. split; [done|]. split; [done|].
    by eapply holds_stored.
  - destruct (storeCompetitions_throws c w Esound) as [H|(science & Hs & H)];
      rewrite H; eexists _, _; (split; [reflexivity|]); cbn;
      do 8 (split; [done|]); by right.
Qed.

(** ** What the read accessors can hand out *)

Lemma getAllCompetitions_spec (w : World) :
  getAllCompetitions w
  = (Returns (length (store w)),
     set_store (store w ++ [elements (store w) (m_all (manager w))]) w).
Proof. done. Qed.

(** Whatever [getCompetitionsByCategory] returns is one of the manager's
    collections or empty. *)
Lemma getCompetitionsByCategory_collected (category : string) (w w2 : World)
  (r : ref) (x : Competition) :
  getCompetitionsByCategory category w = (Returns r, w2) ->
  x ∈ elements (store w2) r -> collected w x.
Proof.
  unfold getCompetitionsByCategory, collected.
  repeat match goal with
         | |- context [if ?b then _ else _] => destruct b
         end;
    unfold mbind, M_bind, gets; cbn [id]; rewrite ?alloc_spec;
    try (intros [= <- <-]; cbn [store set_store];
         rewrite (elements_app_new (store w) []); set_solver).
Qed.

Lemma getCompetitionById_collected (competitionId : string) (w w2 : World)
  (x : Competition) :
  getCompetitionById competitionId w = (Returns (Some x), w2) -> collected w x.
Proof.
  unfold getCompetitionById, collected.
  destruct (String.eqb competitionId ""); [done|].
  unfold mbind, M_bind, gets, mret, M_ret. cbn [id].
  intros [= Hfind <-]. apply find_some in Hfind as [Hin _].
  right. right. by apply list_elem_of_In.
Qed.

(** C5.  [validateCompetition] answers [false] exactly for the records
    lacking a non-empty id or a non-empty name (and throws for a record with
    an own property named [hasOwnProperty]).  The catalogue of the cache is
    adopted exactly when no record of it has such a property, and then
    every competition a read accessor hands out ([getAllCompetitions], any
    [getCompetitionsByCategory], [getCompetitionById]) is the normal form of
    a catalogue record with a non-empty id and a non-empty name, the full
    listing having one entry per such record.  When the adoption throws,
    every competition in the manager's collections was there before or is
    the normal form of such a record.  In every state, what the accessors
    hand out is taken from the manager's collections. *)
Theorem invalid_competitions_excluded (c : FetchedCompetitions)
  (res : JsMap (list RawRecord)) (stamp : option Z) (w0 : World)
  (category competitionId : string) (raw : RawRecord) :
  (shadowing raw = false ->
   (validateCompetition raw = Returns false <-> lacks raw "id" \/ lacks raw "name")
   /\ (validateCompetition raw = Returns true <->
       ~ lacks raw "id" /\ ~ lacks raw "name"))
  /\ (shadowing raw = true ->
      validateCompetition raw = Throws (mkError ERR_NOT_A_FUNCTION))
  /\ ((exists w1,
         loadFromGlobalCache
           (set_GLOBAL_CACHE (mkGlobalCache (Some c) res stamp true) w0)
         = (Returns tt, w1))
      <-> sound c = true)
  /\ (forall w1,
        loadFromGlobalCache
          (set_GLOBAL_CACHE (mkGlobalCache (Some c) res stamp true) w0)
        = (Returns tt, w1) ->
        (forall x, collected w1 x -> fromValidRecord c x)
        /\ (exists r w2,
              getAllCompetitions w1 = (Returns r, w2)
              /\ Forall (fromValidRecord c) (elements (store w2) r)
              /\ length (elements (store w2) r)
                 = (length (List.filter complete (fc_science c))
                    + length (List.filter complete (fc_gem c)))%nat)
        /\ match getCompetitionsByCategory category w1 with
           | (Returns r, w2) => Forall (fromValidRecord c) (elements (store w2) r)
           | (Throws _, _) => True
           end
        /\ match fst (getCompetitionById competitionId w1) with
           | Returns (Some x) => fromValidRecord c x
           | _ => True
           end)
  /\ (forall e w1,
        loadFromGlobalCache
          (set_GLOBAL_CACHE (mkGlobalCache (Some c) res stamp true) w0)
        = (Throws e, w1) ->
        e = mkError ERR_NOT_A_FUNCTION
        /\ forall x, collected w1 x -> collected w0 x \/ fromValidRecord c x)
  /\ (forall w r w2 x,
        (getAllCompetitions w = (Returns r, w2)
         \/ getCompetitionsByCategory category w = (Returns r, w2)) ->
        x ∈ elements (store w2) r -> collected w x)
  /\ (forall w w2 x,
        getCompetitionById competitionId w = (Returns (Some x), w2) ->
        collected w x).
Proof.
  set (W := set_GLOBAL_CACHE (mkGlobalCache (Some c) res stamp true) w0).
  assert (Hload : loadFromGlobalCache W = storeCompetitions c W) by done.
  rewrite Hload.
  split; [|split; [|split; [|split; [|split; [|split]]]]].
  - intros Hs. rewrite validateCompetition_cases, Hs. split.
    + split.
      * intros [= H]. apply not_true_iff_false in H.
        rewrite complete_lacks in H. unfold lacks in *.
        destruct (obj_get raw "id") as [[|?|?|[|? ?]]|],
                 (obj_get raw "name") as [[|?|?|[|? ?]]|]; tauto.
      * intros H. f_equal. apply not_true_iff_false.
        rewrite complete_lacks. tauto.
    + rewrite <- complete_lacks. split; [by intros [= ->] | by intros ->].
  - intros Hs. by rewrite validateCompetition_cases, Hs.
  - split.
    + intros [w1 H]. by eapply storeCompetitions_sound.
    + intros (science & gem & Hs & Hg)%sound_processCompetitions.
      destruct (storeCompetitions_spec c W _ _ Hs Hg) as (w1 & H & _). eauto.
  - intros w1 Hstore.
    destruct (internalCollections_stored _ _ _ Hstore)
      as (science & gem & Hs & Hg & Hint & Hwf).
    injection Hint as Hsci Hgem Hall.
    assert (Vsci : Forall (fromValidRecord c) science).
    { apply Forall_forall. intros x Hx.
      apply (processCompetitions_valid c (fc_science c) "science" science);
        [by left|done..]. }
    assert (Vgem : Forall (fromValidRecord c) gem).
    { apply Forall_forall. intros x Hx.
      apply (processCompetitions_valid c (fc_gem c) "gem" gem);
        [by right|done..]. }
    assert (Vall : Forall (fromValidRecord c) (science ++ gem))
      by (by apply Forall_app).
    split; [|split; [|split]].
    + unfold collected. rewrite Hsci, Hgem, Hall.
      rewrite Forall_forall in Vsci, Vgem, Vall. intros x [?|[?|?]]; auto.
    + eexists _, _. split; [reflexivity|]. cbn.
      rewrite (elements_app_new (store w1) []), Hall.
      split; [done|].
      by rewrite length_app, (processCompetitions_length _ _ _ Hs),
        (processCompetitions_length _ _ _ Hg).
    + unfold getCompetitionsByCategory.
      repeat match goal with
             | |- context [if ?b then _ else _] => destruct b
             end;
        unfold mbind, M_bind, gets; cbn;
        rewrite ?(elements_app_new (store w1) []), ?Hsci, ?Hgem, ?Hall;
        done.
    + unfold getCompetitionById.
      destruct (String.eqb competitionId ""); unfold mbind, M_bind, gets;
        cbn; [done|].
      rewrite Hall.
      destruct (List.find _ _) as [x|] eqn:Hfind; [|done].
      apply find_some in Hfind as [Hin _].
      apply (proj1 (Forall_forall _ _) Vall). by apply list_elem_of_In.
  - intros e w1 Hthrow. split.
    + destruct (storeCompetitions_cases c W)
        as (r & w' & Hrun & _ & _ & _ & _ & _ & _ & _ & _ & Hcase).
      rewrite Hrun in Hthrow.
      destruct Hcase as [(_ & -> & _)|(_ & -> & _)]; [discriminate|].
      by injection Hthrow as <- <-.
    + intros x Hx.
      by apply (storeCompetitions_collected c W w1 (Throws e)).
  - intros w r w2 x [H|H] Hx.
    + rewrite getAllCompetitions_spec in H. injection H as <- <-.
      cbn in Hx. rewrite (elements_app_new (store w) []) in Hx.
      right. by right.
    + by eapply getCompetitionsByCategory_collected.
  - intros w w2 x. apply getCompetitionById_collected.
Qed.

(** ** Read accessors hand out copies *)

Lemma applyOp_length (s : Store) (op : ref * ArrayOp) :
  length (applyOp s op) = length s.
Proof.
  unfold applyOp, Array_push, Array_pop.
  destruct (snd op); by rewrite length_insert.
Qed.

Lemma applyOp_other (s : Store) (op : ref * ArrayOp) (r : ref) :
  fst op <> r -> elements (applyOp s op) r = elements s r.
Proof.
  intros H. unfold applyOp, Array_push, Array_pop, elements.
  destruct (snd op); by rewrite list_lookup_insert_ne.
Qed.

(** Mutating arrays allocated at [n] or later leaves the arrays below [n]
    as they were. *)
Lemma mutate_frame (n : nat) (ops : list (ref * ArrayOp)) (s : Store) (r : ref) :
  Forall (fun op => (n <= fst op)%nat) ops -> (r < n)%nat ->
  elements (foldl applyOp s ops) r = elements s r
  /\ length (foldl applyOp s ops) = length s.
Proof.
  intros Hops Hr. revert s.
  induction Hops as [|op ops Hop _ IH]; intros s; simpl; [done|].
  destruct (IH (applyOp s op)) as [-> ->].
  split; [apply applyOp_other; lia | apply applyOp_length].
Qed.

Lemma mutate_internal (w1 : World) (n : nat) (ops : list (ref * ArrayOp)) :
  (m_science (manager w1) < n)%nat ->
  (m_gem (manager w1) < n)%nat ->
  (m_all (manager w1) < n)%nat ->
  Forall (fun op => (n <= fst op)%nat) ops ->
  internalCollections (mutate ops w1) = internalCollections w1
  /\ length (store (mutate ops w1)) = length (store w1).
Proof.
  intros Hs Hg Ha Hops. unfold internalCollections, mutate. simpl.
  destruct (mutate_frame n ops (store w1) _ Hops Hs) as [-> ->].
  destruct (mutate_frame n ops (store w1) _ Hops Hg) as [-> _].
  destruct (mutate_frame n ops (store w1) _ Hops Ha) as [-> _].
  done.
Qed.

Lemma internalCollections_alloc (w : World) (l : list (list Competition)) :
  manager_wf w ->
  internalCollections (set_store (store w ++ l) w) = internalCollections w.
Proof.
  intros (Hs & Hg & Ha). unfold internalCollections. simpl.
  by rewrite !elements_app_l.
Qed.

Lemma alloc_handsOutCopies (sel : World -> list Competition) (w : World) :
  manager_wf w ->
  (forall w', internalCollections w' = internalCollections w -> sel w' = sel w) ->
  handsOutCopies (w ← gets id; alloc (sel w)) (fun r => [r]) [sel w] w.
Proof.
  intros Hwf Hsel. unfold handsOutCopies.
  exists (length (store w)), (set_store (store w ++ [sel w]) w).
  split; [done|]. cbn [store set_store manager set_manager map].
  assert (Hint : internalCollections (set_store (store w ++ [sel w]) w)
                 = internalCollections w)
    by by apply internalCollections_alloc.
  split; [by rewrite (elements_app_new (store w) [])|].
  split; [apply NoDup_singleton|].
  split.
  { apply Forall_singleton. rewrite length_app. cbn.
    destruct Hwf as (? & ? & ?). lia. }
  split; [done|]. split; [by apply prefix_app_r|]. split; [done|].
  intros ops Hops.
  destruct (mutate_internal (set_store (store w ++ [sel w]) w)
              (length (store w)) ops) as [Hm Hlen].
  { cbn. apply Hwf. }
  { cbn. apply Hwf. }
  { cbn. apply Hwf. }
  { eapply Forall_impl; [exact Hops|]. cbn. intros op Hop.
    apply list_elem_of_singleton in Hop. lia. }
  rewrite Hm, Hint. split; [done|].
  eexists _, _. split; [reflexivity|]. cbn.
  rewrite (elements_app_new (foldl applyOp (store w ++ [sel w]) ops) []).
  f_equal. apply Hsel. fold (mutate ops (set_store (store w ++ [sel w]) w)).
  by rewrite Hm.
Qed.

Lemma getCompetitionsGrouped_spec (w : World) :
  getCompetitionsGrouped w
  = (Returns (mkGrouped (length (store w)) (S (length (store w)))
                (S (S (length (store w))))),
     set_store (store w
                ++ [ elements (store w) (m_science (manager w));
                     elements (store w) (m_gem (manager w));
                     elements (store w) (m_gem (manager w)) ]) w).
Proof.
  unfold getCompetitionsGrouped, mbind, M_bind, gets, alloc, mret, M_ret. simpl.
  rewrite !length_app, <- !app_assoc. simpl.
  replace (length (store w) + 1)%nat with (S (length (store w))) by lia.
  replace (S (length (store w)) + 1)%nat with (S (S (length (store w)))) by lia.
  done.
Qed.

Lemma elements_app_three (s : Store) (a b c : list Competition) :
  map (elements (s ++ [a; b; c])) [length s; S (length s); S (S (length s))]
  = [a; b; c].
Proof.
  simpl. rewrite (elements_app_new s [_; _]).
  unfold elements. rewrite !lookup_app_r by lia.
  replace (S (length s) - length s)%nat with 1%nat by lia.
  replace (S (S (length s)) - length s)%nat with 2%nat by lia.
  done.
Qed.

Lemma getCompetitionsGrouped_handsOutCopies (w : World) :
  manager_wf w ->
  handsOutCopies getCompetitionsGrouped
    (fun g => [grp_science g; grp_gem g; grp_academic g])
    [ elements (store w) (m_science (manager w));
      elements (store w) (m_gem (manager w));
      elements (store w) (m_gem (manager w)) ] w.
Proof.
  intros Hwf. unfold handsOutCopies.
  rewrite getCompetitionsGrouped_spec.
  set (sci := elements (store w) (m_science (manager w))).
  set (gem := elements (store w) (m_gem (manager w))).
  set (w1 := set_store (store w ++ [sci; gem; gem]) w).
  assert (Hint : internalCollections w1 = internalCollections w)
    by by apply internalCollections_alloc.
  eexists _, w1. split; [reflexivity|].
  cbn [grp_science grp_gem grp_academic].
  split; [apply elements_app_three|].
  split.
  { repeat (apply NoDup_cons; split; [set_unfold; lia|]). apply NoDup_nil_2. }
  split.
  { unfold w1. cbn [store set_store]. rewrite length_app. cbn.
    destruct Hwf as (? & ? & ?).
    repeat (apply Forall_cons; split; [lia|]). apply Forall_nil_2. }
  split; [done|]. split; [by apply prefix_app_r|]. split; [done|].
  intros ops Hops.
  destruct (mutate_internal w1 (length (store w)) ops) as [Hm Hlen];
    [apply Hwf..| |].
  { eapply Forall_impl; [exact Hops|]. cbn.
    intros op Hop. set_unfold in Hop. lia. }
  rewrite Hm, Hint. split; [done|].
  rewrite getCompetitionsGrouped_spec.
  eexists _, _. split; [reflexivity|].
  cbn [grp_science grp_gem grp_academic store set_store].
  rewrite !elements_app_three.
  rewrite Hint in Hm.
  pose proof (f_equal (fun t => fst (fst t)) Hm) as H1.
  pose proof (f_equal (fun t => snd (fst t)) Hm) as H2.
  cbn [fst snd internalCollections] in H1, H2.
  by rewrite H1, H2.
Qed.

Lemma toLowerCase_empty_named (name : string) :
  name <> "" -> trim (toLowerCase "") <> name.
Proof. intros H. by vm_compute. Qed.

(** C10.  In every state whose manager points into the store, the read
    accessors return copies.  [getAllCompetitions] returns a new array
    holding the full collection; [getCompetitionsGrouped] three new arrays
    holding the science collection, the gem collection and the gem
    collection again; [getCompetitionsByCategory] a new array holding the
    collection its category names (science; gem, also for academic; all),
    an empty one for a missing or unknown category, and it throws, changing
    nothing, for a category that names a member every object inherits.
    The arrays handed out are none of the manager's, the manager and its
    arrays are untouched, and after any pushes and pops on the arrays
    handed out the manager's collections are what they were and calling the
    accessor again returns the same contents as before. *)
Theorem accessors_return_copies (w : World) (category : string) :
  manager_wf w ->
  handsOutCopies getAllCompetitions (fun r => [r])
    [elements (store w) (m_all (manager w))] w
  /\ handsOutCopies getCompetitionsGrouped
       (fun g => [grp_science g; grp_gem g; grp_academic g])
       [ elements (store w) (m_science (manager w));
         elements (store w) (m_gem (manager w));
         elements (store w) (m_gem (manager w)) ] w
  /\ (trim (toLowerCase category) = "science" ->
      handsOutCopies (getCompetitionsByCategory category) (fun r => [r])
        [elements (store w) (m_science (manager w))] w)
  /\ (trim (toLowerCase category) = "gem"
      \/ trim (toLowerCase category) = "academic" ->
      handsOutCopies (getCompetitionsByCategory category) (fun r => [r])
        [elements (store w) (m_gem (manager w))] w)
  /\ (trim (toLowerCase category) = "all" ->
      handsOutCopies (getCompetitionsByCategory category) (fun r => [r])
        [elements (store w) (m_all (manager w))] w)
  /\ (category = ""
      \/ ((trim (toLowerCase category) ∉ ["science"; "gem"; "academic"; "all"])
          /\ inherited (trim (toLowerCase category)) = false) ->
      handsOutCopies (getCompetitionsByCategory category) (fun r => [r]) [[]] w)
  /\ (category <> "" -> inherited (trim (toLowerCase category)) = true ->
      exists e, getCompetitionsByCategory category w = (Throws e, w)).
Proof.
  intros Hwf.
  assert (Hall : handsOutCopies
                   (w ← gets id; alloc (elements (store w) (m_all (manager w))))
                   (fun r => [r]) [elements (store w) (m_all (manager w))] w).
  { apply (alloc_handsOutCopies (fun w => elements (store w) (m_all (manager w))));
      [done|]. intros w' H. by injection H. }
  assert (Hgem : handsOutCopies
                   (w ← gets id; alloc (elements (store w) (m_gem (manager w))))
                   (fun r => [r]) [elements (store w) (m_gem (manager w))] w).
  { apply (alloc_handsOutCopies (fun w => elements (store w) (m_gem (manager w))));
      [done|]. intros w' H. by injection H. }
  assert (Hsci : handsOutCopies
                   (w ← gets id; alloc (elements (store w) (m_science (manager w))))
                   (fun r => [r]) [elements (store w) (m_science (manager w))] w).
  { apply (alloc_handsOutCopies
             (fun w => elements (store w) (m_science (manager w))));
      [done|]. intros w' H. by injection H. }
  assert (Hnil : handsOutCopies (w ← gets id; alloc []) (fun r => [r]) [[]] w).
  { apply (alloc_handsOutCopies (fun _ => [])); done. }
  assert (Hnil' : handsOutCopies (alloc []) (fun r => [r]) [[]] w) by exact Hnil.
  split; [exact Hall|]. split; [by apply getCompetitionsGrouped_handsOutCopies|].
  unfold getCompetitionsByCategory.
  destruct (String.eqb_spec category "") as [->|Hne].
  { split; [intros H; by apply toLowerCase_empty_named in H|].
    split; [intros [H|H]; by apply toLowerCase_empty_named in H|].
    split; [intros H; by apply toLowerCase_empty_named in H|].
    split; [done|]. intros H. done. }
  set (n := trim (toLowerCase category)).
  split; [|split; [|split; [|split]]].
  - intros ->. exact Hsci.
  - intros [-> | ->]; exact Hgem.
  - intros ->. exact Hall.
  - intros [->|[Hn Hi]]; [done|]. rewrite Hi.
    destruct (String.eqb_spec n "academic") as [E|_]; [set_solver|].
    destruct (String.eqb_spec n "science") as [E|_]; [set_solver|].
    destruct (String.eqb_spec n "gem") as [E|_]; [set_solver|].
    destruct (String.eqb_spec n "all") as [E|_]; [set_solver|].
    exact Hnil.
  - intros _ Hi. rewrite Hi.
    destruct (String.eqb_spec n "academic") as [E|_];
      [rewrite E in Hi; discriminate|].
    destruct (String.eqb_spec n "science") as [E|_];
      [rewrite E in Hi; discriminate|].
    destruct (String.eqb_spec n "gem") as [E|_];
      [rewrite E in Hi; discriminate|].
    destruct (String.eqb_spec n "all") as [E|_];
      [rewrite E in Hi; discriminate|].
    eexists. reflexivity.
Qed.

Lemma accessors_return_copies_witness :
  handsOutCopies (getCompetitionsByCategory " Academic") (fun r => [r])
    [ [ normalizeCompetition
          [("id", JStr "g1"); ("name", JStr "Essay"); ("__orderIndex", JNum 0)] "gem";
        normalizeCompetition
          [("id", JStr "g2"); ("name", JStr "Drawing"); ("__orderIndex", JNum 1)]
          "gem" ] ]
    (snd (initialize sampleNetwork (freshWorld 1700000000000 ∅))).
Proof.
  assert (manager_wf (snd (initialize sampleNetwork (freshWorld 1700000000000 ∅))))
    as Hwf.
  { unfold manager_wf. vm_compute. lia. }
  replace [ [ normalizeCompetition
                [("id", JStr "g1"); ("name", JStr "Essay"); ("__orderIndex", JNum 0)]
                "gem";
              normalizeCompetition
                [("id", JStr "g2"); ("name", JStr "Drawing");
                 ("__orderIndex", JNum 1)] "gem" ] ]
    with [ elements (store (snd (initialize sampleNetwork
                                   (freshWorld 1700000000000 ∅))))
             (m_gem (manager (snd (initialize sampleNetwork
                                     (freshWorld 1700000000000 ∅))))) ]
    by (vm_compute; reflexivity).
  apply (proj1 (proj2 (proj2 (proj2
           (accessors_return_copies
              (snd (initialize sampleNetwork (freshWorld 1700000000000 ∅)))
              " Academic" Hwf))))).
  right. vm_compute. reflexivity.
Defined.

(** ** What the network steps leave alone *)

Lemma steady_refl (w : World) : steady w w.
Proof. unfold steady. repeat split; lia. Qed.

Lemma steady_trans (w1 w2 w3 : World) : steady w1 w2 -> steady w2 w3 -> steady w1 w3.
Proof.
  unfold steady. intros (?&?&?&?&?&?&?) (?&?&?&?&?&?&?).
  repeat split; try congruence; lia.
Qed.

Lemma preserves_bind {A B : Type} (m : M A) (k : A -> M B) :
  preserves steady m -> (forall a, preserves steady (k a)) ->
  preserves steady (m ≫= k).
Proof.
  intros Hm Hk w r w'. unfold mbind, M_bind.
  destruct (m w) as [[v|e] w1] eqn:E; intros H.
  - eapply steady_trans; [by eapply Hm | by eapply Hk].
  - injection H as <- <-. by eapply Hm.
Qed.

Lemma preserves_ret {A : Type} (v : A) : preserves steady (mret v).
Proof. intros w r w' [= <- <-]. apply steady_refl. Qed.

Lemma preserves_throw {A : Type} (e : Error) : preserves steady (@throw A e).
Proof. intros w r w' [= <- <-]. apply steady_refl. Qed.

Lemma preserves_gets {A : Type} (f : World -> A) : preserves steady (gets f).
Proof. intros w r w' [= <- <-]. apply steady_refl. Qed.

Lemma preserves_try_catch {A : Type} (m : M A) (h : Error -> M A) :
  preserves steady m -> (forall e, preserves steady (h e)) ->
  preserves steady (try_catch m h).
Proof.
  intros Hm Hh w r w'. unfold try_catch.
  destruct (m w) as [[v|e] w1] eqn:E; intros H.
  - injection H as <- <-. by eapply Hm.
  - eapply steady_trans; [by eapply Hm | by eapply Hh].
Qed.

Lemma preserves_settle {A : Type} (m : M A) :
  preserves steady m -> preserves steady (settle m).
Proof.
  intros Hm w r w'. unfold settle.
  destruct (m w) as [v w1] eqn:E. intros [= <- <-]. by eapply Hm.
Qed.

Lemma preserves_concurrently {A : Type} (t0 : Z) (m : M A) :
  preserves steady m -> preserves steady (concurrently t0 m).
Proof.
  intros Hm w r w'. unfold concurrently.
  destruct (m (set_clock t0 w)) as [v w1] eqn:E. intros [= <- <-].
  apply Hm in E. unfold steady in *. simpl in *.
  destruct E as (?&?&?&?&?&?&?). repeat split; try done. lia.
Qed.

Lemma preserves_simpleJSONP (net : Network) (req : Request) :
  preserves steady (simpleJSONP net req).
Proof.
  intros w r w'. unfold simpleJSONP.
  destruct (API_TIMEOUT <=? _).
  - intros [= <- <-]. unfold steady, API_TIMEOUT. simpl. repeat split; lia.
  - assert (steady w (set_clock (clock (set_requests (requests w ++ [req]) w)
                                 + Z.of_nat (latency (net req)))
                        (set_requests (requests w ++ [req]) w))) as Hs.
    { unfold steady. simpl. repeat split; lia. }
    destruct (reply (net req)) as [[response|]|]; [destruct (success response)|..];
      intros [= <- <-]; exact Hs.
Qed.

Lemma preserves_fetchAllCompetitions (net : Network) :
  preserves steady (fetchAllCompetitions net).
Proof.
  unfold fetchAllCompetitions, fetchScienceCompetitions, fetchGemCompetitions.
  repeat first
    [ apply preserves_try_catch | apply preserves_bind | apply preserves_gets
    | apply preserves_concurrently | apply preserves_settle
    | apply preserves_simpleJSONP | apply preserves_throw | apply preserves_ret
    | intros ? ].
Qed.

Lemma preserves_getFromCache (key : string) : preserves steady (getFromCache key).
Proof.
  intros w r w'. unfold getFromCache.
  destruct (ds_cache (dataService w) !! key) as [cached|].
  - destruct (_ <? _); intros [= <- <-]; [apply steady_refl|].
    unfold steady. simpl. repeat split; lia.
  - intros [= <- <-]. apply steady_refl.
Qed.

Lemma preserves_setCache (key : string) (d : list RawRecord) :
  preserves steady (setCache key d).
Proof.
  intros w r w' [= <- <-]. unfold steady. simpl. repeat split; lia.
Qed.

Lemma preserves_fetchResultsInternal (net : Network) (id category : option jsval) :
  preserves steady (fetchResultsInternal net id category).
Proof.
  unfold fetchResultsInternal.
  apply preserves_bind; [apply preserves_getFromCache|].
  intros [d|]; [apply preserves_ret|].
  repeat first
    [ apply preserves_try_catch | apply preserves_bind | apply preserves_setCache
    | apply preserves_simpleJSONP | apply preserves_throw | apply preserves_ret
    | intros ? ].
Qed.

(** ** Maps *)

Section MapFacts.
Context {V : Type}.
Implicit Types (m : JsMap V) (k : option jsval) (v : V).

Lemma map_get_replace m k v k' :
  map_get (map_replace k v m) k'
  = if decide (k = k')
    then (match map_get m k with Some _ => Some v | None => None end)
    else map_get m k'.
Proof.
  induction m as [|[k0 v0] m IH]; simpl.
  - by destruct (decide (k = k')).
  - destruct (decide (k0 = k)) as [->|Hne]; simpl.
    + destruct (decide (k = k')); done.
    + destruct (decide (k0 = k')) as [->|Hne'].
      * destruct (decide (k = k')); [congruence|done].
      * rewrite IH. done.
Qed.

Lemma map_get_app m m' k :
  map_get (m ++ m') k
  = match map_get m k with Some v => Some v | None => map_get m' k end.
Proof.
  induction m as [|[k0 v0] m IH]; simpl; [done|].
  by destruct (decide (k0 = k)).
Qed.

Lemma map_get_set m k v k' :
  map_get (map_set m k v) k' = if decide (k = k') then Some v else map_get m k'.
Proof.
  unfold map_set, map_has.
  destruct (map_get m k) as [v0|] eqn:E.
  - rewrite map_get_replace, E. done.
  - rewrite map_get_app. simpl.
    destruct (decide (k = k')) as [<-|Hne]; [by rewrite E|].
    by destruct (map_get m k').
Qed.

Lemma map_get_set_eq m k v : map_get (map_set m k v) k = Some v.
Proof. rewrite map_get_set. by destruct (decide (k = k)). Qed.

Lemma map_get_set_ne m k v k' : k <> k' -> map_get (map_set m k v) k' = map_get m k'.
Proof. intros H. rewrite map_get_set. by destruct (decide (k = k')). Qed.

End MapFacts.

(** ** The batch of result fetches *)

Lemma still_refl (w : World) : still w w.
Proof. done. Qed.

Lemma still_trans (w1 w2 w3 : World) : still w1 w2 -> still w2 w3 -> still w1 w3.
Proof.
  unfold still. intros (?&?&?&?&?&?) (?&?&?&?&?&?). repeat split; congruence.
Qed.

Lemma steady_still (w w' : World) : steady w w' <-> still w w' /\ clock w <= clock w'.
Proof. unfold steady, still. tauto. Qed.

Lemma getFromCache_cases (key : string) (w : World) :
  (exists entry,
      ds_cache (dataService w) !! key = Some entry
      /\ clock w - ce_timestamp entry < CACHE_TIMEOUT
      /\ getFromCache key w = (Returns (Some (ce_data entry)), w))
  \/ (exists w1,
        getFromCache key w = (Returns None, w1)
        /\ (forall entry, ds_cache (dataService w) !! key = Some entry ->
                          CACHE_TIMEOUT <= clock w - ce_timestamp entry)
        /\ still w w1
        /\ clock w1 = clock w
        /\ requests w1 = requests w
        /\ ds_cache (dataService w1) !! key = None
        /\ forall k, k <> key ->
             ds_cache (dataService w1) !! k = ds_cache (dataService w) !! k).
Proof.
  unfold getFromCache.
  destruct (ds_cache (dataService w) !! key) as [cached|] eqn:E.
  - destruct (Z.ltb_spec (clock w - ce_timestamp cached) CACHE_TIMEOUT).
    + left. by exists cached.
    + right. eexists. split; [reflexivity|].
      split; [by intros ? [= <-]|]. split; [done|]. split; [done|]. split; [done|].
      cbn. split; [apply lookup_delete_eq|].
      intros k Hk. by rewrite lookup_delete_ne.
  - right. exists w. split; [done|]. split; [done|]. done.
Qed.

Lemma preloadTask_resume_spec (a : JsMap (list RawRecord)) (comp : RawRecord)
  (fetched : M (list RawRecord)) (w : World) :
  preloadTask_resume a comp fetched w
  = (Returns
       match fst (fetched w) with
       | Returns results =>
           (map_set a (obj_get comp "id") results,
            mkReport (obj_get comp "id") true None)
       | Throws e =>
           (map_set a (obj_get comp "id") [],
            mkReport (obj_get comp "id") false (Some (message e)))
       end,
     snd (fetched w)).
Proof.
  unfold preloadTask_resume, try_catch, mbind, M_bind, mret, M_ret.
  by destruct (fetched w) as [[results|e] w1].
Qed.

Lemma fetchResultsInternal_resume_spec (id : option jsval)
  (reply : Completion (list RawRecord)) (w : World) :
  fetchResultsInternal_resume id reply w
  = match reply with
    | Returns results =>
        (Returns results,
         set_dataService
           (mkDataService
              (<["results_" +:+ String_of id := mkCacheEntry results (clock w)]>
                 (ds_cache (dataService w)))
              (ds_isPreloading (dataService w))) w)
    | Throws e =>
        (Throws (mkError ("ไม่สามารถโหลดผลการแข่งขัน " +:+ String_of id
                          +:+ " ได้: " +:+ message e)), w)
    end.
Proof.
  unfold fetchResultsInternal_resume, try_catch, mbind, M_bind, lift.
  by destruct reply.
Qed.

(** The two halves make the whole: a call of [fetchResultsInternal] that
    is awaited alone is its first half, the wait for the promise, and its
    second half. *)
Lemma fetchResultsInternal_halves (net : Network) (id category : option jsval)
  (w : World) :
  fetchResultsInternal net id category w
  = match fetchResultsInternal_begin net id category w with
    | (Returns (inl cached), w1) => (Returns cached, w1)
    | (Returns (inr (due, reply)), w1) =>
        fetchResultsInternal_resume id reply (set_clock due w1)
    | (Throws e, w1) => (Throws e, w1)
    end.
Proof.
  unfold fetchResultsInternal, fetchResultsInternal_begin, mbind, M_bind.
  destruct (getFromCache _ w) as [[[d|]|e] w1]; [done| |done].
  unfold sendJSONP, mret, M_ret. rewrite fetchResultsInternal_resume_spec.
  unfold try_catch, simpleJSONP, jsonpCompletion, mbind, M_bind, setCache, modify.
  cbn [clock set_requests set_clock requests].
  match goal with
  | |- context [API_TIMEOUT <=? ?x] => destruct (Z.leb_spec API_TIMEOUT x) as [Hle|Hgt]
  end.
  - rewrite Z.min_r by lia. reflexivity.
  - rewrite Z.min_l by lia.
    match goal with
    | |- context [reply ?ev] => destruct (reply ev) as [[response|]|]
    end; [|reflexivity..].
    destruct (success response); reflexivity.
Qed.

(** A task that starts either is served from the cache, and done, or has
    sent its request. *)
Lemma startTask_cases (net : Network) (comp : RawRecord) (index : nat)
  (a : JsMap (list RawRecord)) (r : list (nat * TaskReport)) (q : list Pending)
  (w : World) :
  (exists entry,
      ds_cache (dataService w) !! resultsKey comp = Some entry
      /\ clock w - ce_timestamp entry < CACHE_TIMEOUT
      /\ startTask net comp index (mkBatch a r q) w
         = (Returns
              (mkBatch (map_set a (obj_get comp "id") (ce_data entry))
                 (placeReport index (mkReport (obj_get comp "id") true None) r) q),
            w))
  \/ (exists w1,
        (forall entry, ds_cache (dataService w) !! resultsKey comp = Some entry ->
                       CACHE_TIMEOUT <= clock w - ce_timestamp entry)
        /\ still w w1
        /\ clock w1 = clock w
        /\ requests w1 = requests w ++ [resultsRequest comp]
        /\ ds_cache (dataService w1) !! resultsKey comp = None
        /\ (forall k, k <> resultsKey comp ->
              ds_cache (dataService w1) !! k = ds_cache (dataService w) !! k)
        /\ startTask net comp index (mkBatch a r q) w
           = (Returns
                (mkBatch a r
                   (enqueue
                      (mkPending index comp
                         (clock w + Z.min (Z.of_nat (latency (net (resultsRequest comp))))
                                      API_TIMEOUT)
                         (jsonpCompletion net (resultsRequest comp))) q)),
              w1)).
Proof.
  unfold startTask, fetchResultsInternal_begin, mbind, M_bind.
  fold (resultsKey comp).
  destruct (getFromCache_cases (resultsKey comp) w)
    as [(entry & He & Hf & ->)|(w1 & -> & Hexp & Hs & Hc & Hr & Hk & Hother)].
  - left. exists entry. split; [done|]. split; [done|].
    unfold mret, M_ret. cbn [b_allResults b_reports b_queue].
    by rewrite preloadTask_resume_spec.
  - right. exists (set_requests (requests w1 ++ [resultsRequest comp]) w1).
    split; [done|]. split; [done|]. split; [done|].
    split; [cbn; by rewrite Hr|]. split; [done|]. split; [done|].
    unfold sendJSONP, mret, M_ret. cbn [b_allResults b_reports b_queue].
    by rewrite Hc.
Qed.

(** When the reply arrives the task writes its entry and its report, and
    a successful reply is cached, stamped with the time it arrived. *)
Lemma settleTask_spec (p : Pending) (a : JsMap (list RawRecord))
  (r : list (nat * TaskReport)) (w : World) :
  settleTask p (a, r) w
  = (Returns
       (map_set a (obj_get (pd_comp p) "id") (entryFor (pd_reply p)),
        placeReport (pd_index p) (reportFor (pd_comp p) (pd_reply p)) r),
     match pd_reply p with
     | Returns results =>
         set_dataService
           (mkDataService
              (<[resultsKey (pd_comp p) := mkCacheEntry results (pd_due p)]>
                 (ds_cache (dataService w)))
              (ds_isPreloading (dataService w))) (set_clock (pd_due p) w)
     | Throws _ => set_clock (pd_due p) w
     end).
Proof.
  unfold settleTask, mbind, M_bind, modify.
  rewrite preloadTask_resume_spec, fetchResultsInternal_resume_spec.
  unfold mret, M_ret. by destruct (pd_reply p).
Qed.

Lemma enqueue_perm (p : Pending) (q : list Pending) : enqueue p q ≡ₚ p :: q.
Proof.
  induction q as [|x q IH]; cbn [enqueue]; [done|].
  destruct (pd_due p <? pd_due x); [done|].
  rewrite IH. apply Permutation_swap.
Qed.

Lemma placeReport_perm (i : nat) (x : TaskReport) (r : list (nat * TaskReport)) :
  placeReport i x r ≡ₚ (i, x) :: r.
Proof.
  induction r as [|y r IH]; cbn [placeReport]; [done|].
  destruct (i <? fst y)%nat; [done|].
  rewrite IH. apply Permutation_swap.
Qed.

Lemma filter_split_perm {A : Type} (f : A -> bool) (l : list A) :
  List.filter f l ++ List.filter (fun x => negb (f x)) l ≡ₚ l.
Proof.
  induction l as [|x l IH]; cbn; [done|].
  destruct (f x); cbn.
  - by rewrite IH.
  - rewrite <- Permutation_middle. by rewrite IH.
Qed.

(** *** Induction over the batch

    A property of the tasks started so far, the state, the map, the
    reports and the requests under way holds when the batch is over if it
    holds at the start and every piece of a task keeps it. *)
Section BatchInduction.

Variable net : Network.
Variable comps : list RawRecord.
Variable w0 : World.
Variable I : nat -> World -> JsMap (list RawRecord) -> list (nat * TaskReport)
             -> list Pending -> Prop.

Hypothesis I_perm : forall k w a r q q',
  q ≡ₚ q' -> I k w a r q -> I k w a r q'.

Hypothesis I_start : forall k comp w a r q b w',
  comps !! k = Some comp ->
  clock w = match k with O => clock w0 | S _ => clock w0 + 200 end ->
  I k w a r q ->
  startTask net comp k (mkBatch a r q) w = (Returns b, w') ->
  I (S k) w' (b_allResults b) (b_reports b) (b_queue b).

Hypothesis I_settle : forall k p w a r q a' r' w',
  I k w a r (p :: q) ->
  settleTask p (a, r) w = (Returns (a', r'), w') ->
  I k w' a' r' q.

Hypothesis I_timer : forall w a r q,
  I 1%nat w a r q ->
  (forall p, p ∈ q -> clock w0 + 200 < pd_due p) ->
  I 1%nat (set_clock (clock w0 + 200) w) a r q.

Lemma settleTasks_ind (l : list Pending) :
  forall k w a r q,
    I k w a r (l ++ q) ->
    exists a' r' w',
      settleTasks l (a, r) w = (Returns (a', r'), w') /\ I k w' a' r' q.
Proof.
  induction l as [|p l IH]; intros k w a r q HI.
  - by exists a, r, w.
  - cbn [settleTasks]. unfold mbind, M_bind.
    pose proof (settleTask_spec p a r w) as Hs.
    destruct (settleTask p (a, r) w) as [[[a1 r1]|e] w1] eqn:E; [|done].
    apply (IH k w1 a1 r1 q). by eapply I_settle.
Qed.

Lemma startTask_returns (comp : RawRecord) (k : nat) (b : Batch) (w : World) :
  exists b' w',
    startTask net comp k b w = (Returns b', w') /\ clock w' = clock w.
Proof.
  destruct b as [a r q].
  destruct (startTask_cases net comp k a r q w)
    as [(entry & _ & _ & ->)|(w1 & _ & _ & Hc & _ & _ & _ & ->)]; eauto.
Qed.

Lemma startTasks_ind (cs : list RawRecord) :
  forall k w a r q,
    (forall j c, cs !! j = Some c -> comps !! (S k + j)%nat = Some c) ->
    clock w = clock w0 + 200 ->
    I (S k) w a r q ->
    exists b w',
      startTasks net cs (S k) (mkBatch a r q) w = (Returns b, w')
      /\ I (S k + length cs)%nat w' (b_allResults b) (b_reports b) (b_queue b).
Proof.
  induction cs as [|c cs IH]; intros k w a r q Hcs Hc HI.
  - exists (mkBatch a r q), w. split; [done|]. by rewrite Nat.add_0_r.
  - cbn [startTasks]. unfold mbind, M_bind.
    destruct (startTask_returns c (S k) (mkBatch a r q) w) as (b1 & w1 & Hs & Hc1).
    rewrite Hs. destruct b1 as [a1 r1 q1].
    destruct (IH (S k) w1 a1 r1 q1) as (b & w' & Hrun & HI').
    + intros j c' Hj. replace (S (S k) + j)%nat with (S k + S j)%nat by lia.
      by apply Hcs.
    + congruence.
    + apply (I_start (S k) c w a r q (mkBatch a1 r1 q1) w1); try done.
      rewrite <- (Nat.add_0_r (S k)). by apply Hcs.
    + exists b, w'. split; [done|].
      cbn [length]. by replace (S k + S (length cs))%nat
                         with (S (S k) + length cs)%nat by lia.
Qed.

Lemma finish_ind (k : nat) (b : Batch) (w : World) :
  I k w (b_allResults b) (b_reports b) (b_queue b) ->
  exists a r w',
    ('(allResults, reports) ←
        settleTasks (b_queue b) (b_allResults b, b_reports b);
     mret (allResults, map snd reports)) w
    = (Returns (a, map snd r), w')
    /\ I k w' a r [].
Proof.
  intros HI.
  destruct (settleTasks_ind (b_queue b) k w (b_allResults b) (b_reports b) [])
    as (a4 & r4 & w4 & Hrun & H4).
  { by rewrite app_nil_r. }
  unfold mbind, M_bind. rewrite Hrun.
  by exists a4, r4, w4.
Qed.

Theorem preloadTasks_ind :
  I 0%nat w0 [] [] [] ->
  exists a r w',
    preloadTasks net comps w0 = (Returns (a, map snd r), w')
    /\ I (length comps) w' a r [].
Proof.
  intros H0.
  assert (comps = [] \/ exists first others, comps = first :: others)
    as [Ecomps|(first & others & Ecomps)] by (destruct comps; eauto).
  { rewrite Ecomps. by exists [], [], w0. }
  rewrite Ecomps. unfold preloadTasks.
  unfold mbind at 1, M_bind at 1, gets at 1.
  unfold mbind at 1, M_bind at 1.
  destruct (startTask_returns first 0 (mkBatch [] [] []) w0)
    as ([a1 r1 q1] & w1 & Hs & Hc1).
  rewrite Hs.
  assert (I 1%nat w1 a1 r1 q1) as H1.
  { apply (I_start 0%nat first w0 [] [] [] (mkBatch a1 r1 q1) w1);
      [by rewrite Ecomps|done..]. }
  destruct others as [|second others'] eqn:Eothers.
  { unfold mbind at 1, M_bind at 1, mret at 1, M_ret at 1.
    by apply (finish_ind 1%nat (mkBatch a1 r1 q1) w1). }
  rewrite <- Eothers in *.
  cbn [b_allResults b_reports b_queue].
  unfold mbind at 1, M_bind at 1.
  unfold mbind at 1, M_bind at 1.
  destruct (settleTasks_ind
              (List.filter (fun p => pd_due p <=? clock w0 + 200) q1)
              1%nat w1 a1 r1
              (List.filter (fun p => negb (pd_due p <=? clock w0 + 200)) q1))
    as (a2 & r2 & w2 & -> & H2).
  { eapply I_perm; [|exact H1]. symmetry. apply filter_split_perm. }
  unfold mbind at 1, M_bind at 1, modify at 1.
  destruct (startTasks_ind others 0%nat (set_clock (clock w0 + 200) w2) a2 r2
              (List.filter (fun p => negb (pd_due p <=? clock w0 + 200)) q1))
    as (b3 & w3 & -> & H3).
  - intros j c Hj. by rewrite Ecomps.
  - done.
  - apply I_timer; [done|].
    intros p Hp%list_elem_of_In%filter_In. destruct Hp as [_ Hp].
    apply negb_true_iff, Z.leb_gt in Hp. lia.
  - by apply (finish_ind (1 + length others)%nat b3 w3).
Qed.

End BatchInduction.

(** The batch always completes.  It touches only the clock, the request
    log and [DataService.cache]; it is over at most 200 ms and one timeout
    after it began; and it sends at most one request per competition. *)
Lemma preloadTasks_frame (net : Network) (comps : list RawRecord) (w : World) :
  exists allResults reports w',
    preloadTasks net comps w = (Returns (allResults, reports), w')
    /\ still w w'
    /\ clock w <= clock w' <= clock w + (200 + API_TIMEOUT)
    /\ exists sent,
         requests w' = requests w ++ sent /\ (length sent <= length comps)%nat.
Proof.
  destruct (preloadTasks_ind net comps w
              (fun k w' a r q =>
                 still w w'
                 /\ clock w <= clock w' <= clock w + (200 + API_TIMEOUT)
                 /\ (forall p, p ∈ q ->
                       clock w <= pd_due p <= clock w + (200 + API_TIMEOUT))
                 /\ exists sent,
                      requests w' = requests w ++ sent /\ (length sent <= k)%nat))
    as (a & r & w' & Hrun & Hs & Hc & _ & Hr).
  - intros k w1 a r q q' Hperm (Hs & Hc & Hq & Hr).
    split; [done|]. split; [done|]. split; [|done].
    intros p Hp. apply Hq. by rewrite Hperm.
  - intros k comp w1 a r q b w2 _ Hclock (Hs & Hc & Hq & sent & Hr & Hlen).
    destruct (startTask_cases net comp k a r q w1)
      as [(entry & _ & _ & ->)|(w3 & _ & Hs3 & Hc3 & Hr3 & _ & _ & ->)];
      intros [= <- <-]; cbn [b_allResults b_reports b_queue].
    + split; [done|]. split; [done|]. split; [done|].
      exists sent. split; [done|]. lia.
    + split; [by eapply still_trans|]. split; [by rewrite Hc3|].
      split.
      * intros p Hp. rewrite enqueue_perm in Hp.
        apply elem_of_cons in Hp as [->|Hp]; [|by apply Hq].
        cbn [pd_due]. unfold API_TIMEOUT in *. destruct k; lia.
      * exists (sent ++ [resultsRequest comp]).
        rewrite Hr3, Hr, <- app_assoc. split; [done|].
        rewrite length_app. cbn. lia.
  - intros k p w1 a r q a' r' w2 (Hs & Hc & Hq & Hr).
    rewrite settleTask_spec. intros [= <- <- <-].
    assert (clock w <= pd_due p <= clock w + (200 + API_TIMEOUT)) as Hp
      by (apply Hq; left).
    split; [by destruct (pd_reply p)|].
    split; [by destruct (pd_reply p)|].
    split; [intros p' Hp'; apply Hq; by right|].
    by destruct (pd_reply p).
  - intros w1 a r q (Hs & Hc & Hq & Hr) _.
    split; [done|]. split; [|done]. cbn. unfold API_TIMEOUT. lia.
  - split; [done|]. split; [unfold API_TIMEOUT; lia|].
    split; [by intros p ?%elem_of_nil|]. exists []. by rewrite app_nil_r.
  - exists a, (map snd r), w'. done.
Qed.

Lemma seq_StronglySorted (a n : nat) : StronglySorted lt (seq a n).
Proof.
  revert a. induction n as [|n IH]; intros a; cbn; constructor; [apply IH|].
  apply Forall_forall. intros x Hx%elem_of_seq. lia.
Qed.

Lemma sorted_perm_seq (l : list nat) (n : nat) :
  StronglySorted lt l -> l ≡ₚ seq 0 n -> l = seq 0 n.
Proof.
  intros Hs Hp.
  assert (AntiSymm eq lt) as Hanti by (intros x y ? ?; lia).
  apply (StronglySorted_unique lt); [done|apply seq_StronglySorted|done].
Qed.

Lemma placeReport_elem (i : nat) (x : TaskReport) (r : list (nat * TaskReport))
  (y : nat * TaskReport) :
  y ∈ placeReport i x r <-> y = (i, x) \/ y ∈ r.
Proof. rewrite placeReport_perm. apply elem_of_cons. Qed.

Lemma enqueue_elem (p : Pending) (q : list Pending) (x : Pending) :
  x ∈ enqueue p q <-> x = p \/ x ∈ q.
Proof. rewrite enqueue_perm. apply elem_of_cons. Qed.

Lemma placeReport_sorted (i : nat) (x : TaskReport) (r : list (nat * TaskReport)) :
  StronglySorted lt (map fst r) -> i ∉ map fst r ->
  StronglySorted lt (map fst (placeReport i x r)).
Proof.
  induction r as [|y r IH]; cbn [placeReport map]; intros Hs Hi.
  { repeat constructor. }
  apply StronglySorted_inv in Hs as [Hs Hy].
  apply not_elem_of_cons in Hi as [Hne Hi].
  destruct (Nat.ltb_spec i (fst y)) as [Hlt|Hge]; cbn [map fst].
  - constructor; [by constructor|].
    constructor; [done|].
    eapply Forall_impl; [exact Hy|]. cbn. lia.
  - constructor; [by apply IH|].
    apply Forall_forall. intros z Hz.
    assert (map fst (placeReport i x r) ≡ₚ i :: map fst r) as Hp
      by (by rewrite placeReport_perm).
    rewrite Hp in Hz.
    apply elem_of_cons in Hz as [->|Hz]; [lia|].
    by apply (proj1 (Forall_forall _ _) Hy).
Qed.

Lemma map_lookup {A B : Type} (f : A -> B) (l : list A) (i : nat) :
  map f l !! i = f <$> l !! i.
Proof. revert i. induction l as [|x l IH]; intros [|i]; cbn; auto. Qed.

Lemma reports_lookup (r : list (nat * TaskReport)) (n i : nat) (x : TaskReport) :
  map fst r = seq 0 n -> (i, x) ∈ r -> map snd r !! i = Some x.
Proof.
  intros Hf Hin. apply list_elem_of_lookup in Hin as [j Hj].
  assert (map fst r !! j = Some i) as Hi by (by rewrite map_lookup, Hj).
  rewrite Hf in Hi. apply lookup_seq in Hi as [Hi _]. cbn in Hi. subst i.
  by rewrite map_lookup, Hj.
Qed.

Lemma resultsKey_inj (comp other : RawRecord) :
  resultsKey other = resultsKey comp ->
  String_of (obj_get other "id") = String_of (obj_get comp "id").
Proof. unfold resultsKey. cbn. by intros [= H]. Qed.

(** What the batch leaves.  There is one report per competition, in the
    order of the competitions.  For a competition that shares the text of
    its id with no other one and has no usable entry in the cache when the
    batch begins, the entry in the map and the report are those of its own
    request. *)
Lemma preloadTasks_outcome (net : Network) (comps : list RawRecord) (w : World) :
  exists allResults reports w',
    preloadTasks net comps w = (Returns (allResults, reports), w')
    /\ length reports = length comps
    /\ map tr_id reports = idsOf comps
    /\ forall i comp,
         comps !! i = Some comp ->
         ~ usable (resultsKey comp) w ->
         idUnshared comps i ->
         map_get allResults (obj_get comp "id")
         = Some (entryFor (jsonpCompletion net (resultsRequest comp)))
         /\ reports !! i
            = Some (reportFor comp (jsonpCompletion net (resultsRequest comp))).
Proof.
  destruct (preloadTasks_ind net comps w
    (fun k w' a r q =>
       StronglySorted lt (map fst r)
       /\ map fst r ++ map pd_index q ≡ₚ seq 0 k
       /\ (forall i rep, (i, rep) ∈ r ->
             exists comp, comps !! i = Some comp /\ tr_id rep = obj_get comp "id")
       /\ (forall p, p ∈ q ->
             comps !! pd_index p = Some (pd_comp p)
             /\ pd_reply p = jsonpCompletion net (resultsRequest (pd_comp p))
             /\ clock w <= pd_due p)
       /\ clock w <= clock w'
       /\ (forall i comp,
             comps !! i = Some comp ->
             ~ usable (resultsKey comp) w ->
             idUnshared comps i ->
             ((k <= i)%nat ->
              forall entry,
                ds_cache (dataService w') !! resultsKey comp = Some entry ->
                CACHE_TIMEOUT <= clock w - ce_timestamp entry)
             /\ ((i < k)%nat ->
                 (exists p, p ∈ q /\ pd_index p = i)
                 \/ (map_get a (obj_get comp "id")
                     = Some (entryFor (jsonpCompletion net (resultsRequest comp)))
                     /\ (i, reportFor comp
                               (jsonpCompletion net (resultsRequest comp))) ∈ r)))))
    as (a & r & w' & Hrun & Hsorted & Hperm & Hrep & _ & _ & Htarget).
  - (* the order of the requests under way does not matter *)
    intros k w1 a r q q' Hqq (H1 & H2 & H3 & H4 & H5 & H6).
    split; [done|]. split; [by rewrite <- Hqq|]. split; [done|].
    split; [intros p Hp; apply H4; by rewrite Hqq|]. split; [done|].
    intros i comp Hi Hu Hn. destruct (H6 i comp Hi Hu Hn) as [Ha Hb].
    split; [done|]. intros Hlt.
    destruct (Hb Hlt) as [(p & Hp & Hpi)|Hd]; [left|by right].
    exists p. split; [by rewrite <- Hqq|done].
  - (* a task starts *)
    intros k compk w1 a r q b w2 Hk _ (H1 & H2 & H3 & H4 & H5 & H6) Hstart.
    assert (forall x, x ∈ map fst r ++ map pd_index q -> (x < k)%nat) as Hbelow.
    { intros x Hx. rewrite H2 in Hx. apply elem_of_seq in Hx. lia. }
    assert (k ∉ map fst r) as Hfresh.
    { intros Hin. assert (k < k)%nat; [|lia].
      apply Hbelow, elem_of_app. by left. }
    assert (forall i comp, comps !! i = Some comp -> idUnshared comps i -> i <> k ->
              resultsKey comp <> resultsKey compk
              /\ obj_get compk "id" <> obj_get comp "id") as Hdiff.
    { intros i comp Hi Hn Hne.
      assert (String_of (obj_get compk "id") <> String_of (obj_get comp "id"))
        as Hs by (apply (Hn k comp compk); auto).
      split; [intros E; symmetry in E; by apply resultsKey_inj in E|].
      intros E. by rewrite E in Hs. }
    destruct (startTask_cases net compk k a r q w1)
      as [(entry & He & Hf & Heq)|(w3 & Hexp & Hs3 & Hc3 & Hr3 & Hk3 & Ho3 & Heq)];
      rewrite Heq in Hstart; injection Hstart as <- <-;
      cbn [b_allResults b_reports b_queue].
    + split; [by apply placeReport_sorted|].
      split.
      { rewrite placeReport_perm. cbn [map fst app].
        rewrite H2, seq_S. cbn. apply Permutation_cons_append. }
      split.
      { intros i rep [[= -> ->]|Hin]%placeReport_elem; [by exists compk|auto]. }
      split; [done|]. split; [done|].
      intros i comp Hi Hu Hn. destruct (H6 i comp Hi Hu Hn) as [Ha Hb].
      split; [intros Hle; apply Ha; lia|].
      intros Hlt. destruct (decide (i = k)) as [->|Hne].
      { assert (comp = compk) as -> by congruence.
        specialize (Ha (Nat.le_refl k) entry He). lia. }
      destruct (Hb ltac:(lia)) as [Hp|[Hm Hin]]; [by left|right].
      destruct (Hdiff i comp Hi Hn Hne) as [_ Hid].
      split; [by rewrite map_get_set_ne|].
      apply placeReport_elem. by right.
    + split; [done|].
      split.
      { assert (map pd_index
                  (enqueue
                     (mkPending k compk
                        (clock w1
                         + Z.min (Z.of_nat (latency (net (resultsRequest compk))))
                             API_TIMEOUT)
                        (jsonpCompletion net (resultsRequest compk))) q)
                ≡ₚ k :: map pd_index q) as -> by (by rewrite enqueue_perm).
        rewrite <- Permutation_middle, H2, seq_S. apply Permutation_cons_append. }
      split; [done|].
      split.
      { intros p [->|Hp]%enqueue_elem; [|by apply H4].
        cbn [pd_index pd_comp pd_reply pd_due].
        split; [done|]. split; [done|]. unfold API_TIMEOUT. lia. }
      split; [lia|].
      intros i comp Hi Hu Hn. destruct (H6 i comp Hi Hu Hn) as [Ha Hb].
      split.
      { intros Hle entry. destruct (Hdiff i comp Hi Hn ltac:(lia)) as [Hkey _].
        rewrite Ho3 by done. apply Ha. lia. }
      intros Hlt. destruct (decide (i = k)) as [->|Hne].
      { left. eexists. split; [apply enqueue_elem; by left|done]. }
      destruct (Hb ltac:(lia)) as [(p & Hp & Hpi)|Hd]; [left|by right].
      exists p. split; [apply enqueue_elem; by right|done].
  - (* a reply arrives *)
    intros k p w1 a r q a' r' w2 (H1 & H2 & H3 & H4 & H5 & H6).
    rewrite settleTask_spec. intros [= <- <- <-].
    destruct (H4 p ltac:(left)) as (Hpc & Hpr & Hpd).
    assert (NoDup (map fst r ++ map pd_index (p :: q))) as Hnd
      by (rewrite H2; apply NoDup_seq).
    assert (pd_index p ∉ map fst r) as Hfresh.
    { apply NoDup_app in Hnd as (_ & Hnd & _). intros Hin.
      apply (Hnd _ Hin). cbn. left. }
    assert (pd_index p < k)%nat as Hbelow.
    { assert (pd_index p ∈ seq 0 k) as Hin; [|apply elem_of_seq in Hin; lia].
      rewrite <- H2. apply elem_of_app. right. cbn. left. }
    assert (forall i comp, comps !! i = Some comp -> idUnshared comps i ->
              i <> pd_index p ->
              resultsKey comp <> resultsKey (pd_comp p)
              /\ obj_get (pd_comp p) "id" <> obj_get comp "id") as Hdiff.
    { intros i comp Hi Hn Hne.
      assert (String_of (obj_get (pd_comp p) "id") <> String_of (obj_get comp "id"))
        as Hs by (apply (Hn (pd_index p) comp (pd_comp p)); auto).
      split; [intros E; symmetry in E; by apply resultsKey_inj in E|].
      intros E. by rewrite E in Hs. }
    split; [by apply placeReport_sorted|].
    split.
    { rewrite placeReport_perm. cbn [map fst app].
      rewrite <- H2. cbn [map]. apply Permutation_middle. }
    split.
    { intros i rep [[= -> ->]|Hin]%placeReport_elem; [|auto].
      exists (pd_comp p). split; [done|]. by destruct (pd_reply p). }
    split; [intros p' Hp'; apply H4; by right|].
    split; [by destruct (pd_reply p)|].
    intros i comp Hi Hu Hn. destruct (H6 i comp Hi Hu Hn) as [Ha Hb].
    split.
    { intros Hle entry. destruct (Hdiff i comp Hi Hn ltac:(lia)) as [Hkey _].
      destruct (pd_reply p); cbn [dataService set_dataService ds_cache set_clock];
        [rewrite lookup_insert_ne by done|]; by apply Ha. }
    intros Hlt.
    destruct (decide (i = pd_index p)) as [->|Hne].
    { right. assert (pd_comp p = comp) as <- by congruence.
      rewrite <- Hpr. split; [apply map_get_set_eq|].
      apply placeReport_elem. by left. }
    destruct (Hb Hlt) as [(p' & Hp' & Hpi)|[Hm Hin]].
    + left. exists p'. split; [|done].
      apply elem_of_cons in Hp' as [->|Hp']; [done|done].
    + right. destruct (Hdiff i comp Hi Hn Hne) as [_ Hid].
      split; [by rewrite map_get_set_ne|].
      apply placeReport_elem. by right.
  - (* the timers fire *)
    intros w1 a r q (H1 & H2 & H3 & H4 & H5 & H6) _.
    split; [done|]. split; [done|]. split; [done|]. split; [done|].
    split; [cbn; lia|]. exact H6.
  - (* at the start *)
    split; [constructor|]. split; [done|].
    split; [by intros i rep ?%elem_of_nil|].
    split; [by intros p ?%elem_of_nil|]. split; [lia|].
    intros i comp Hi Hu Hn. split; [|lia].
    intros _ entry He.
    destruct (Z.lt_ge_cases (clock w - ce_timestamp entry) CACHE_TIMEOUT);
      [|done].
    destruct Hu. by exists entry.
  - rewrite app_nil_r in Hperm.
    pose proof (sorted_perm_seq _ _ Hsorted Hperm) as Hfst.
    exists a, (map snd r), w'. split; [done|].
    assert (length r = length comps) as Hlen.
    { rewrite <- (length_map fst r), Hfst. apply length_seq. }
    split; [by rewrite length_map|].
    split.
    { apply list_eq. intros j. unfold idsOf. rewrite !map_lookup.
      destruct (r !! j) as [[i rep]|] eqn:Ej.
      - assert (map fst r !! j = Some i) as Hi by (by rewrite map_lookup, Ej).
        rewrite Hfst in Hi. apply lookup_seq in Hi as [Hi _]. cbn in Hi. subst i.
        destruct (Hrep j rep) as (comp & Hc & Hid);
          [apply list_elem_of_lookup; eauto|].
        unfold RawRecord in *. rewrite Hc. cbn. by rewrite Hid.
      - apply lookup_ge_None in Ej. rewrite Hlen in Ej.
        apply (lookup_ge_None comps j) in Ej.
        unfold RawRecord in *. by rewrite Ej. }
    intros i comp Hi Hu Hn.
    destruct (Htarget i comp Hi Hu Hn) as [_ Hb].
    destruct Hb as [(p & Hp & _)|[Hm Hin]].
    + by apply lookup_lt_Some in Hi.
    + by apply elem_of_nil in Hp.
    + split; [done|]. by eapply reports_lookup.
Qed.

(** ** The bulk preload *)

Lemma saveToLocalStorage_spec (w : World) :
  saveToLocalStorage w
  = (Returns tt,
     if storageWritable w
     then set_localStorage
            (<[VERSION_KEY := Text APP_VERSION]>
               (<[PERSIST_KEY :=
                    JSON_stringify
                      (mkCacheData (gc_competitions (GLOBAL_CACHE w))
                         (Object_fromEntries (gc_results (GLOBAL_CACHE w)))
                         (gc_lastUpdated (GLOBAL_CACHE w)) APP_VERSION)]>
                  (localStorage w))) w
     else w).
Proof.
  unfold saveToLocalStorage, try_catch, mbind, M_bind, gets, setItem, mret, M_ret.
  destruct w as [? ? ? [] ? ? ? ?]; reflexivity.
Qed.

(** What [DataService.preloadAllData] does when no preload is running. *)
Lemma DataService_preloadAllData_spec (net : Network) (w : World) :
  ds_isPreloading (dataService w) = false ->
  exists competitions w0,
    fetchAllCompetitions net (set_isPreloading true w) = (Returns competitions, w0)
    /\ steady (set_isPreloading true w) w0
    /\ ((fc_science competitions = [] /\ fc_gem competitions = []
         /\ DataService_preloadAllData net w
            = (Throws (mkError "No competitions data loaded"),
               set_isPreloading false w0))
        \/ (fc_science competitions ++ fc_gem competitions <> []
            /\ exists allResults reports w1,
                 preloadTasks net
                   (fc_science competitions ++ fc_gem competitions) w0
                 = (Returns (allResults, reports), w1)
                 /\ steady w0 w1
                 /\ DataService_preloadAllData net w
                    = (Returns
                         (Preloaded competitions allResults
                            (mkSummary
                               (length (fc_science competitions ++ fc_gem competitions))
                               (length (List.filter tr_success reports))
                               (length (fc_science competitions ++ fc_gem competitions)
                                - length (List.filter tr_success reports)))),
                       set_isPreloading false
                         (snd (saveToLocalStorage
                                 (set_GLOBAL_CACHE
                                    (mkGlobalCache (Some competitions) allResults
                                       (Some (clock w1)) true) w1)))))).
Proof.
  intros Hpre.
  destruct (fetchAllCompetitions_returns net (set_isPreloading true w)) as [w0 Hf].
  eexists _, w0. split; [exact Hf|].
  split; [by eapply preserves_fetchAllCompetitions|].
  set (competitions := collectSettled _ _) in *.
  destruct (bool_decide (fc_science competitions = [])
            && bool_decide (fc_gem competitions = [])) eqn:Eempty.
  - left. apply andb_true_iff in Eempty as [Es Eg].
    apply bool_decide_eq_true in Es, Eg.
    split; [done|]. split; [done|].
    unfold DataService_preloadAllData. rewrite Hpre.
    unfold finally, try_catch, mbind, M_bind, modify. rewrite Hf.
    rewrite Es, Eg. reflexivity.
  - right.
    assert (fc_science competitions ++ fc_gem competitions <> []) as Hne.
    { intros [Es Eg]%app_eq_nil. rewrite Es, Eg in Eempty. done. }
    split; [done|].
    destruct (preloadTasks_frame net
                (fc_science competitions ++ fc_gem competitions) w0)
      as (final & reports & w1 & Ht & Hs & Hc & _).
    eexists final, reports, w1. split; [exact Ht|].
    split; [apply steady_still; split; [done|lia]|].
    unfold DataService_preloadAllData. rewrite Hpre.
    unfold finally, try_catch, mbind, M_bind, modify, gets. rewrite Hf.
    rewrite Eempty, Ht.
    rewrite saveToLocalStorage_spec. reflexivity.
Qed.

Lemma filter_length_lt {A : Type} (f : A -> bool) (l : list A) (i : nat) (x : A) :
  l !! i = Some x -> f x = false -> (length (List.filter f l) < length l)%nat.
Proof.
  revert i. induction l as [|y l IH]; intros [|i] Hi Hf; try done; cbn in *.
  - injection Hi as ->. rewrite Hf.
    pose proof (filter_length_le f l). lia.
  - specialize (IH i Hi Hf). destruct (f y); cbn; lia.
Qed.

(** C9, as the code has it.  When no preload is running and a competition
    was found, [preloadAllData] resolves with success whatever the result
    fetches do, writes the combined snapshot to [GLOBAL_CACHE] and persists
    it.  The per-competition summary has one report per competition, in the
    order of the catalogue.  For a competition whose id, as a text, is
    shared by no other competition and for which the cache holds nothing
    usable: when its request fails, the results mapping holds the empty
    list under its id, its report records the failure with the message of
    the error, and the summary counts a failure; when its request succeeds,
    the mapping holds what the endpoint returned, whatever happened to the
    other requests. *)
Theorem preload_tolerates_result_failures (net : Network) (w : World) :
  ds_isPreloading (dataService w) = false ->
  fc_science (offered net) ++ fc_gem (offered net) <> [] ->
  exists allResults summary reports w0 w1 w',
    fetchAllCompetitions net (set_isPreloading true w) = (Returns (offered net), w0)
    /\ preloadTasks net (fc_science (offered net) ++ fc_gem (offered net)) w0
       = (Returns (allResults, reports), w1)
    /\ DataService_preloadAllData net w
       = (Returns (Preloaded (offered net) allResults summary), w')
    /\ GLOBAL_CACHE w'
       = mkGlobalCache (Some (offered net)) allResults (Some (clock w')) true
    /\ clock w' = clock w1
    /\ (if storageWritable w
        then localStorage w' !! PERSIST_KEY
             = Some (JSON_stringify
                       (mkCacheData (Some (offered net))
                          (Object_fromEntries allResults)
                          (Some (clock w')) APP_VERSION))
        else localStorage w' = localStorage w)
    /\ ds_isPreloading (dataService w') = false
    /\ map tr_id reports = idsOf (fc_science (offered net) ++ fc_gem (offered net))
    /\ sum_total summary = length (fc_science (offered net) ++ fc_gem (offered net))
    /\ sum_loaded summary = length (List.filter tr_success reports)
    /\ (sum_failed summary = sum_total summary - sum_loaded summary)%nat
    /\ forall i comp,
         (fc_science (offered net) ++ fc_gem (offered net)) !! i = Some comp ->
         idUnshared (fc_science (offered net) ++ fc_gem (offered net)) i ->
         ~ usable (resultsKey comp) w ->
         (forall e,
             jsonpCompletion net (resultsRequest comp) = Throws e ->
             map_get allResults (obj_get comp "id") = Some []
             /\ reports !! i
                = Some (mkReport (obj_get comp "id") false
                          (Some (resultsFailure comp e)))
             /\ (0 < sum_failed summary)%nat)
         /\ (forall results,
               jsonpCompletion net (resultsRequest comp) = Returns results ->
               map_get allResults (obj_get comp "id") = Some results
               /\ reports !! i = Some (mkReport (obj_get comp "id") true None)).
Proof.
  intros Hpre Hne.
  destruct (DataService_preloadAllData_spec net w Hpre)
    as (competitions & w0 & Hf & Hs0 & Hcase).
  destruct (fetchAllCompetitions_spec net (set_isPreloading true w))
    as (t & Hf' & Ht).
  rewrite Hf in Hf'. injection Hf' as Hc Hw0. subst competitions.
  destruct Hcase as [(Es & Eg & _)|(_ & allResults & reports & w1 & Hrun & Hs1 & Hall)].
  { by rewrite Es, Eg in Hne. }
  destruct (preloadTasks_outcome net
              (fc_science (offered net) ++ fc_gem (offered net)) w0)
    as (allResults' & reports' & w1' & Hrun' & Hlen & Hids & Htasks).
  rewrite Hrun in Hrun'. injection Hrun' as <- <- <-.
  eexists allResults, _, reports, w0, w1, _.
  split; [exact Hf|]. split; [exact Hrun|]. split; [exact Hall|].
  rewrite saveToLocalStorage_spec. cbn [snd].
  assert (storageWritable w1 = storageWritable w) as Hw.
  { destruct Hs0 as (_&_&H0&_), Hs1 as (_&_&H1&_). by rewrite H1, H0. }
  assert (localStorage w1 = localStorage w) as Hl.
  { destruct Hs0 as (_&H0&_), Hs1 as (_&H1&_). by rewrite H1, H0. }
  cbn [storageWritable set_GLOBAL_CACHE]. rewrite Hw.
  assert (forall i comp,
            (fc_science (offered net) ++ fc_gem (offered net)) !! i = Some comp ->
            idUnshared (fc_science (offered net) ++ fc_gem (offered net)) i ->
            ~ usable (resultsKey comp) w ->
            (forall e,
                jsonpCompletion net (resultsRequest comp) = Throws e ->
                map_get allResults (obj_get comp "id") = Some []
                /\ reports !! i
                   = Some (mkReport (obj_get comp "id") false
                             (Some (resultsFailure comp e)))
                /\ (0 < length (fc_science (offered net) ++ fc_gem (offered net))
                        - length (List.filter tr_success reports))%nat)
            /\ (forall results,
                  jsonpCompletion net (resultsRequest comp) = Returns results ->
                  map_get allResults (obj_get comp "id") = Some results
                  /\ reports !! i = Some (mkReport (obj_get comp "id") true None)))
    as Hfinal.
  { intros i comp Hi Hn Hu.
    assert (~ usable (resultsKey comp) w0) as Hu0.
    { intros (entry & He & Hfresh). apply Hu. exists entry.
      rewrite Hw0 in He, Hfresh. cbn in He, Hfresh, Ht. split; [done|]. lia. }
    destruct (Htasks i comp Hi Hu0 Hn) as [Hm Hr].
    split.
    - intros e He. rewrite He in Hm, Hr. cbn in Hm, Hr.
      split; [done|]. split; [done|].
      pose proof (filter_length_lt tr_success reports i _ Hr eq_refl). lia.
    - intros results He. by rewrite He in Hm, Hr. }
  destruct (storageWritable w); cbn.
  - split; [done|]. split; [done|]. split.
    { rewrite lookup_insert_ne by done. by rewrite lookup_insert_eq. }
    do 5 (split; [done|]). exact Hfinal.
  - split; [done|]. split; [done|]. split; [done|].
    do 5 (split; [done|]). exact Hfinal.
Qed.

Lemma preload_tolerates_result_failures_witness :
  exists allResults summary (reports : list TaskReport) w',
    DataService_preloadAllData sampleNetwork (freshWorld 1700000000000 ∅)
    = (Returns (Preloaded (offered sampleNetwork) allResults summary), w')
    /\ GLOBAL_CACHE w'
       = mkGlobalCache (Some (offered sampleNetwork)) allResults
           (Some (clock w')) true
    /\ map_get allResults (Some (JStr "g1")) = Some []
    /\ reports !! 0%nat
       = Some (mkReport (Some (JStr "g1")) false
                 (Some (resultsFailure [("id", JStr "g1"); ("name", JStr "Essay")]
                          (mkError ERR_NETWORK))))
    /\ (0 < sum_failed summary)%nat.
Proof.
  destruct (preload_tolerates_result_failures sampleNetwork
              (freshWorld 1700000000000 ∅))
    as (allResults & summary & reports & w0 & w1 & w'
        & _ & _ & Hrun & Hg & _ & _ & _ & _ & _ & _ & _ & Htask).
  - vm_compute. reflexivity.
  - vm_compute. discriminate.
  - destruct (Htask 0%nat [("id", JStr "g1"); ("name", JStr "Essay")])
      as [Hfail _].
    + vm_compute. reflexivity.
    + intros j comp other Hc Ho Hne.
      vm_compute in Hc. injection Hc as <-.
      destruct j as [|[|[|j]]]; vm_compute in Ho;
        [done|injection Ho as <-|injection Ho as <-|discriminate];
        vm_compute; discriminate.
    + intros (entry & He & _). vm_compute in He. discriminate.
    + destruct (Hfail (mkError ERR_NETWORK)) as (Hm & Hr & Hs).
      * vm_compute. reflexivity.
      * exists allResults, summary, reports, w'.
        split; [exact Hrun|]. split; [exact Hg|].
        split; [exact Hm|]. split; [exact Hr | exact Hs].
Defined.

(** The claim of C9 fails on the code: the results mapping is keyed by id
    alone.  When the two endpoints number their competitions independently
    and a science and a gem competition share the id "1", the fetch for the
    science one fails and is reported, yet the entry under its id is not
    the empty list: it holds the results of the gem competition, whose
    reply came later. *)
Lemma shared_id_overwrites_failure :
  fst (DataService_preloadAllData sharedIdNetwork (freshWorld 1700000000000 ∅))
  = Returns
      (Preloaded (offered sharedIdNetwork)
         [ (Some (JStr "1"), [ [("school", JStr "S"); ("award", JStr "ชนะเลิศ")] ]) ]
         (mkSummary 2 1 1))
  /\ (fc_science (offered sharedIdNetwork) ++ fc_gem (offered sharedIdNetwork))
       !! 0%nat
     = Some [("id", JStr "1"); ("name", JStr "Rocket"); ("category", JStr "science")]
  /\ jsonpCompletion sharedIdNetwork
       (resultsRequest
          [("id", JStr "1"); ("name", JStr "Rocket"); ("category", JStr "science")])
     = Throws (mkError ERR_NETWORK)
  /\ fst (preloadTasks sharedIdNetwork
            (fc_science (offered sharedIdNetwork) ++ fc_gem (offered sharedIdNetwork))
            (snd (fetchAllCompetitions sharedIdNetwork
                    (set_isPreloading true (freshWorld 1700000000000 ∅)))))
     = Returns
         ([ (Some (JStr "1"), [ [("school", JStr "S"); ("award", JStr "ชนะเลิศ")] ]) ],
          [ mkReport (Some (JStr "1")) false
              (Some (resultsFailure
                       [("id", JStr "1"); ("name", JStr "Rocket");
                        ("category", JStr "science")] (mkError ERR_NETWORK)));
            mkReport (Some (JStr "1")) true None ])
  /\ map_get
       [ (Some (JStr "1"), [ [("school", JStr "S"); ("award", JStr "ชนะเลิศ")] ]) ]
       (Some (JStr "1"))
     <> Some [].
Proof.
  split; [vm_compute; reflexivity|]. split; [vm_compute; reflexivity|].
  split; [vm_compute; reflexivity|]. split; [vm_compute; reflexivity|].
  vm_compute. discriminate.
Qed.

(** ** Objects *)

Section ObjectFacts.
Context {V : Type}.
Implicit Types (o : JsObject V) (k : string) (v : V).

Lemma obj_get_None o k : obj_get o k = None <-> k ∉ map fst o.
Proof.
  induction o as [|[k0 v0] o IH]; simpl.
  - split; [intros _; apply not_elem_of_nil | done].
  - rewrite not_elem_of_cons, <- IH.
    destruct (String.eqb_spec k0 k) as [->|Hne].
    + split; [done | by intros [? _]].
    + split; [intros H; split; [congruence|done] | by intros [_ ?]].
Qed.

Lemma obj_get_replace o k v k' :
  obj_get (obj_replace k v o) k'
  = if String.eqb k k'
    then (match obj_get o k with Some _ => Some v | None => None end)
    else obj_get o k'.
Proof.
  induction o as [|[k0 v0] o IH]; simpl.
  - by destruct (String.eqb k k').
  - destruct (String.eqb_spec k0 k) as [->|Hne]; simpl.
    + by destruct (String.eqb k k').
    + destruct (String.eqb_spec k0 k') as [->|Hne'].
      * destruct (String.eqb_spec k k'); [congruence|done].
      * apply IH.
Qed.

Lemma obj_replace_keys o k v : map fst (obj_replace k v o) = map fst o.
Proof.
  induction o as [|[k0 v0] o IH]; simpl; [done|].
  destruct (String.eqb k0 k); simpl; by rewrite ?IH.
Qed.

Lemma obj_get_insert_index n o k v k' :
  obj_get o k = None ->
  obj_get (obj_insert_index n k v o) k'
  = if String.eqb k k' then Some v else obj_get o k'.
Proof.
  induction o as [|[k0 v0] o IH]; simpl; intros Hk; [done|].
  destruct (String.eqb_spec k0 k) as [->|Hne]; [done|].
  destruct (arrayIndex k0) as [n0|]; [destruct (n0 <? n)|]; simpl;
    try (destruct (String.eqb k k'); done).
  destruct (String.eqb_spec k0 k') as [->|Hne'].
  - destruct (String.eqb_spec k k'); [congruence|done].
  - by apply IH.
Qed.

Lemma obj_insert_index_keys n o k v :
  map fst (obj_insert_index n k v o) ≡ₚ k :: map fst o.
Proof.
  induction o as [|[k0 v0] o IH]; simpl; [done|].
  destruct (arrayIndex k0) as [n0|]; [destruct (n0 <? n)|]; simpl; try done.
  rewrite IH. apply Permutation_swap.
Qed.

Lemma obj_get_app o o' k :
  obj_get (o ++ o') k
  = match obj_get o k with Some v => Some v | None => obj_get o' k end.
Proof.
  induction o as [|[k0 v0] o IH]; simpl; [done|].
  by destruct (String.eqb k0 k).
Qed.

Lemma obj_get_set o k v k' :
  obj_get (obj_set o k v) k' = if String.eqb k k' then Some v else obj_get o k'.
Proof.
  unfold obj_set, hasOwnProperty.
  destruct (obj_get o k) as [v0|] eqn:E.
  - by rewrite obj_get_replace, E.
  - destruct (arrayIndex k) as [n|].
    + by apply obj_get_insert_index.
    + rewrite obj_get_app. simpl.
      destruct (String.eqb_spec k k') as [<-|Hne]; [by rewrite E|].
      by destruct (obj_get o k').
Qed.

Lemma obj_set_NoDup o k v : NoDup (map fst o) -> NoDup (map fst (obj_set o k v)).
Proof.
  intros Hnd. unfold obj_set, hasOwnProperty.
  destruct (obj_get o k) as [v0|] eqn:E.
  - by rewrite obj_replace_keys.
  - apply obj_get_None in E.
    destruct (arrayIndex k) as [n|].
    + rewrite obj_insert_index_keys. by apply NoDup_cons.
    + rewrite map_app. simpl.
      apply NoDup_app. split; [done|]. split; [|apply NoDup_singleton].
      intros x Hx Hx'. apply list_elem_of_singleton in Hx'. by subst.
Qed.

(** A key that is not a string has no entry in a string-keyed map. *)
Lemma stringKeyed_other (m : JsMap V) (key : option jsval) :
  stringKeyed m -> (forall s, key <> Some (JStr s)) -> map_get m key = None.
Proof.
  intros [Hs _] Hk. induction m as [|[k0 v0] m IH]; simpl; [done|].
  apply Forall_cons in Hs as [[s Hs0] Hs]. simpl in Hs0.
  destruct (decide (k0 = key)) as [<-|_]; [by destruct (Hk s)|by apply IH].
Qed.

Lemma map_get_None (m : JsMap V) (key : option jsval) :
  map_get m key = None <-> key ∉ map fst m.
Proof.
  induction m as [|[k0 v0] m IH]; simpl.
  - split; [intros _; apply not_elem_of_nil | done].
  - rewrite not_elem_of_cons, <- IH.
    destruct (decide (k0 = key)) as [->|Hne].
    + split; [done | by intros [? _]].
    + split; [intros H; split; [congruence|done] | by intros [_ ?]].
Qed.

Lemma Object_fromEntries_get (m : JsMap V) :
  stringKeyed m ->
  forall o s,
    obj_get (foldl (fun o kv => obj_set o (String_of (fst kv)) (snd kv)) o m) s
    = match map_get m (Some (JStr s)) with
      | Some v => Some v
      | None => obj_get o s
      end.
Proof.
  intros [Hs Hnd]. induction m as [|[k0 v0] m IH]; intros o s; simpl; [done|].
  apply Forall_cons in Hs as [[s0 Hs0] Hs]. simpl in Hs0. subst k0.
  simpl in Hnd. apply NoDup_cons in Hnd as [Hnotin Hnd].
  rewrite IH by done. simpl.
  destruct (decide (Some (JStr s0) = Some (JStr s))) as [[= ->]|Hne].
  - apply map_get_None in Hnotin. rewrite Hnotin, obj_get_set.
    by rewrite String.eqb_refl.
  - destruct (map_get m (Some (JStr s))); [done|].
    rewrite obj_get_set.
    destruct (String.eqb_spec s0 s); [congruence|done].
Qed.

Lemma Object_fromEntries_NoDup (m : JsMap V) :
  forall o, NoDup (map fst o) ->
    NoDup (map fst (foldl (fun o kv => obj_set o (String_of (fst kv)) (snd kv)) o m)).
Proof.
  induction m as [|[k0 v0] m IH]; intros o Ho; simpl; [done|].
  apply IH. by apply obj_set_NoDup.
Qed.

Lemma Map_of_entries_get o :
  NoDup (map fst o) ->
  forall (acc : JsMap V) (key : option jsval),
    map_get (foldl (fun m kv => map_set m (Some (JStr (fst kv))) (snd kv)) acc o) key
    = match key with
      | Some (JStr s) =>
          match obj_get o s with Some v => Some v | None => map_get acc key end
      | _ => map_get acc key
      end.
Proof.
  intros Hnd. induction o as [|[k0 v0] o IH]; intros acc key; simpl.
  - by destruct key as [[| | |]|].
  - simpl in Hnd. apply NoDup_cons in Hnd as [Hnotin Hnd].
    rewrite IH by done.
    destruct key as [[| | |s]|]; try (by rewrite map_get_set_ne).
    destruct (String.eqb_spec k0 s) as [->|Hne].
    + apply obj_get_None in Hnotin. by rewrite Hnotin, map_get_set_eq.
    + destruct (obj_get o s); [done|].
      rewrite map_get_set_ne; [done|congruence].
Qed.

(** [new Map(Object.entries(Object.fromEntries(m)))] has the entries of a
    string-keyed [m]. *)
Lemma results_roundtrip (m : JsMap V) :
  stringKeyed m ->
  forall key : option jsval,
    map_get (Map_of_entries (Object_fromEntries m)) key = map_get m key.
Proof.
  intros Hm key. unfold Map_of_entries, Object_fromEntries.
  rewrite Map_of_entries_get by (apply Object_fromEntries_NoDup; constructor).
  destruct key as [[| |n|s]|]; simpl;
    try (symmetry; apply stringKeyed_other; [done | intros ?; discriminate]).
  rewrite Object_fromEntries_get by done. simpl.
  by destruct (map_get m (Some (JStr s))).
Qed.

End ObjectFacts.

(** ** Persist and restore *)

Lemma json_competitions_lists (c : FetchedCompetitions) :
  fc_science (json_competitions c) = fc_science c
  /\ fc_gem (json_competitions c) = fc_gem c
  /\ err_science (fc_errors (json_competitions c))
     = json_slot (err_science (fc_errors c))
  /\ err_gem (fc_errors (json_competitions c)) = json_slot (err_gem (fc_errors c)).
Proof. done. Qed.

Lemma loadFromLocalStorage_hit (w : World) (d : CacheData) (t : Z) :
  localStorage w !! PERSIST_KEY = Some (Json d) ->
  localStorage w !! VERSION_KEY = Some (Text APP_VERSION) ->
  cd_lastUpdated d = Some t ->
  t <> 0 ->
  clock w - t <= CACHE_TIMEOUT ->
  loadFromLocalStorage w
  = (Returns true,
     set_GLOBAL_CACHE
       (mkGlobalCache (cd_competitions d) (Map_of_entries (cd_results d))
          (Some t) true) w).
Proof.
  intros Hp Hv Ht Ht0 Hage.
  unfold loadFromLocalStorage, try_catch, mbind, M_bind, gets, modify, mret, M_ret.
  rewrite Hp, Hv, Ht.
  assert (truthy (jsnum_of (Some t)) = true) as Htr
    by (apply truthy_jsnum_of; eauto).
  assert ((CACHE_TIMEOUT <? elapsed_since (clock w) (Some t)) = false) as Hin.
  { apply Z.ltb_ge. unfold elapsed_since. simpl. lia. }
  cbn [item_missing version_differs].
  rewrite String.eqb_refl. cbn [negb orb].
  rewrite Htr, Hin. reflexivity.
Qed.

(** C4, as the code has it.  For a snapshot with a timestamp and results
    keyed by string ids, [saveToLocalStorage] followed by
    [loadFromLocalStorage] under the same version and inside the TTL
    succeeds: the loaded flag is set, the timestamp, both category lists and
    every results entry are restored; an error slot comes back the way JSON
    writes it, [null] as [null] and an [Error] as an empty object.  When no
    error slot holds an [Error] the restored snapshot has the content of the
    persisted one. *)
Theorem persist_restore_roundtrip (w : World) (dt : nat) (t : Z) :
  storageWritable w = true ->
  gc_lastUpdated (GLOBAL_CACHE w) = Some t ->
  t <> 0 ->
  clock w + Z.of_nat dt - t <= CACHE_TIMEOUT ->
  stringKeyed (gc_results (GLOBAL_CACHE w)) ->
  exists w2,
    loadFromLocalStorage (elapse dt (snd (saveToLocalStorage w)))
    = (Returns true, w2)
    /\ gc_isLoaded (GLOBAL_CACHE w2) = true
    /\ gc_lastUpdated (GLOBAL_CACHE w2) = Some t
    /\ gc_competitions (GLOBAL_CACHE w2)
       = json_competitions <$> gc_competitions (GLOBAL_CACHE w)
    /\ fc_science <$> gc_competitions (GLOBAL_CACHE w2)
       = fc_science <$> gc_competitions (GLOBAL_CACHE w)
    /\ fc_gem <$> gc_competitions (GLOBAL_CACHE w2)
       = fc_gem <$> gc_competitions (GLOBAL_CACHE w)
    /\ (forall k,
          map_get (gc_results (GLOBAL_CACHE w2)) k
          = map_get (gc_results (GLOBAL_CACHE w)) k)
    /\ (json_competitions <$> gc_competitions (GLOBAL_CACHE w)
        = gc_competitions (GLOBAL_CACHE w) ->
        sameContent (GLOBAL_CACHE w2)
          (mkGlobalCache (gc_competitions (GLOBAL_CACHE w))
             (gc_results (GLOBAL_CACHE w)) (Some t) true)).
Proof.
  intros Hw Ht Ht0 Hage Hkeys.
  rewrite saveToLocalStorage_spec, Hw. cbn [snd].
  set (d := mkCacheData (json_competitions <$> gc_competitions (GLOBAL_CACHE w))
              (Object_fromEntries (gc_results (GLOBAL_CACHE w)))
              (Some t) APP_VERSION).
  eexists. split.
  { apply (loadFromLocalStorage_hit _ d t).
    - unfold elapse. cbn [localStorage set_clock set_localStorage].
      rewrite lookup_insert_ne by done. rewrite lookup_insert_eq.
      unfold JSON_stringify, d. cbn [cd_competitions cd_results cd_lastUpdated cd_version].
      by rewrite Ht.
    - unfold elapse. cbn [localStorage set_clock set_localStorage].
      by rewrite lookup_insert_eq.
    - done.
    - done.
    - unfold elapse. cbn [clock set_clock set_localStorage]. lia. }
  cbn [GLOBAL_CACHE set_GLOBAL_CACHE gc_isLoaded gc_lastUpdated gc_competitions
       gc_results cd_competitions cd_results d].
  split; [done|]. split; [done|]. split; [done|].
  split; [by destruct (gc_competitions (GLOBAL_CACHE w))|].
  split; [by destruct (gc_competitions (GLOBAL_CACHE w))|].
  split; [by apply results_roundtrip|].
  intros Hc. unfold sameContent.
  cbn [gc_isLoaded gc_lastUpdated gc_competitions gc_results].
  split; [done|]. split; [done|]. split; [done|]. by apply results_roundtrip.
Qed.

Lemma persist_restore_roundtrip_witness :
  exists w2,
    loadFromLocalStorage
      (elapse 1000
         (snd (saveToLocalStorage
                 (snd (initialize sampleNetwork (freshWorld 1700000000000 ∅))))))
    = (Returns true, w2)
    /\ sameContent (GLOBAL_CACHE w2)
         (GLOBAL_CACHE (snd (initialize sampleNetwork (freshWorld 1700000000000 ∅)))).
Proof.
  destruct (persist_restore_roundtrip
              (snd (initialize sampleNetwork (freshWorld 1700000000000 ∅)))
              1000 1700000001400)
    as (w2 & Hload & _ & _ & _ & _ & _ & _ & Hsame).
  - vm_compute. reflexivity.
  - vm_compute. reflexivity.
  - discriminate.
  - vm_compute. discriminate.
  - split.
    + vm_compute. repeat constructor; eexists; reflexivity.
    + apply (bool_decide_unpack _). vm_compute. exact I.
  - exists w2. split; [exact Hload|]. apply Hsame. vm_compute. reflexivity.
Defined.

(** The claim of C4 fails on the code: the snapshot a preload leaves when
    the science endpoint is down holds an [Error] in [errors.science]; after
    persist and restore the slot holds an empty object, and the message is
    gone. *)
Lemma persist_restore_loses_error :
  fst (initialize scienceDown (freshWorld 1700000000000 ∅)) = Returns tt
  /\ (err_science ∘ fc_errors) <$>
       gc_competitions
         (GLOBAL_CACHE (snd (initialize scienceDown (freshWorld 1700000000000 ∅))))
     = Some (SlotError (mkError ERR_SCIENCE_LOAD_FAILED))
  /\ fst (loadFromLocalStorage
            (snd (saveToLocalStorage
                    (snd (initialize scienceDown (freshWorld 1700000000000 ∅))))))
     = Returns true
  /\ (err_science ∘ fc_errors) <$>
       gc_competitions
         (GLOBAL_CACHE
            (snd (loadFromLocalStorage
                    (snd (saveToLocalStorage
                            (snd (initialize scienceDown
                                    (freshWorld 1700000000000 ∅))))))))
     = Some (SlotObject [])
  /\ ~ sameContent
         (GLOBAL_CACHE
            (snd (loadFromLocalStorage
                    (snd (saveToLocalStorage
                            (snd (initialize scienceDown
                                    (freshWorld 1700000000000 ∅))))))))
         (GLOBAL_CACHE (snd (initialize scienceDown (freshWorld 1700000000000 ∅)))).
Proof.
  split; [by vm_compute|]. split; [by vm_compute|].
  split; [by vm_compute|]. split; [by vm_compute|].
  intros [Hc _]. vm_compute in Hc. discriminate Hc.
Qed.

(** ** Restoring a snapshot *)

Lemma loadFromLocalStorage_cases (w : World) :
  loadFromLocalStorage w = (Returns false, w)
  \/ exists d t,
       cd_lastUpdated d = Some t /\ t <> 0
       /\ loadFromLocalStorage w
          = (Returns true,
             set_GLOBAL_CACHE
               (mkGlobalCache (cd_competitions d) (Map_of_entries (cd_results d))
                  (Some t) true) w).
Proof.
  unfold loadFromLocalStorage, try_catch, mbind, M_bind, gets.
  destruct (item_missing (localStorage w !! PERSIST_KEY)
            || version_differs (localStorage w !! VERSION_KEY)); [by left|].
  destruct (localStorage w !! PERSIST_KEY) as [[d|s]|]; [|by left..].
  destruct (truthy (jsnum_of (cd_lastUpdated d))) eqn:Et; [|by left].
  apply truthy_jsnum_of in Et as (t & Ht & Ht0).
  destruct (CACHE_TIMEOUT <? _); [by left|].
  right. exists d, t. rewrite Ht. done.
Qed.

(** ** Loading the catalogue *)

Lemma loadFromGlobalCache_outcome (w : World) :
  gc_isLoaded (GLOBAL_CACHE w) = true ->
  exists r w1,
    loadFromGlobalCache w = (r, w1)
    /\ requests w1 = requests w
    /\ m_isLoading (manager w1) = m_isLoading (manager w)
    /\ m_isInitialized (manager w1) = m_isInitialized (manager w)
    /\ GLOBAL_CACHE w1 = GLOBAL_CACHE w
    /\ localStorage w1 = localStorage w
    /\ dataService w1 = dataService w
    /\ clock w1 = clock w
    /\ ((exists c,
           gc_competitions (GLOBAL_CACHE w) = Some c
           /\ sound c = true /\ r = Returns tt /\ holds c w1)
        \/ (gc_competitions (GLOBAL_CACHE w) = None
            /\ r = Throws (mkError "Global cache is not ready") /\ w1 = w)
        \/ (exists c,
              gc_competitions (GLOBAL_CACHE w) = Some c
              /\ sound c = false
              /\ r = Throws (mkError ERR_NOT_A_FUNCTION)
              /\ m_errors (manager w1) = m_errors (manager w))).
Proof.
  intros Hl. unfold loadFromGlobalCache, mbind, M_bind, gets. rewrite Hl.
  destruct (gc_competitions (GLOBAL_CACHE w)) as [c|].
  - destruct (storeCompetitions_cases c w)
      as (r & w1 & -> & Hc & Hg & Hls & _ & Hd & Hr & Hlo & Hi & Hcase).
    exists r, w1. do 8 (split; [done|]).
    destruct Hcase as [(Hs & -> & Hh)|(Hs & -> & He)].
    + left. by exists c.
    + right. right. by exists c.
  - exists (Throws (mkError "Global cache is not ready")), w.
    do 8 (split; [done|]). right. by left.
Qed.

Lemma loadAllCompetitions_outcome (net : Network) (w : World) :
  exists r w',
    loadAllCompetitions net w = (r, w')
    /\ requests w' = requests w ++ catalogueRequests
    /\ m_isLoading (manager w') = m_isLoading (manager w)
    /\ m_isInitialized (manager w') = m_isInitialized (manager w)
    /\ GLOBAL_CACHE w' = GLOBAL_CACHE w
    /\ localStorage w' = localStorage w
    /\ dataService w' = dataService w
    /\ clock w <= clock w' <= clock w + API_TIMEOUT
    /\ ((sound (offered net) = true /\ r = Returns tt /\ holds (offered net) w')
        \/ (sound (offered net) = false
            /\ r = Throws (mkError ERR_API_ERROR)
            /\ m_errors (manager w') = m_errors (manager w))).
Proof.
  destruct (fetchAllCompetitions_spec net w) as (t & Hf & Ht).
  unfold loadAllCompetitions, try_catch, mbind, M_bind. rewrite Hf.
  set (w0 := set_clock t _).
  destruct (storeCompetitions_cases (offered net) w0)
    as (r & w1 & -> & Hc & Hg & Hls & _ & Hd & Hr & Hlo & Hi & Hcase).
  destruct Hcase as [(Hs & -> & Hh)|(Hs & -> & He)].
  - exists (Returns tt), w1. rewrite Hr, Hlo, Hi, Hg, Hls, Hd, Hc.
    do 7 (split; [done|]). split; [exact Ht|]. by left.
  - exists (Throws (mkError ERR_API_ERROR)), w1.
    rewrite Hr, Hlo, Hi, Hg, Hls, Hd, Hc, He.
    do 7 (split; [done|]). split; [exact Ht|]. by right.
Qed.

(** [CompetitionManager.preloadAllData] asks for both catalogues first.
    It returns exactly when the catalogue the endpoints offer is sound,
    leaving the manager holding it; otherwise it throws the error of the
    fallback, after the catalogue has been fetched a second time when the
    preload itself had succeeded. *)
Lemma preloadAllData_spec (net : Network) (w : World) :
  exists r sent w',
    preloadAllData net w = (r, w')
    /\ requests w' = requests w ++ catalogueRequests ++ sent
    /\ m_isLoading (manager w') = m_isLoading (manager w)
    /\ m_isInitialized (manager w') = m_isInitialized (manager w)
    /\ clock w <= clock w'
    /\ (GLOBAL_CACHE w' = GLOBAL_CACHE w
        \/ exists res t,
             clock w <= t
             /\ GLOBAL_CACHE w' = mkGlobalCache (Some (offered net)) res (Some t) true)
    /\ ((sound (offered net) = true
         /\ r = Returns tt
         /\ holds (offered net) w'
         /\ clock w' <= clock w + (2 * API_TIMEOUT + 200))
        \/ (sound (offered net) = false
            /\ r = Throws (mkError ERR_API_ERROR)
            /\ m_errors (manager w') = m_errors (manager w)
            /\ clock w' <= clock w + (3 * API_TIMEOUT + 200))).
Proof.
  unfold preloadAllData, try_catch, mbind, M_bind.
  destruct (ds_isPreloading (dataService w)) eqn:Hpre.
  { unfold DataService_preloadAllData. rewrite Hpre. cbn [throw].
    destruct (loadAllCompetitions_outcome net w)
      as (r & w' & -> & Hr & Hl & Hi & Hg & _ & _ & Hd & Hcase).
    exists r, [], w'. rewrite app_nil_r.
    do 4 (split; [done|]). split; [lia|]. split; [by left|].
    unfold API_TIMEOUT in *.
    destruct Hcase as [(? & ? & ?)|(? & ? & ?)]; [left|right];
      repeat split; try done; lia. }
  destruct (DataService_preloadAllData_spec net w Hpre)
    as (competitions & w0 & Hf & Hs0 & Hcase).
  destruct (fetchAllCompetitions_spec net (set_isPreloading true w))
    as (t & Hf' & Ht).
  rewrite Hf in Hf'. injection Hf' as Hc Hw0. subst competitions.
  assert (requests w0 = requests w ++ catalogueRequests
          /\ manager w0 = manager w /\ GLOBAL_CACHE w0 = GLOBAL_CACHE w
          /\ clock w <= clock w0 <= clock w + API_TIMEOUT)
    as (Hr0 & Hm0 & Hg0 & Hc0) by (by rewrite Hw0).
  clear Hw0 Hs0 Ht.
  destruct Hcase as [(_ & _ & ->)|(_ & allResults & reports & w1 & Ht & Hs1 & ->)].
  - destruct (loadAllCompetitions_outcome net (set_isPreloading false w0))
      as (r & w' & -> & Hr & Hl & Hi & Hg & _ & _ & Hd & Hcase).
    cbn in Hr, Hl, Hi, Hg, Hd.
    exists r, catalogueRequests, w'.
    split; [done|]. split; [by rewrite Hr, Hr0, <- app_assoc|].
    rewrite Hl, Hi, Hg, Hm0, Hg0.
    do 2 (split; [done|]). split; [lia|]. split; [by left|].
    unfold API_TIMEOUT in *.
    destruct Hcase as [(? & ? & ?)|(? & ? & He)]; [left|right];
      repeat split; try done; try lia.
    cbn in He. by rewrite He, Hm0.
  - destruct (preloadTasks_frame net
                (fc_science (offered net) ++ fc_gem (offered net)) w0)
      as (a' & rep' & w1' & Ht' & _ & Hc1 & sent & Hr1 & _).
    rewrite Ht in Ht'. injection Ht' as <- <- <-.
    destruct Hs1 as (_ & _ & _ & Hm1 & _ & _ & _).
    rewrite saveToLocalStorage_spec. cbn [snd].
    set (w2 := set_isPreloading false _).
    assert (GLOBAL_CACHE w2
            = mkGlobalCache (Some (offered net)) allResults (Some (clock w1)) true
            /\ requests w2 = requests w1 /\ manager w2 = manager w1
            /\ clock w2 = clock w1)
      as (Hg2 & Hr2 & Hm2 & Hc2).
    { unfold w2. by destruct (storageWritable _). }
    destruct (loadFromGlobalCache_outcome w2)
      as (r & w3 & -> & Hr3 & Hl3 & Hi3 & Hg3 & _ & _ & Hc3 & Hcase).
    { by rewrite Hg2. }
    rewrite Hg2 in Hcase. cbn [gc_competitions] in Hcase.
    unfold API_TIMEOUT in *.
    destruct Hcase as [(c & [= <-] & Hs & -> & Hh)
                      |[(Hn & _)|(c & [= <-] & Hs & -> & He)]]; [|done|].
    + exists (Returns tt), sent, w3.
      split; [done|].
      split; [by rewrite Hr3, Hr2, Hr1, Hr0, <- app_assoc|].
      rewrite Hl3, Hi3, Hm2, Hm1, Hm0.
      do 2 (split; [done|]). split; [lia|].
      split; [right; exists allResults, (clock w1); split; [lia|];
              by rewrite Hg3|].
      left. repeat split; try done. lia.
    + destruct (loadAllCompetitions_outcome net w3)
        as (r & w4 & -> & Hr4 & Hl4 & Hi4 & Hg4 & _ & _ & Hd4 & Hcase).
      destruct Hcase as [(Hs' & _)|(_ & -> & He4)]; [congruence|].
      unfold API_TIMEOUT in Hd4.
      exists (Throws (mkError ERR_API_ERROR)), (sent ++ catalogueRequests), w4.
      split; [done|].
      split; [by rewrite Hr4, Hr3, Hr2, Hr1, Hr0, <- !app_assoc|].
      rewrite Hl4, Hi4, Hl3, Hi3, Hm2, Hm1, Hm0.
      do 2 (split; [done|]). split; [lia|].
      split; [right; exists allResults, (clock w1); split; [lia|];
              by rewrite Hg4, Hg3|].
      right. rewrite He4, He, Hm2, Hm1, Hm0.
      repeat split; try done. lia.
Qed.

(** The ways [initialize] can go: it returns with the manager holding a
    catalogue; or it throws while adopting a snapshot that carries no
    catalogue or an unsound one; or it throws the error of the fallback,
    the endpoints offering an unsound catalogue. *)
Lemma initialize_cases (net : Network) (w : World) :
  exists r sent w1,
    initialize net w = (r, w1)
    /\ requests w1 = requests w ++ sent
    /\ m_isLoading (manager w1) = false
    /\ clock w <= clock w1
    /\ ((exists c,
           r = Returns tt
           /\ holds c w1
           /\ m_isInitialized (manager w1) = true
           /\ clock w1 <= clock w + (2 * API_TIMEOUT + 200)
           /\ ((gc_isLoaded (GLOBAL_CACHE w1) = true
                /\ gc_competitions (GLOBAL_CACHE w1) = Some c)
               \/ (GLOBAL_CACHE w1 = GLOBAL_CACHE w
                   /\ (gc_isLoaded (GLOBAL_CACHE w)
                       && truthy (isCacheValid (clock w) (GLOBAL_CACHE w)))
                      = false)))
        \/ (r = Throws (mkError "Global cache is not ready")
            /\ sent = []
            /\ gc_isLoaded (GLOBAL_CACHE w1) = true
            /\ gc_competitions (GLOBAL_CACHE w1) = None
            /\ internalCollections w1 = internalCollections w
            /\ m_errors (manager w1) = m_errors (manager w)
            /\ m_isInitialized (manager w1) = m_isInitialized (manager w)
            /\ clock w1 = clock w)
        \/ (exists c,
              r = Throws (mkError ERR_NOT_A_FUNCTION)
              /\ sent = []
              /\ gc_isLoaded (GLOBAL_CACHE w1) = true
              /\ gc_competitions (GLOBAL_CACHE w1) = Some c
              /\ sound c = false
              /\ m_errors (manager w1) = m_errors (manager w)
              /\ m_isInitialized (manager w1) = m_isInitialized (manager w)
              /\ clock w1 = clock w)
        \/ (r = Throws (mkError ERR_API_ERROR)
            /\ sound (offered net) = false
            /\ (exists sent', sent = catalogueRequests ++ sent')
            /\ (gc_isLoaded (GLOBAL_CACHE w)
                && truthy (isCacheValid (clock w) (GLOBAL_CACHE w))) = false
            /\ m_errors (manager w1) = m_errors (manager w)
            /\ m_isInitialized (manager w1) = m_isInitialized (manager w)
            /\ clock w1 <= clock w + (3 * API_TIMEOUT + 200))).
Proof.
  unfold initialize, finally, try_catch, mbind, M_bind, modify at 1,
    isCacheReady, gets.
  cbn [GLOBAL_CACHE set_isLoading set_manager clock].
  destruct (gc_isLoaded (GLOBAL_CACHE w)
            && truthy (isCacheValid (clock w) (GLOBAL_CACHE w))) eqn:Eready.
  - apply andb_true_iff in Eready as [Hl _].
    destruct (loadFromGlobalCache_outcome (set_isLoading true w) Hl)
      as (r & w1 & -> & Hr & Hlo & Hi & Hg & _ & _ & Hc & Hcase).
    cbn in Hr, Hi, Hg, Hc. unfold API_TIMEOUT.
    destruct Hcase as [(c & Hgc & Hs & -> & Hh)
                      |[(Hgc & -> & ->)|(c & Hgc & Hs & -> & He)]].
    + exists (Returns tt), [], (set_isLoading false (set_isInitialized true w1)).
      rewrite app_nil_r. cbn.
      split; [done|]. split; [done|]. split; [done|]. split; [lia|].
      left. exists c. split; [done|]. split; [exact Hh|]. split; [done|].
      split; [lia|]. left. by rewrite Hg.
    + exists (Throws (mkError "Global cache is not ready")), [],
        (set_isLoading false (set_isLoading true w)).
      rewrite app_nil_r. cbn.
      split; [done|]. split; [done|]. split; [done|]. split; [lia|].
      right. left. by repeat split.
    + exists (Throws (mkError ERR_NOT_A_FUNCTION)), [], (set_isLoading false w1).
      rewrite app_nil_r. cbn.
      split; [done|]. split; [done|]. split; [done|]. split; [lia|].
      right. right. left. exists c. rewrite Hg. by repeat split.
  - destruct (loadFromLocalStorage_cases (set_isLoading true w))
      as [-> | (d & t & Hd & Ht & ->)].
    + destruct (preloadAllData_spec net (set_isLoading true w))
        as (r & sent & w1 & -> & Hr & Hlo & Hi & Hc & Hg & Hcase).
      cbn in Hr, Hlo, Hi, Hc, Hg.
      destruct Hcase as [(Hs & -> & Hh & Hd)|(Hs & -> & He & Hd)].
      * exists (Returns tt), (catalogueRequests ++ sent),
          (set_isLoading false (set_isInitialized true w1)).
        split; [done|]. split; [done|]. split; [done|]. split; [done|].
        left. exists (offered net).
        split; [done|]. split; [exact Hh|]. split; [done|]. split; [exact Hd|].
        cbn. destruct Hg as [Hg|(res & t & _ & Hg)]; [by right|left].
        by rewrite Hg.
      * exists (Throws (mkError ERR_API_ERROR)), (catalogueRequests ++ sent),
          (set_isLoading false w1).
        split; [done|]. split; [done|]. split; [done|]. split; [done|].
        right. right. right.
        split; [done|]. split; [done|]. split; [by exists sent|].
        split; [done|]. split; [exact He|]. split; [exact Hi | exact Hd].
    + set (w0 := set_GLOBAL_CACHE _ _).
      destruct (loadFromGlobalCache_outcome w0 eq_refl)
        as (r & w1 & -> & Hr & Hlo & Hi & Hg & _ & _ & Hc & Hcase).
      cbn in Hr, Hi, Hg, Hc. unfold API_TIMEOUT.
      destruct Hcase as [(c & Hgc & Hs & -> & Hh)
                        |[(Hgc & -> & ->)|(c & Hgc & Hs & -> & He)]].
      * exists (Returns tt), [], (set_isLoading false (set_isInitialized true w1)).
        rewrite app_nil_r. cbn.
        split; [done|]. split; [done|]. split; [done|]. split; [lia|].
        left. exists c. split; [done|]. split; [exact Hh|]. split; [done|].
        split; [lia|]. left. by rewrite Hg.
      * exists (Throws (mkError "Global cache is not ready")), [],
          (set_isLoading false w0).
        rewrite app_nil_r. cbn.
        split; [done|]. split; [done|]. split; [done|]. split; [lia|].
        right. left. by repeat split.
      * exists (Throws (mkError ERR_NOT_A_FUNCTION)), [], (set_isLoading false w1).
        rewrite app_nil_r. cbn.
        split; [done|]. split; [done|]. split; [done|]. split; [lia|].
        right. right. left. exists c. rewrite Hg. by repeat split.
Qed.

(** ** Initialization *)





(** * Further properties *)

(** ** The per-key cache of the data service *)

Lemma setCache_spec (key : string) (d : list RawRecord) (w : World) :
  setCache key d w
  = (Returns tt,
     set_dataService
       (mkDataService (<[key := mkCacheEntry d (clock w)]> (ds_cache (dataService w)))
          (ds_isPreloading (dataService w))) w).
Proof. reflexivity. Qed.

(** X1.  An entry written by [setCache] is returned by [getFromCache] for
    as long as less than the TTL has passed, with the state untouched;
    from then on the lookup returns [null] and removes the entry. *)
Theorem getFromCache_after_setCache (key : string) (d : list RawRecord)
  (dt : nat) (w : World) :
  let w1 := elapse dt (snd (setCache key d w)) in
  (Z.of_nat dt < CACHE_TIMEOUT -> getFromCache key w1 = (Returns (Some d), w1))
  /\ (CACHE_TIMEOUT <= Z.of_nat dt ->
      fst (getFromCache key w1) = Returns None
      /\ ds_cache (dataService (snd (getFromCache key w1))) !! key = None
      /\ forall key', key' <> key ->
           ds_cache (dataService (snd (getFromCache key w1))) !! key'
           = ds_cache (dataService w) !! key').
Proof.
  intros w1. subst w1. rewrite setCache_spec. cbn [snd].
  unfold getFromCache, elapse. cbn.
  rewrite lookup_insert_eq. cbn.
  split.
  - intros Hlt.
    destruct (clock w + Z.of_nat dt - clock w <? CACHE_TIMEOUT) eqn:E;
      [reflexivity | lia].
  - intros Hge.
    destruct (clock w + Z.of_nat dt - clock w <? CACHE_TIMEOUT) eqn:E; [lia |].
    cbn. split; [reflexivity |]. split.
    + apply lookup_delete_eq.
    + intros key' Hne. rewrite lookup_delete_ne by congruence.
      apply lookup_insert_ne. congruence.
Qed.

(** The key [fetchResultsInternal] caches under, and the request it sends. *)
Lemma fetchResultsInternal_miss (net : Network) (id category : option jsval)
  (w w0 : World) :
  getFromCache ("results_" +:+ String_of id) w = (Returns None, w0) ->
  fetchResultsInternal net id category w
  = match jsonpCompletion net
            (mkRequest (getApiUrl category) "getResults" (Some (String_of id))) with
    | Returns results =>
        (Returns results,
         snd (setCache ("results_" +:+ String_of id) results
                (snd (simpleJSONP net
                        (mkRequest (getApiUrl category) "getResults"
                           (Some (String_of id))) w0))))
    | Throws e =>
        (Throws (mkError ("ไม่สามารถโหลดผลการแข่งขัน " +:+ String_of id
                          +:+ " ได้: " +:+ message e)),
         snd (simpleJSONP net
                (mkRequest (getApiUrl category) "getResults" (Some (String_of id)))
                w0))
    end.
Proof.
  intros Hmiss. unfold fetchResultsInternal, mbind, M_bind. rewrite Hmiss.
  unfold try_catch. rewrite simpleJSONP_spec. cbn [snd].
  destruct (jsonpCompletion net _) as [results|e]; reflexivity.
Qed.

Lemma getFromCache_miss_world (key : string) (w w0 : World)
  (r : option (list RawRecord)) :
  getFromCache key w = (Returns r, w0) ->
  r = None ->
  ds_cache (dataService w0) !! key = None
  /\ requests w0 = requests w /\ clock w0 = clock w.
Proof.
  unfold getFromCache. intros H ->.
  destruct (ds_cache (dataService w) !! key) as [cached|] eqn:E.
  - destruct (_ <? _); [discriminate|].
    injection H as <-. cbn. split; [apply lookup_delete_eq | done].
  - injection H as <-. done.
Qed.

(** X2.  When nothing usable is cached for a competition and the fetch of
    its results succeeds, one request is sent, and for less than the TTL
    afterwards a further call returns the same results without a request and
    without touching the state, whatever the network would answer and
    whatever category is passed.  The cache key is built from the string
    form of the id, so an id with the same string form is served too. *)
Theorem fetchResultsInternal_memoizes (net net' : Network)
  (id id' category category' : option jsval) (results : list RawRecord)
  (w w1 : World) (dt : nat) :
  fst (getFromCache ("results_" +:+ String_of id) w) = Returns None ->
  fetchResultsInternal net id category w = (Returns results, w1) ->
  String_of id' = String_of id ->
  Z.of_nat dt < CACHE_TIMEOUT ->
  requests w1
  = requests w ++ [mkRequest (getApiUrl category) "getResults" (Some (String_of id))]
  /\ fetchResultsInternal net' id' category' (elapse dt w1)
     = (Returns results, elapse dt w1).
Proof.
  intros Hmiss Hfetch Hid Hdt.
  destruct (getFromCache ("results_" +:+ String_of id) w) as [r w0] eqn:Hget.
  cbn [fst] in Hmiss. subst r.
  destruct (getFromCache_miss_world _ _ _ _ Hget eq_refl) as (_ & Hreq & _).
  rewrite (fetchResultsInternal_miss _ _ _ _ _ Hget) in Hfetch.
  rewrite simpleJSONP_spec in Hfetch. cbn [snd] in Hfetch.
  destruct (jsonpCompletion net _) as [r|e]; [|discriminate].
  injection Hfetch as -> <-. split.
  - cbn. by rewrite Hreq.
  - unfold fetchResultsInternal, mbind, M_bind. rewrite Hid.
    unfold getFromCache, elapse, setCache, modify. cbn.
    rewrite lookup_insert_eq. cbn.
    match goal with |- context [?a <? CACHE_TIMEOUT] =>
      destruct (a <? CACHE_TIMEOUT) eqn:E end; [reflexivity | lia].
Qed.

Lemma fetchResultsInternal_memoizes_witness :
  requests (snd (fetchResultsInternal sampleNetwork (Some (JNum 7)) None
                   (freshWorld 1700000000000 ∅)))
  = requests (freshWorld 1700000000000 ∅)
    ++ [mkRequest (getApiUrl None) "getResults" (Some (String_of (Some (JNum 7))))]
  /\ fetchResultsInternal emptyNetwork (Some (JStr "7")) (Some (JStr "gem"))
       (elapse 5000
          (snd (fetchResultsInternal sampleNetwork (Some (JNum 7)) None
                  (freshWorld 1700000000000 ∅))))
     = (Returns [ [("school", JStr "S"); ("award", JStr "ชนะเลิศ")] ],
        elapse 5000
          (snd (fetchResultsInternal sampleNetwork (Some (JNum 7)) None
                  (freshWorld 1700000000000 ∅)))).
Proof.
  apply (fetchResultsInternal_memoizes sampleNetwork emptyNetwork
           (Some (JNum 7)) (Some (JStr "7")) None (Some (JStr "gem"))).
  - vm_compute. reflexivity.
  - vm_compute. reflexivity.
  - vm_compute. reflexivity.
  - vm_compute. reflexivity.
Defined.

(** X3.  A failed fetch of results is not cached: the error carries the id
    and the message of the underlying failure, exactly one request was sent,
    no entry is left under the key, and the next call sends a request
    again. *)
Theorem fetchResultsInternal_failure_not_cached (net net' : Network)
  (id category category' : option jsval) (e : Error) (w w1 : World) :
  fetchResultsInternal net id category w = (Throws e, w1) ->
  (exists cause,
      jsonpCompletion net
        (mkRequest (getApiUrl category) "getResults" (Some (String_of id)))
      = Throws cause
      /\ message e = "ไม่สามารถโหลดผลการแข่งขัน " +:+ String_of id
                     +:+ " ได้: " +:+ message cause)
  /\ requests w1
     = requests w ++ [mkRequest (getApiUrl category) "getResults" (Some (String_of id))]
  /\ ds_cache (dataService w1) !! ("results_" +:+ String_of id) = None
  /\ requests (snd (fetchResultsInternal net' id category' w1))
     = requests w1
       ++ [mkRequest (getApiUrl category') "getResults" (Some (String_of id))].
Proof.
  intros Hfetch.
  destruct (getFromCache ("results_" +:+ String_of id) w) as [[[d|]|e0] w0] eqn:Hget.
  - unfold fetchResultsInternal, mbind, M_bind in Hfetch.
    rewrite Hget in Hfetch. discriminate.
  - destruct (getFromCache_miss_world _ _ _ _ Hget eq_refl) as (Hnone & Hreq & _).
    rewrite (fetchResultsInternal_miss _ _ _ _ _ Hget) in Hfetch.
    rewrite simpleJSONP_spec in Hfetch. cbn [snd] in Hfetch.
    destruct (jsonpCompletion net _) as [r|cause]; [discriminate|].
    injection Hfetch as <- <-.
    split; [by exists cause|].
    split; [cbn; by rewrite Hreq|].
    split; [exact Hnone|].
    set (w1 := set_clock _ _).
    assert (getFromCache ("results_" +:+ String_of id) w1 = (Returns None, w1)) as Hget1.
    { unfold getFromCache. change (dataService w1) with (dataService w0).
      by rewrite Hnone. }
    rewrite (fetchResultsInternal_miss _ _ _ _ _ Hget1).
    rewrite simpleJSONP_spec. cbn [snd].
    destruct (jsonpCompletion net' _); reflexivity.
  - unfold getFromCache in Hget.
    destruct (ds_cache (dataService w) !! _); [destruct (_ <? _)|]; discriminate.
Qed.

Lemma fetchResultsInternal_failure_not_cached_witness :
  ds_cache (dataService
              (snd (fetchResultsInternal sampleNetwork (Some (JStr "g1")) None
                      (freshWorld 1700000000000 ∅))))
    !! ("results_" +:+ String_of (Some (JStr "g1"))) = None.
Proof.
  apply (fetchResultsInternal_failure_not_cached sampleNetwork sampleNetwork
           (Some (JStr "g1")) None None
           (mkError ("ไม่สามารถโหลดผลการแข่งขัน g1 ได้: " +:+ ERR_NETWORK))
           (freshWorld 1700000000000 ∅)).
  vm_compute. reflexivity.
Defined.

Lemma getFromCache_requests (key : string) (w : World) :
  requests (snd (getFromCache key w)) = requests w
  /\ exists r, fst (getFromCache key w) = Returns r.
Proof.
  unfold getFromCache.
  destruct (ds_cache (dataService w) !! key) as [cached|];
    [destruct (_ <? _)|]; cbn; eauto.
Qed.

Lemma fetchResultsInternal_requests (net : Network) (id category : option jsval)
  (w : World) :
  requests (snd (fetchResultsInternal net id category w)) = requests w
  \/ requests (snd (fetchResultsInternal net id category w))
     = requests w
       ++ [mkRequest (getApiUrl category) "getResults" (Some (String_of id))].
Proof.
  destruct (getFromCache_requests ("results_" +:+ String_of id) w) as [Hreq [r Hr]].
  destruct (getFromCache ("results_" +:+ String_of id) w) as [r0 w0] eqn:Hget.
  cbn [fst snd] in *. subst r0. destruct r as [d|].
  - left. unfold fetchResultsInternal, mbind, M_bind. rewrite Hget. exact Hreq.
  - right. rewrite (fetchResultsInternal_miss _ _ _ _ _ Hget).
    rewrite simpleJSONP_spec. cbn [snd].
    destruct (jsonpCompletion net _); cbn; by rewrite Hreq.
Qed.

Lemma fetchResults_requests (net : Network) (id category : option jsval)
  (w : World) :
  requests (snd (fetchResults net id category w)) = requests w
  \/ requests (snd (fetchResults net id category w))
     = requests w
       ++ [mkRequest (getApiUrl category) "getResults" (Some (String_of id))].
Proof.
  unfold fetchResults, mbind, M_bind, gets.
  destruct (truthy id); cbn; [|by left].
  destruct (map_get (gc_results (GLOBAL_CACHE w)) id); [by left|].
  replace (getApiUrl category)
    with (getApiUrl (match category with
                     | None => Some (JStr "science")
                     | Some _ => category
                     end)) by (by destruct category).
  apply fetchResultsInternal_requests.
Qed.

(** X4.  [fetchResults] rejects a falsy id (undefined, null, the empty
    string, 0) before any lookup; an id that has an entry in the preloaded
    snapshot is served from it without a request and without a change of
    state, whatever the age of the snapshot; in every case at most one
    request is sent, and it goes to the endpoint of the category, science
    when none is given. *)
Theorem fetchResults_cases (net : Network) (id category : option jsval) (w : World) :
  (truthy id = false ->
   fetchResults net id category w
   = (Throws (mkError "Competition ID is required"), w))
  /\ (truthy id = true ->
      forall results,
        map_get (gc_results (GLOBAL_CACHE w)) id = Some results ->
        fetchResults net id category w = (Returns results, w))
  /\ (requests (snd (fetchResults net id category w)) = requests w
      \/ requests (snd (fetchResults net id category w))
         = requests w
           ++ [mkRequest (getApiUrl category) "getResults" (Some (String_of id))]).
Proof.
  split; [|split].
  - unfold fetchResults. intros ->. reflexivity.
  - unfold fetchResults, mbind, M_bind, gets.
    intros -> results Hhit. cbn. rewrite Hhit. reflexivity.
  - apply fetchResults_requests.
Qed.

Lemma fetchResults_cases_witness :
  fetchResults sampleNetwork (Some (JNum 0)) None
    (set_GLOBAL_CACHE (mkGlobalCache None [(Some (JNum 0), [])] None true)
       (freshWorld 1700000000000 ∅))
  = (Throws (mkError "Competition ID is required"),
     set_GLOBAL_CACHE (mkGlobalCache None [(Some (JNum 0), [])] None true)
       (freshWorld 1700000000000 ∅)).
Proof.
  apply (fetchResults_cases sampleNetwork (Some (JNum 0)) None).
  vm_compute. reflexivity.
Defined.

(** ** Restoring from localStorage *)

(** X5.  [loadFromLocalStorage] never throws.  It returns [true] exactly
    when the stored document parses, the stored version tag is the
    application's, and the document carries a timestamp that is set and at
    most one TTL old; the snapshot then holds the document's catalogue and
    results and is marked loaded.  In every other case (no document, text
    that does not parse, another version, no timestamp, too old) it returns
    [false] and changes nothing. *)
Theorem loadFromLocalStorage_accepts (w : World) :
  (exists d t,
      restorable w d t
      /\ loadFromLocalStorage w
         = (Returns true,
            set_GLOBAL_CACHE
              (mkGlobalCache (cd_competitions d) (Map_of_entries (cd_results d))
                 (Some t) true) w))
  \/ ((forall d t, ~ restorable w d t)
      /\ loadFromLocalStorage w = (Returns false, w)).
Proof.
  unfold restorable.
  unfold loadFromLocalStorage, try_catch, mbind, M_bind, gets.
  destruct (localStorage w !! PERSIST_KEY) as [[d|s]|] eqn:Ed.
  - destruct (localStorage w !! VERSION_KEY) as [[dv|v]|] eqn:Ev;
      cbn [item_missing version_differs orb].
    + right. split; [|done]. intros d' t' (_ & Hv & _). discriminate.
    + destruct (String.eqb v APP_VERSION) eqn:Eq; cbn [negb].
      * apply String.eqb_eq in Eq. subst v.
        destruct (truthy (jsnum_of (cd_lastUpdated d))) eqn:Et; cbn [negb orb].
        -- apply truthy_jsnum_of in Et as (t & Ht & Ht0).
           destruct (CACHE_TIMEOUT <? elapsed_since (clock w) (cd_lastUpdated d)) eqn:El.
           ++ right. split; [|done].
              intros d' t' ([= <-] & _ & Ht' & _ & Hage).
              rewrite Ht' in El. unfold elapsed_since in El. cbn in El. lia.
           ++ left. exists d, t. rewrite Ht in *.
              unfold elapsed_since in El. cbn in El.
              split; [|done].
              split; [done|]. split; [done|]. split; [done|]. split; [done|]. lia.
        -- right. split; [|done].
           intros d' t' ([= <-] & _ & Ht' & Ht0 & _).
           assert (truthy (jsnum_of (cd_lastUpdated d)) = true) as Hc
             by (apply truthy_jsnum_of; eauto).
           congruence.
      * right. split; [|done]. intros d' t' (_ & [= Hv] & _).
        subst v. by rewrite String.eqb_refl in Eq.
    + right. split; [|done]. intros d' t' (_ & Hv & _). discriminate.
  - right. split.
    + intros d' t' (Hd & _). discriminate.
    + destruct s; cbn [item_missing orb]; [done|].
      destruct (version_differs _); done.
  - right. split; [|done]. intros d' t' (Hd & _). discriminate.
Qed.

(** X6.  The two age tests disagree at the boundary: a stored document
    that is exactly one TTL old is restored by [loadFromLocalStorage], and
    the snapshot it has just restored is not valid for [isCacheReady]. *)
Theorem restored_at_ttl_not_ready (w : World) (d : CacheData) (t : Z) :
  restorable w d t ->
  clock w - t = CACHE_TIMEOUT ->
  exists w1,
    loadFromLocalStorage w = (Returns true, w1)
    /\ gc_isLoaded (GLOBAL_CACHE w1) = true
    /\ isCacheReady w1 = (Returns false, w1).
Proof.
  intros (Hd & Hv & Ht & Ht0 & Hage) Hexact.
  rewrite (loadFromLocalStorage_hit w d t Hd Hv Ht Ht0 Hage).
  eexists. split; [reflexivity|]. split; [reflexivity|].
  unfold isCacheReady, gets. cbn [GLOBAL_CACHE set_GLOBAL_CACHE clock gc_isLoaded andb].
  f_equal. f_equal.
  match goal with |- ?b = false => destruct b eqn:E end; [|reflexivity].
  apply isCacheValid_truthy, isCacheValid_true in E as (_ & _ & Hlt).
  unfold elapsed_since in Hlt. cbn in Hlt. lia.
Qed.

Lemma restored_at_ttl_not_ready_witness :
  exists w1,
    loadFromLocalStorage
      (freshWorld 1700003600000
         (<[VERSION_KEY := Text APP_VERSION]>
            (<[PERSIST_KEY :=
                 Json (mkCacheData None [] (Some 1700000000000) APP_VERSION)]> ∅)))
    = (Returns true, w1)
    /\ gc_isLoaded (GLOBAL_CACHE w1) = true
    /\ isCacheReady w1 = (Returns false, w1).
Proof.
  apply (restored_at_ttl_not_ready _
           (mkCacheData None [] (Some 1700000000000) APP_VERSION) 1700000000000).
  - unfold restorable.
    split; [vm_compute; reflexivity|].
    split; [vm_compute; reflexivity|].
    split; [reflexivity|].
    split; [lia|].
    vm_compute. discriminate.
  - vm_compute. reflexivity.
Defined.
(** ** Initialization, refresh and reload *)

(** X7.  Whenever [initialize] succeeds, whether it adopted a valid
    snapshot, restored one from localStorage, preloaded, or fell back to
    loading the catalogue alone, the manager ends initialized and not
    loading, and its three collections are the processed science list, the
    processed gem list and the first followed by the second, all of one
    catalogue, whose error slots it reports; no request is ever withdrawn
    from the log. *)
Theorem initialize_establishes_catalogue (net : Network) (w w1 : World) :
  initialize net w = (Returns tt, w1) ->
  exists c sent,
    holds c w1
    /\ elements (store w1) (m_all (manager w1))
       = elements (store w1) (m_science (manager w1))
         ++ elements (store w1) (m_gem (manager w1))
    /\ m_errors (manager w1) = fc_errors c
    /\ m_isInitialized (manager w1) = true
    /\ m_isLoading (manager w1) = false
    /\ requests w1 = requests w ++ sent.
Proof.
  intros Hinit.
  destruct (initialize_cases net w)
    as (r & sent & w' & Hi & Hreq & Hload & _ & Hcase).
  rewrite Hinit in Hi. injection Hi as <- <-.
  destruct Hcase as [(c & _ & Hh & Hinitd & _)
                    |[(? & _)|[(? & ? & _)|(? & _)]]]; try discriminate.
  exists c, sent.
  split; [exact Hh|].
  destruct Hh as (science & gem & _ & _ & Hint & Herr & _).
  unfold internalCollections in Hint. injection Hint as Hs Hg Ha.
  rewrite Ha, Hs, Hg. done.
Qed.

Lemma initialize_establishes_catalogue_witness :
  exists c sent,
    holds c (snd (initialize scienceDown (freshWorld 1700000000000 ∅)))
    /\ elements (store (snd (initialize scienceDown (freshWorld 1700000000000 ∅))))
         (m_all (manager (snd (initialize scienceDown (freshWorld 1700000000000 ∅)))))
       = elements (store (snd (initialize scienceDown (freshWorld 1700000000000 ∅))))
           (m_science (manager (snd (initialize scienceDown (freshWorld 1700000000000 ∅)))))
         ++ elements (store (snd (initialize scienceDown (freshWorld 1700000000000 ∅))))
              (m_gem (manager (snd (initialize scienceDown (freshWorld 1700000000000 ∅)))))
    /\ m_errors (manager (snd (initialize scienceDown (freshWorld 1700000000000 ∅))))
       = fc_errors c
    /\ m_isInitialized (manager (snd (initialize scienceDown (freshWorld 1700000000000 ∅))))
       = true
    /\ m_isLoading (manager (snd (initialize scienceDown (freshWorld 1700000000000 ∅))))
       = false
    /\ requests (snd (initialize scienceDown (freshWorld 1700000000000 ∅)))
       = requests (freshWorld 1700000000000 ∅) ++ sent.
Proof.
  apply (initialize_establishes_catalogue scienceDown (freshWorld 1700000000000 ∅)).
  vm_compute. reflexivity.
Defined.



(** A record with an own property named [hasOwnProperty] at an endpoint
    makes [initialize] fail on a fresh page, after six requests (the two
    catalogues, the results of the two competitions, the two catalogues
    again) and with the snapshot written; the next call, made within the
    TTL, fails as well, on the snapshot and without a request. *)
Lemma shadowing_record_breaks_initialize :
  fst (initialize shadowingNetwork (freshWorld 1700000000000 ∅))
  = Throws (mkError ERR_API_ERROR)
  /\ length (requests (snd (initialize shadowingNetwork
                               (freshWorld 1700000000000 ∅)))) = 6%nat
  /\ gc_isLoaded
       (GLOBAL_CACHE (snd (initialize shadowingNetwork (freshWorld 1700000000000 ∅))))
     = true
  /\ fst (initialize shadowingNetwork
            (snd (initialize shadowingNetwork (freshWorld 1700000000000 ∅))))
     = Throws (mkError ERR_NOT_A_FUNCTION)
  /\ length (requests
               (snd (initialize shadowingNetwork
                       (snd (initialize shadowingNetwork
                               (freshWorld 1700000000000 ∅)))))) = 6%nat.
Proof. repeat split; vm_compute; reflexivity. Qed.







(** X11.  The snapshot persisted by a preload serves the next page: on a
    freshly loaded page (nothing in memory) whose clock is within one TTL
    of the preload, [initialize] restores the snapshot from localStorage
    and sends no request at all, whatever the network.  When the catalogue
    the preload had fetched is sound, the call succeeds and the manager
    holds that catalogue; when one of its records has an own property
    named [hasOwnProperty], the call fails with the [TypeError] of
    [validateCompetition], still without a request. *)
Theorem preloaded_snapshot_serves_next_page (net net2 : Network) (w : World)
  (now2 : Z) :
  ds_isPreloading (dataService w) = false ->
  storageWritable w = true ->
  0 < clock w ->
  fc_science (offered net) ++ fc_gem (offered net) <> [] ->
  now2 - clock (snd (DataService_preloadAllData net w)) <= CACHE_TIMEOUT ->
  exists r w2,
    initialize net2
      (freshWorld now2 (localStorage (snd (DataService_preloadAllData net w))))
    = (r, w2)
    /\ requests w2 = []
    /\ gc_lastUpdated (GLOBAL_CACHE w2)
       = Some (clock (snd (DataService_preloadAllData net w)))
    /\ m_isLoading (manager w2) = false
    /\ (sound (offered net) = true ->
        r = Returns tt
        /\ m_isInitialized (manager w2) = true
        /\ exists science gem,
             processCompetitions (fc_science (offered net)) "science"
             = Returns science
             /\ processCompetitions (fc_gem (offered net)) "gem" = Returns gem
             /\ internalCollections w2 = (science, gem, science ++ gem))
    /\ (sound (offered net) = false ->
        r = Throws (mkError ERR_NOT_A_FUNCTION)
        /\ m_isInitialized (manager w2) = false).
Proof.
  intros Hpre Hw Hclock Hne Hage.
  destruct (DataService_preloadAllData_spec net w Hpre)
    as (competitions & w0 & Hf & Hs0 & Hcase).
  destruct (fetchAllCompetitions_spec net (set_isPreloading true w))
    as (t & Hf' & _).
  rewrite Hf in Hf'. injection Hf' as Hc _.
  subst competitions.
  destruct Hcase as [(Es & Eg & _)|(_ & allResults & reports & w1 & _ & Hs1 & Hd)].
  { rewrite Es, Eg in Hne. done. }
  rewrite Hd in *. cbn [snd] in *. clear Hd.
  rewrite saveToLocalStorage_spec in *. cbn [snd] in *.
  destruct Hs0 as (_ & _ & Hw0 & _ & _ & _ & Hc0).
  destruct Hs1 as (_ & _ & Hw1 & _ & _ & _ & Hc1).
  cbn in Hw0, Hc0.
  assert (storageWritable w1 = true) as Hw1' by congruence.
  cbn [storageWritable set_GLOBAL_CACHE] in *. rewrite Hw1' in *.
  cbn [localStorage set_isPreloading set_dataService set_localStorage clock] in *.
  set (ls := <[VERSION_KEY := _]> _) in *.
  set (d := mkCacheData (json_competitions <$> Some (offered net))
              (Object_fromEntries allResults) (Some (clock w1)) APP_VERSION).
  assert (ls !! PERSIST_KEY = Some (Json d)) as Hp.
  { unfold ls. rewrite lookup_insert_ne by done. by rewrite lookup_insert_eq. }
  assert (ls !! VERSION_KEY = Some (Text APP_VERSION)) as Hv.
  { unfold ls. by rewrite lookup_insert_eq. }
  change (now2 - clock w1 <= CACHE_TIMEOUT) in Hage.
  set (page := freshWorld now2 ls).
  unfold initialize, finally, try_catch, mbind, M_bind, modify, isCacheReady, gets.
  cbn [GLOBAL_CACHE set_isLoading set_manager clock].
  change (gc_isLoaded (GLOBAL_CACHE page)) with false. cbn [andb].
  rewrite (loadFromLocalStorage_hit (set_isLoading true page) d (clock w1)
             Hp Hv eq_refl) by (cbn; lia).
  match goal with |- context [loadFromGlobalCache ?x] => set (wr := x) end.
  destruct (loadFromGlobalCache_outcome wr eq_refl)
    as (r & w3 & -> & Hr & _ & Hi & Hg & _ & _ & _ & Hcase).
  assert (sound (json_competitions (offered net)) = sound (offered net)) as Hsj
    by done.
  destruct Hcase as [(c & Hc & Hs & -> & Hh)
                    |[(Hc & _)|(c & Hc & Hs & -> & _)]]; [|discriminate Hc|];
    injection Hc as <-; rewrite Hsj in Hs.
  - eexists _, _. split; [reflexivity|].
    cbn. split; [exact Hr|]. rewrite Hg. split; [done|]. split; [done|].
    split; [|congruence]. intros _. split; [done|]. split; [done|].
    destruct Hh as (science & gem & Hps & Hpg & Hint & _).
    exists science, gem. done.
  - eexists _, _. split; [reflexivity|].
    cbn. split; [exact Hr|]. rewrite Hg. split; [done|]. split; [done|].
    split; [congruence|]. intros _. split; [done|]. by rewrite Hi.
Qed.

Lemma preloaded_snapshot_serves_next_page_witness :
  exists r w2,
    initialize emptyNetwork
      (freshWorld 1700000600000
         (localStorage
            (snd (DataService_preloadAllData sampleNetwork
                    (freshWorld 1700000000000 ∅)))))
    = (r, w2)
    /\ requests w2 = []
    /\ (sound (offered sampleNetwork) = true -> r = Returns tt).
Proof.
  destruct (preloaded_snapshot_serves_next_page sampleNetwork emptyNetwork
              (freshWorld 1700000000000 ∅) 1700000600000)
    as (r & w2 & H1 & H2 & _ & _ & H3 & _).
  - vm_compute. reflexivity.
  - vm_compute. reflexivity.
  - vm_compute. reflexivity.
  - vm_compute. discriminate.
  - vm_compute. discriminate.
  - exists r, w2. split; [exact H1|]. split; [exact H2|].
    intros Hs. exact (proj1 (H3 Hs)).
Defined.


(** ** Strings *)

Lemma append_cons (a : ascii) (s t : string) :
  String a s +:+ t = String a (s +:+ t).
Proof. reflexivity. Qed.

Lemma append_nil_r (s : string) : s +:+ "" = s.
Proof.
  induction s as [|a s IH]; [reflexivity|]. by rewrite append_cons, IH.
Qed.

Lemma append_assoc (s t u : string) : (s +:+ t) +:+ u = s +:+ (t +:+ u).
Proof.
  induction s as [|a s IH]; [reflexivity|]. by rewrite !append_cons, IH.
Qed.

Lemma rev_app_append (s t : string) : String.rev_app s t = String.rev s +:+ t.
Proof.
  unfold String.rev. revert t.
  induction s as [|a s IH]; intros t; [reflexivity|].
  change (String.rev_app s (String a t) = String.rev_app s (String a "") +:+ t).
  rewrite IH, (IH (String a "")), append_assoc. reflexivity.
Qed.

Lemma rev_app_rev_app (s a b : string) :
  String.rev_app (String.rev_app s a) b = String.rev_app a (s +:+ b).
Proof.
  revert a b. induction s as [|c s IH]; intros a b; [reflexivity|].
  change (String.rev_app (String.rev_app s (String c a)) b
          = String.rev_app (String c a) (s +:+ b)).
  apply IH.
Qed.

Lemma rev_involutive (s : string) : String.rev (String.rev s) = s.
Proof. unfold String.rev. rewrite rev_app_rev_app. exact (append_nil_r s). Qed.

Lemma rev_append (s t : string) :
  String.rev (s +:+ t) = String.rev t +:+ String.rev s.
Proof.
  assert (forall acc, String.rev_app (s +:+ t) acc
                      = String.rev_app t (String.rev_app s acc)) as H.
  { induction s as [|a s IH]; intros acc; [reflexivity|].
    change (String.rev_app (s +:+ t) (String a acc)
            = String.rev_app t (String.rev_app s (String a acc))).
    apply IH. }
  unfold String.rev at 1. rewrite H. apply rev_app_append.
Qed.

Lemma headClean_stable (back : bool) (s : string) :
  headClean back s -> stripWs back s = s.
Proof.
  destruct s as [|c [|c1 [|c2 r2]]]; cbn; [done|..].
  - by intros [-> _].
  - by intros (-> & -> & _).
  - by intros (-> & -> & ->).
Qed.

Lemma headClean_prefix (back : bool) (p t : string) :
  headClean back (p +:+ t) -> headClean back p.
Proof.
  destruct p as [|c [|c1 [|c2 r2]]]; rewrite ?append_cons;
    change ("" +:+ t) with t; cbn [headClean]; [done|..].
  - by intros [-> _].
  - by intros (-> & -> & _).
  - by intros (-> & -> & ->).
Qed.

(** What [stripWs] returns is a part of its argument with nothing left to
    strip. *)
Lemma stripWs_spec (back : bool) (s : string) :
  headClean back (stripWs back s) /\ exists p, s = p +:+ stripWs back s.
Proof.
  remember (String.length s) as n eqn:Hn.
  revert s Hn. induction (lt_wf n) as [n _ IH]. intros s ->.
  destruct s as [|c r]; [split; [done | by exists ""]|].
  cbn [stripWs]. destruct (ascii_ws c) eqn:Ec.
  { destruct (IH (String.length r) ltac:(cbn; lia) r eq_refl) as [H [p Hp]].
    split; [done|]. exists (String c p). by rewrite append_cons, <- Hp. }
  destruct r as [|c1 r1]; [split; [by cbn; rewrite Ec | by exists ""]|].
  destruct (if back then ws2 c1 c else ws2 c c1) eqn:E2.
  { destruct (IH (String.length r1) ltac:(cbn; lia) r1 eq_refl) as [H [p Hp]].
    split; [done|]. exists (String c (String c1 p)).
    by rewrite !append_cons, <- Hp. }
  destruct r1 as [|c2 r2]; [split; [by cbn; rewrite Ec, E2 | by exists ""]|].
  destruct (if back then ws3 c2 c1 c else ws3 c c1 c2) eqn:E3.
  { destruct (IH (String.length r2) ltac:(cbn; lia) r2 eq_refl) as [H [p Hp]].
    split; [done|]. exists (String c (String c1 (String c2 p))).
    by rewrite !append_cons, <- Hp. }
  split; [by cbn; rewrite Ec, E2, E3 | by exists ""].
Qed.

(** [trim] cuts a piece out of its argument. *)
Lemma trim_substring (s : string) : exists p q, s = p +:+ trim s +:+ q.
Proof.
  unfold trim.
  destruct (stripWs_spec false s) as [_ [p Hp]].
  destruct (stripWs_spec true (String.rev (stripWs false s))) as [_ [q Hq]].
  exists p, (String.rev q).
  rewrite <- rev_append, <- Hq, rev_involutive. exact Hp.
Qed.

Lemma trim_idempotent (s : string) : trim (trim s) = trim s.
Proof.
  unfold trim.
  destruct (stripWs_spec false s) as [Hu _].
  destruct (stripWs_spec true (String.rev (stripWs false s))) as [Hv [q Hq]].
  set (u := stripWs false s) in *.
  set (v := stripWs true (String.rev u)) in *.
  assert (headClean false (String.rev v)) as Hrv.
  { apply (headClean_prefix false _ (String.rev q)).
    rewrite <- rev_append, <- Hq, rev_involutive. exact Hu. }
  rewrite (headClean_stable false _ Hrv), rev_involutive.
  by rewrite (headClean_stable true v Hv).
Qed.

Lemma prefix_append (x q : string) : String.prefix x (x +:+ q) = true.
Proof.
  induction x as [|a x IH]; [by destruct q|].
  rewrite append_cons. cbn [String.prefix].
  destruct (Ascii.ascii_dec a a); [exact IH | done].
Qed.

Lemma includes_prefix (s sub : string) :
  String.prefix sub s = true -> includes s sub = true.
Proof. intros H. destruct s; cbn [includes]; rewrite H; done. Qed.

Lemma includes_append_l (p s sub : string) :
  includes s sub = true -> includes (p +:+ s) sub = true.
Proof.
  intros H. induction p as [|a p IH]; [done|].
  rewrite append_cons. cbn [includes]. rewrite IH. apply orb_true_r.
Qed.

Lemma includes_part (p x q : string) : includes (p +:+ x +:+ q) x = true.
Proof. apply includes_append_l, includes_prefix, prefix_append. Qed.

Lemma includes_trimmed (s : string) : includes s (trim s) = true.
Proof.
  destruct (trim_substring s) as (p & q & H).
  rewrite H at 1. apply includes_part.
Qed.

Lemma toLowerCase_append (s t : string) :
  toLowerCase (s +:+ t) = toLowerCase s +:+ toLowerCase t.
Proof.
  induction s as [|a s IH]; [reflexivity|].
  rewrite append_cons. cbn [toLowerCase]. by rewrite IH, append_cons.
Qed.

Lemma lower_upper_ascii (c : ascii) : lower_ascii (upper_ascii c) = lower_ascii c.
Proof. destruct c as [[|] [|] [|] [|] [|] [|] [|] [|]]; reflexivity. Qed.

Lemma toLowerCase_toUpperCase (s : string) :
  toLowerCase (toUpperCase s) = toLowerCase s.
Proof.
  induction s as [|a s IH]; cbn; [done|].
  by rewrite lower_upper_ascii, IH.
Qed.

(** ** The processed catalogue *)

Lemma normalizeCompetition_indexed (r : RawRecord) (idx : Z) (category : string) :
  comp_id (normalizeCompetition (obj_set r "__orderIndex" (JNum idx)) category)
  = trim (String_of (obj_get r "id"))
  /\ comp_name (normalizeCompetition (obj_set r "__orderIndex" (JNum idx)) category)
     = trim (String_of (obj_get r "name"))
  /\ comp_orderIndex
       (normalizeCompetition (obj_set r "__orderIndex" (JNum idx)) category)
     = Some idx
  /\ (category <> "" ->
      comp_category
        (normalizeCompetition (obj_set r "__orderIndex" (JNum idx)) category)
      = category).
Proof.
  unfold normalizeCompetition.
  cbn [comp_id comp_name comp_orderIndex comp_category].
  rewrite !obj_get_set.
  split; [reflexivity|]. split; [reflexivity|]. split; [reflexivity|].
  intros Hne. apply String.eqb_neq in Hne. by rewrite Hne.
Qed.

(** X12.  The competition at position [i] of a processed list comes from
    the [i]-th valid raw record: its order index is [i], whatever
    [__orderIndex] the record carried; its id and name are the record's,
    trimmed, so trimming them again changes nothing; and its category is
    the one the list was processed for. *)
Theorem processCompetitions_positions (rawCompetitions : list RawRecord)
  (category : string) (items : list Competition) (i : nat) (x : Competition) :
  processCompetitions rawCompetitions category = Returns items ->
  items !! i = Some x ->
  exists valid r,
    Array_filter validateCompetition rawCompetitions = Returns valid
    /\ valid !! i = Some r
    /\ validateCompetition r = Returns true
    /\ comp_orderIndex x = Some (Z.of_nat i)
    /\ comp_id x = trim (String_of (obj_get r "id"))
    /\ comp_name x = trim (String_of (obj_get r "name"))
    /\ trim (comp_id x) = comp_id x
    /\ trim (comp_name x) = comp_name x
    /\ (category <> "" -> comp_category x = category).
Proof.
  unfold processCompetitions.
  destruct (Array_filter validateCompetition rawCompetitions) as [valid|e] eqn:Ev;
    [|done].
  cbn [mbind Completion_bind]. intros [= <-]. rewrite list_lookup_imap.
  intros H. apply fmap_Some in H as (r & Hr & ->).
  destruct (normalizeCompetition_indexed r (Z.of_nat i) category)
    as (Hid & Hname & Hidx & Hcat).
  exists valid, r. rewrite Hid, Hname, !trim_idempotent.
  split; [done|]. split; [done|]. split; [|done].
  rewrite Array_filter_validateCompetition in Ev.
  destruct (forallb _ rawCompetitions) eqn:Ef; [|done]. injection Ev as <-.
  assert (r ∈ List.filter complete rawCompetitions) as Hin
    by (apply list_elem_of_lookup; eauto).
  apply list_elem_of_In, filter_In in Hin as [Hin Hc].
  rewrite forallb_forall in Ef. apply Ef, negb_true_iff in Hin.
  by rewrite validateCompetition_cases, Hin, Hc.
Qed.

Lemma processCompetitions_positions_witness :
  exists valid r,
    Array_filter validateCompetition
      [ [("id", JStr "a"); ("name", JStr "")];
        [("id", JStr " b "); ("name", JStr "B"); ("__orderIndex", JNum 9)] ]
    = Returns valid
    /\ valid !! 0%nat = Some r
    /\ comp_orderIndex
         (normalizeCompetition
            [("id", JStr " b "); ("name", JStr "B"); ("__orderIndex", JNum 0)] "gem")
       = Some (Z.of_nat 0)
    /\ comp_id
         (normalizeCompetition
            [("id", JStr " b "); ("name", JStr "B"); ("__orderIndex", JNum 0)] "gem")
       = trim (String_of (obj_get r "id")).
Proof.
  destruct (processCompetitions_positions
              [ [("id", JStr "a"); ("name", JStr "")];
                [("id", JStr " b "); ("name", JStr "B"); ("__orderIndex", JNum 9)] ]
              "gem"
              [normalizeCompetition
                 [("id", JStr " b "); ("name", JStr "B"); ("__orderIndex", JNum 0)]
                 "gem"]
              0
              (normalizeCompetition
                 [("id", JStr " b "); ("name", JStr "B"); ("__orderIndex", JNum 0)]
                 "gem"))
    as (valid & r & H0 & H1 & _ & H2 & H3 & _).
  - vm_compute. reflexivity.
  - reflexivity.
  - exists valid, r. split; [exact H0|]. split; [exact H1|].
    split; [exact H2 | exact H3].
Defined.

Lemma processCompetitions_elem (raws : list RawRecord) (category : string)
  (items : list Competition) (x : Competition) :
  processCompetitions raws category = Returns items ->
  x ∈ items ->
  trim (comp_id x) = comp_id x
  /\ (category <> "" -> comp_category x = category).
Proof.
  rewrite processCompetitions_cases. destruct (forallb _ raws); [|done].
  intros [= <-] [i Hi]%list_elem_of_lookup.
  rewrite list_lookup_imap in Hi.
  apply fmap_Some in Hi as (r & Hr & ->).
  destruct (normalizeCompetition_indexed r (Z.of_nat i) category)
    as (Hid & _ & _ & Hcat).
  rewrite Hid, trim_idempotent. done.
Qed.

Lemma alloc_elements (a : list Competition) (w : World) :
  exists r w1,
    alloc a w = (Returns r, w1)
    /\ elements (store w1) r = a
    /\ w1 = set_store (store w ++ [a]) w.
Proof.
  exists (length (store w)), (set_store (store w ++ [a]) w).
  split; [apply alloc_spec|]. split; [|done].
  cbn. apply elements_app_new.
Qed.

Lemma getCompetitionsByCategory_gem (category : string) (w : World) :
  category <> "" ->
  trim (toLowerCase category) = "academic" \/ trim (toLowerCase category) = "gem" ->
  getCompetitionsByCategory category w
  = alloc (elements (store w) (m_gem (manager w))) w.
Proof.
  intros Hne%String.eqb_neq Hn. unfold getCompetitionsByCategory.
  rewrite Hne. unfold mbind, M_bind, gets.
  destruct Hn as [-> | ->]; reflexivity.
Qed.

Lemma getCompetitionsByCategory_science (w : World) :
  getCompetitionsByCategory "science" w
  = alloc (elements (store w) (m_science (manager w))) w.
Proof. reflexivity. Qed.

(** X13.  While the manager holds a catalogue, the full listing is the
    science listing followed by the gem listing, every competition of the
    science listing has category science and every one of the gem listing
    has category gem, and asking for the category academic, in any ASCII
    letter case and with surrounding blanks, gives the gem listing. *)
Theorem listing_is_science_then_gem (c : FetchedCompetitions) (w : World)
  (category : string) :
  holds c w ->
  category <> "" ->
  trim (toLowerCase category) = "academic" ->
  exists rA wA rS wS rG wG rC wC,
    getAllCompetitions w = (Returns rA, wA)
    /\ getCompetitionsByCategory "science" w = (Returns rS, wS)
    /\ getCompetitionsByCategory "gem" w = (Returns rG, wG)
    /\ getCompetitionsByCategory category w = (Returns rC, wC)
    /\ elements (store wA) rA = elements (store wS) rS ++ elements (store wG) rG
    /\ Forall (fun x => comp_category x = "science") (elements (store wS) rS)
    /\ Forall (fun x => comp_category x = "gem") (elements (store wG) rG)
    /\ elements (store wC) rC = elements (store wG) rG.
Proof.
  intros (science & gem & Hps & Hpg & Hint & _) Hne Hac.
  unfold internalCollections in Hint. injection Hint as Hs Hg Ha.
  destruct (alloc_elements (elements (store w) (m_all (manager w))) w)
    as (rA & wA & HA & HeA & _).
  destruct (alloc_elements (elements (store w) (m_science (manager w))) w)
    as (rS & wS & HS & HeS & _).
  destruct (alloc_elements (elements (store w) (m_gem (manager w))) w)
    as (rG & wG & HG & HeG & _).
  exists rA, wA, rS, wS, rG, wG, rG, wG.
  split; [exact HA|].
  split; [by rewrite getCompetitionsByCategory_science|].
  split; [by rewrite getCompetitionsByCategory_gem by (done || by right)|].
  split; [by rewrite getCompetitionsByCategory_gem by (done || by left)|].
  rewrite HeA, HeS, HeG, Ha, Hs, Hg.
  split; [done|].
  split; [|split; [|done]]; apply Forall_forall; intros x Hx.
  - by apply (processCompetitions_elem _ _ _ _ Hps) in Hx as [_ ->].
  - by apply (processCompetitions_elem _ _ _ _ Hpg) in Hx as [_ ->].
Qed.

Lemma listing_is_science_then_gem_witness :
  exists rA wA rS wS rG wG rC wC,
    getAllCompetitions (snd (initialize scienceDown (freshWorld 1700000000000 ∅)))
    = (Returns rA, wA)
    /\ getCompetitionsByCategory "science"
         (snd (initialize scienceDown (freshWorld 1700000000000 ∅)))
       = (Returns rS, wS)
    /\ getCompetitionsByCategory "gem"
         (snd (initialize scienceDown (freshWorld 1700000000000 ∅)))
       = (Returns rG, wG)
    /\ getCompetitionsByCategory " Academic "
         (snd (initialize scienceDown (freshWorld 1700000000000 ∅)))
       = (Returns rC, wC)
    /\ elements (store wA) rA = elements (store wS) rS ++ elements (store wG) rG
    /\ Forall (fun x => comp_category x = "science") (elements (store wS) rS)
    /\ Forall (fun x => comp_category x = "gem") (elements (store wG) rG)
    /\ elements (store wC) rC = elements (store wG) rG.
Proof.
  apply (listing_is_science_then_gem
           (mkFetched []
              [ [("id", JStr "g1"); ("name", JStr "Essay"); ("category", JStr "gem")] ]
              (mkErrors (SlotError (mkError ERR_SCIENCE_LOAD_FAILED)) SlotNull))).
  - eexists _, _.
    split; [vm_compute; reflexivity|]. split; [vm_compute; reflexivity|].
    split; [vm_compute; reflexivity|]. split; [vm_compute; reflexivity|].
    unfold manager_wf. vm_compute. repeat split; repeat constructor.
  - discriminate.
  - vm_compute. reflexivity.
Defined.

Lemma find_first {A : Type} (f : A -> bool) (l : list A) (x : A) :
  x ∈ l -> f x = true ->
  exists y, List.find f l = Some y /\ f y = true /\ y ∈ l.
Proof.
  induction l as [|z l IH]; intros Hin Hx; [by apply elem_of_nil in Hin|].
  cbn. destruct (f z) eqn:Ez.
  - exists z. split; [done|]. split; [done|]. apply elem_of_cons. by left.
  - apply elem_of_cons in Hin as [->|Hin]; [congruence|].
    destruct (IH Hin Hx) as (y & Hy & Hfy & Hyl).
    exists y. split; [done|]. split; [done|]. apply elem_of_cons. by right.
Qed.

Lemma find_none {A : Type} (f : A -> bool) (l : list A) :
  (forall z, z ∈ l -> f z = false) -> List.find f l = None.
Proof.
  induction l as [|z l IH]; intros H; [done|].
  cbn. rewrite (H z) by (apply elem_of_cons; by left).
  apply IH. intros y Hy. apply H, elem_of_cons. by right.
Qed.

Lemma NoDup_map_eq {A B : Type} (f : A -> B) (l : list A) (x y : A) :
  NoDup (map f l) -> x ∈ l -> y ∈ l -> f x = f y -> x = y.
Proof.
  induction l as [|z l IH]; intros Hnd Hx Hy Hf; [by apply elem_of_nil in Hx|].
  cbn in Hnd. apply NoDup_cons in Hnd as [Hz Hnd].
  apply elem_of_cons in Hx as [->|Hx]; apply elem_of_cons in Hy as [->|Hy].
  - done.
  - exfalso. apply Hz. rewrite Hf. apply list_elem_of_fmap. eauto.
  - exfalso. apply Hz. rewrite <- Hf. apply list_elem_of_fmap. eauto.
  - by apply IH.
Qed.

(** X14.  While the manager holds a catalogue, every listed competition
    with a non-empty id can be looked up by that id: [getCompetitionById]
    returns a listed competition with the same id, the competition itself
    when the ids of the listing are distinct, and it leaves the state
    alone.  An id that no listed competition carries, once trimmed, gives
    [null]. *)
Theorem getCompetitionById_finds_listed (c : FetchedCompetitions) (w : World)
  (x : Competition) :
  holds c w ->
  x ∈ listed w ->
  comp_id x <> "" ->
  (exists y,
      getCompetitionById (comp_id x) w = (Returns (Some y), w)
      /\ comp_id y = comp_id x
      /\ y ∈ listed w
      /\ (NoDup (map comp_id (listed w)) -> y = x))
  /\ (forall competitionId,
        (forall z, z ∈ listed w -> comp_id z <> trim competitionId) ->
        getCompetitionById competitionId w = (Returns None, w)).
Proof.
  intros (science & gem & Hps & Hpg & Hint & _) Hx Hne. unfold listed in *.
  unfold internalCollections in Hint. injection Hint as _ _ Ha.
  assert (trim (comp_id x) = comp_id x) as Htrim.
  { rewrite Ha in Hx. apply elem_of_app in Hx as [Hx|Hx].
    - by apply (processCompetitions_elem _ _ _ _ Hps) in Hx as [? _].
    - by apply (processCompetitions_elem _ _ _ _ Hpg) in Hx as [? _]. }
  split.
  - unfold getCompetitionById, mbind, M_bind, gets, mret, M_ret.
    apply String.eqb_neq in Hne as Hne'. rewrite Hne', Htrim. cbn [id].
    destruct (find_first (fun comp => String.eqb (comp_id comp) (comp_id x)) _ x Hx)
      as (y & Hy & Hfy & Hyl); [apply String.eqb_refl|].
    apply String.eqb_eq in Hfy.
    exists y. rewrite Hy. split; [done|]. split; [done|]. split; [done|].
    intros Hnd. by eapply NoDup_map_eq.
  - intros competitionId Hnone.
    unfold getCompetitionById, mbind, M_bind, gets, mret, M_ret.
    destruct (String.eqb competitionId ""); [done|]. cbn [id].
    rewrite find_none; [done|].
    intros z Hz. apply String.eqb_neq. by apply Hnone.
Qed.

Lemma getCompetitionById_finds_listed_witness :
  exists y,
    getCompetitionById "g2"
      (snd (initialize sampleNetwork (freshWorld 1700000000000 ∅)))
    = (Returns (Some y), snd (initialize sampleNetwork (freshWorld 1700000000000 ∅)))
    /\ comp_id y = "g2".
Proof.
  destruct (getCompetitionById_finds_listed
              (mkFetched []
                 [ [("id", JStr "g1"); ("name", JStr "Essay")];
                   [("id", JStr "g2"); ("name", JStr "Drawing")];
                   [("id", JStr "g3"); ("name", JStr "")] ]
                 (mkErrors SlotNull SlotNull))
              (snd (initialize sampleNetwork (freshWorld 1700000000000 ∅)))
              (normalizeCompetition
                 [("id", JStr "g2"); ("name", JStr "Drawing");
                  ("__orderIndex", JNum 1)] "gem"))
    as [(y & H1 & H2 & _) _].
  - eexists _, _.
    split; [vm_compute; reflexivity|]. split; [vm_compute; reflexivity|].
    split; [vm_compute; reflexivity|]. split; [vm_compute; reflexivity|].
    unfold manager_wf. vm_compute. repeat split; repeat constructor.
  - apply list_elem_of_In. vm_compute. right. left. reflexivity.
  - vm_compute. discriminate.
  - exists y. split; [exact H1 | exact H2].
Defined.

(** ** Searching the listing *)

Lemma searchCompetitions_spec (query : string) (w : World) :
  exists r w1,
    searchCompetitions query "" w = (Returns r, w1)
    /\ elements (store w1) r
       = if String.eqb query "" || String.eqb (trim query) ""
         then listed w
         else List.filter
                (fun competition =>
                   includes (toLowerCase (comp_name competition))
                     (trim (toLowerCase query))
                   || includes (toLowerCase (comp_description competition))
                        (trim (toLowerCase query))
                   || includes (toLowerCase (comp_level competition))
                        (trim (toLowerCase query)))
                (listed w).
Proof.
  unfold searchCompetitions, getAllCompetitions, listed.
  unfold mbind, M_bind, gets, mret, M_ret. cbn [id String.eqb negb].
  rewrite alloc_spec.
  set (w1 := set_store _ w).
  assert (elements (store w1) (length (store w))
          = elements (store w) (m_all (manager w))) as He.
  { unfold w1. cbn. apply elements_app_new. }
  destruct (String.eqb query "" || String.eqb (trim query) "").
  - eexists _, w1. split; [reflexivity | exact He].
  - rewrite alloc_spec. eexists _, _. split; [reflexivity|].
    cbn [store set_store]. rewrite elements_app_new. by rewrite He.
Qed.

(** X15.  A search without a category filter always returns: whatever
    the query, every hit is a listed competition; a blank query returns the
    whole listing; and a query that is the name, the description or the
    level of a listed competition, exactly as the listing shows it, finds
    that competition. *)
Theorem searchCompetitions_finds_own_text (w : World) (query : string) :
  exists r w1,
    searchCompetitions query "" w = (Returns r, w1)
    /\ (forall y, y ∈ elements (store w1) r -> y ∈ listed w)
    /\ (trim query = "" -> elements (store w1) r = listed w)
    /\ (forall x,
          x ∈ listed w ->
          query = comp_name x \/ query = comp_description x
          \/ query = comp_level x ->
          x ∈ elements (store w1) r).
Proof.
  destruct (searchCompetitions_spec query w) as (r & w1 & Hs & He).
  exists r, w1. split; [exact Hs|]. rewrite He.
  destruct (String.eqb query "" || String.eqb (trim query) "") eqn:Eb.
  - split; [done|]. split; [done|]. done.
  - split; [|split].
    + intros y Hy%list_elem_of_In%filter_In. apply list_elem_of_In, Hy.
    + intros Ht. rewrite Ht, String.eqb_refl, orb_true_r in Eb. discriminate.
    + intros x Hx Hq.
      apply list_elem_of_In, filter_In. split; [by apply list_elem_of_In|].
      destruct Hq as [-> | [-> | ->]];
        rewrite includes_trimmed; rewrite ?orb_true_r; reflexivity.
Qed.

Lemma searchCompetitions_finds_own_text_witness :
  exists r w1,
    searchCompetitions "Drawing" ""
      (snd (initialize sampleNetwork (freshWorld 1700000000000 ∅)))
    = (Returns r, w1)
    /\ normalizeCompetition
         [("id", JStr "g2"); ("name", JStr "Drawing"); ("__orderIndex", JNum 1)] "gem"
       ∈ elements (store w1) r.
Proof.
  destruct (searchCompetitions_finds_own_text
              (snd (initialize sampleNetwork (freshWorld 1700000000000 ∅)))
              "Drawing")
    as (r & w1 & H1 & _ & _ & H2).
  exists r, w1. split; [exact H1|].
  apply (H2 (normalizeCompetition
               [("id", JStr "g2"); ("name", JStr "Drawing");
                ("__orderIndex", JNum 1)] "gem")).
  - apply list_elem_of_In. vm_compute. right. left. reflexivity.
  - left. vm_compute. reflexivity.
Defined.

(** ** Processed results *)

Lemma nullish_default (a b d : option jsval) :
  truthy (a ?? b) = true -> a ?? b ?? d = a ?? b.
Proof.
  destruct a as [[]|]; cbn; try done; destruct b as [[]|]; cbn; done.
Qed.

Lemma has_text_trimmed (a b : option jsval) :
  has_text (a ?? b) = true ->
  trim (String_of (a ?? b ?? Some (JStr ""))) <> "".
Proof.
  unfold has_text. intros [Ht Hn]%andb_true_iff.
  rewrite (nullish_default _ _ _ Ht).
  apply negb_true_iff, String.eqb_neq in Hn. exact Hn.
Qed.

(** X16.  Every result [processResults] returns is the normal form of a
    raw record of the input that passed validation, it carries the id of
    the competition it was processed for, and its school or its award is
    not empty. *)
Theorem processResults_entries (localeCompare : string -> string -> Z)
  (rawResults : list RawRecord) (competitionId : string) (x : Result) :
  x ∈ processResults localeCompare rawResults competitionId ->
  (exists r,
      r ∈ rawResults /\ validateResult r = true
      /\ x = normalizeResult r competitionId)
  /\ res_competitionId x = competitionId
  /\ (res_school x <> "" \/ res_award x <> "").
Proof.
  unfold processResults. rewrite Array_sort_perm.
  intros (r & -> & Hr)%list_elem_of_fmap.
  apply list_elem_of_In, filter_In in Hr as [Hin Hv].
  split; [exists r; by rewrite list_elem_of_In|].
  split; [reflexivity|].
  unfold validateResult in Hv. apply orb_true_iff in Hv as [Hs|Ha].
  - left. by apply has_text_trimmed.
  - right. by apply has_text_trimmed.
Qed.

Lemma processResults_entries_witness :
  res_competitionId
    (normalizeResult [("school", JStr ""); ("award", JStr "ชนะเลิศ")] "c1") = "c1"
  /\ (res_school
        (normalizeResult [("school", JStr ""); ("award", JStr "ชนะเลิศ")] "c1") <> ""
      \/ res_award
           (normalizeResult [("school", JStr ""); ("award", JStr "ชนะเลิศ")] "c1")
         <> "").
Proof.
  apply (processResults_entries ordinalCompare
           [ [("school", JStr ""); ("award", JStr "ชนะเลิศ")];
             [("school", JStr ""); ("award", JStr "")] ] "c1").
  apply list_elem_of_In. vm_compute. left. reflexivity.
Defined.

(** *** The order of the results *)

Lemma awardMap_ranks (award : string) (a : AwardConfig) :
  obj_get awardMap award = Some a -> 1 <= award_rank a <= 6.
Proof.
  unfold awardMap. cbn -[String.eqb].
  repeat match goal with
         | |- (if ?b then _ else _) = _ -> _ => destruct b
         end; intros [= <-]; cbn; lia.
Qed.

Lemma tier_cases (award : string) :
  inherited award = false ->
  (award = "" /\ getAwardConfig award = None /\ tier award = 7)
  \/ (exists a, getAwardConfig award = Some (Config a)
                /\ tier award = award_rank a /\ 1 <= award_rank a <= 6).
Proof.
  intros Hinh. unfold tier, getAwardConfig.
  destruct (String.eqb award "") eqn:E.
  - left. apply String.eqb_eq in E. done.
  - right. destruct (obj_get awardMap award) as [a|] eqn:Ea.
    + exists a. split; [done|]. split; [done|]. by eapply awardMap_ranks.
    + rewrite Hinh. exists PARTICIPANT. cbn. split; [done|]. split; [done|]. lia.
Qed.

Lemma compareResults_inOrder (lc : string -> string -> Z) (a b : Result) :
  inherited (res_award a) = false ->
  inherited (res_award b) = false ->
  if positive (compareResults lc a b) then inOrder b a else inOrder a b.
Proof.
  intros Ha Hb. unfold compareResults, inOrder.
  assert (Haward :
    if positive
         (if bool_decide (is_Some (getAwardConfig (res_award a)))
             && bool_decide (is_Some (getAwardConfig (res_award b)))
             && rank_neq (getAwardConfig (res_award a) ≫= entry_rank)
                  (getAwardConfig (res_award b) ≫= entry_rank)
          then rank_sub (getAwardConfig (res_award a) ≫= entry_rank)
                 (getAwardConfig (res_award b) ≫= entry_rank)
          else if bool_decide (is_Some (getAwardConfig (res_award a)))
                  && negb (bool_decide (is_Some (getAwardConfig (res_award b))))
          then Fin (-1)
          else if negb (bool_decide (is_Some (getAwardConfig (res_award a))))
                  && bool_decide (is_Some (getAwardConfig (res_award b)))
          then Fin 1
          else Fin (lc (res_school a) (res_school b)))
    then tier (res_award b) <= tier (res_award a)
    else tier (res_award a) <= tier (res_award b)).
  { destruct (tier_cases _ Ha) as [(_ & -> & ->)|(ca & -> & -> & Hca)];
      destruct (tier_cases _ Hb) as [(_ & -> & ->)|(cb & -> & -> & Hcb)];
      cbn -[Z.sub].
    - destruct (0 <? lc _ _); lia.
    - lia.
    - lia.
    - destruct (award_rank ca =? award_rank cb) eqn:E; cbn -[Z.sub].
      + apply Z.eqb_eq in E. destruct (0 <? lc _ _); lia.
      + destruct (0 <? award_rank ca - award_rank cb) eqn:E'; lia. }
  destruct (res_rank a) as [x|], (res_rank b) as [y|]; cbn -[Z.sub].
  - destruct (x =? y) eqn:E; cbn -[Z.sub].
    + apply Z.eqb_eq in E. subst y.
      match goal with |- if positive ?c then _ else _ =>
        destruct (positive c) end; right; done.
    + apply Z.eqb_neq in E. destruct (0 <? x - y) eqn:E'; lia.
  - done.
  - done.
  - exact Haward.
Qed.

Lemma inOrder_trans (a b c : Result) : inOrder a b -> inOrder b c -> inOrder a c.
Proof.
  unfold inOrder.
  destruct (res_rank a), (res_rank b), (res_rank c); try done; lia.
Qed.

Lemma sort_insert_sorted (lc : string -> string -> Z) (x : Result) (l : list Result) :
  inherited (res_award x) = false ->
  Forall (fun r => inherited (res_award r) = false) l ->
  StronglySorted inOrder l ->
  StronglySorted inOrder (sort_insert (compareResults lc) x l).
Proof.
  intros Hx Hl Hs. induction Hs as [|y l Hs IH Hy]; cbn.
  - repeat constructor.
  - apply Forall_cons in Hl as [Hyi Hl].
    pose proof (compareResults_inOrder lc x y Hx Hyi) as Hc.
    destruct (positive (compareResults lc x y)).
    + constructor; [by apply IH|].
      rewrite sort_insert_perm. by constructor.
    + constructor; [by constructor|].
      constructor; [done|].
      eapply Forall_impl; [exact Hy|].
      intros z Hz. by eapply inOrder_trans.
Qed.

Lemma Array_sort_sorted (lc : string -> string -> Z) (l : list Result) :
  Forall (fun r => inherited (res_award r) = false) l ->
  StronglySorted inOrder (Array_sort (compareResults lc) l).
Proof.
  unfold Array_sort. induction l as [|x l IH]; intros Hl; cbn.
  - constructor.
  - apply Forall_cons in Hl as [Hx Hl].
    apply sort_insert_sorted; [done| |by apply IH].
    change (foldr (sort_insert (compareResults lc)) [] l)
      with (Array_sort (compareResults lc) l).
    by rewrite Array_sort_perm.
Qed.

(** X17.  Whatever the collation, [processResults] returns the results in
    order: by rank ascending with the unranked ones last, and among results
    of the same rank (or all unranked) by award tier, champion first and
    those without an award last.  This holds for every input in which no
    award is the name of a member every object inherits (such as
    "constructor" or "toString"). *)
Theorem processResults_sorted (localeCompare : string -> string -> Z)
  (rawResults : list RawRecord) (competitionId : string) :
  Forall (fun r => inherited (res_award (normalizeResult r competitionId)) = false)
    rawResults ->
  StronglySorted inOrder (processResults localeCompare rawResults competitionId).
Proof.
  intros H. unfold processResults. apply Array_sort_sorted.
  apply Forall_fmap, Forall_forall. intros r Hr.
  apply list_elem_of_In, filter_In in Hr as [Hr _].
  rewrite Forall_forall in H. apply H, list_elem_of_In, Hr.
Qed.

Lemma processResults_sorted_witness :
  StronglySorted inOrder
    (processResults ordinalCompare
       [ [("rank", JNum 3); ("school", JStr "A"); ("award", JStr "ชมเชย")];
         [("school", JStr "B"); ("award", JStr "ชมเชย")];
         [("rank", JNum 1); ("school", JStr "C"); ("award", JStr "ชมเชย")];
         [("school", JStr "D"); ("award", JStr "ชนะเลิศ")] ] "c1").
Proof.
  apply processResults_sorted.
  repeat constructor.
Defined.

(** ** Categories and keywords *)

Lemma upper_ascii_idempotent (c : ascii) : upper_ascii (upper_ascii c) = upper_ascii c.
Proof. destruct c as [[|] [|] [|] [|] [|] [|] [|] [|]]; reflexivity. Qed.

Lemma upper_lower_ascii (c : ascii) : upper_ascii (lower_ascii c) = upper_ascii c.
Proof. destruct c as [[|] [|] [|] [|] [|] [|] [|] [|]]; reflexivity. Qed.

Lemma toUpperCase_idempotent (s : string) :
  toUpperCase (toUpperCase s) = toUpperCase s.
Proof.
  induction s as [|a s IH]; cbn; [done|].
  by rewrite upper_ascii_idempotent, IH.
Qed.

Lemma toUpperCase_toLowerCase (s : string) :
  toUpperCase (toLowerCase s) = toUpperCase s.
Proof.
  induction s as [|a s IH]; cbn; [done|].
  by rewrite upper_lower_ascii, IH.
Qed.

Lemma toUpperCase_not_inherited (s : string) : inherited (toUpperCase s) = false.
Proof.
  destruct (inherited (toUpperCase s)) eqn:E; [|done].
  unfold inherited in E. apply existsb_exists in E as (k & Hk & Heq).
  apply String.eqb_eq in Heq.
  assert (toUpperCase k = k) as Hfix
    by (rewrite <- Heq; apply toUpperCase_idempotent).
  unfold objectPrototypeKeys in Hk. cbn in Hk.
  repeat (destruct Hk as [<-|Hk]; [vm_compute in Hfix; discriminate Hfix|]).
  destruct Hk.
Qed.

(** X18.  For an id written in ASCII, [getCategoryConfig] returns the
    science entry, the gem entry or [null], never the legacy academic entry
    of the table and never an inherited member; the answer does not depend
    on the letter case: it is the gem entry exactly for "gem" and
    "academic", and the science entry exactly for "science".  (Outside
    ASCII a letter can have a case this embedding does not fold.) *)
Theorem getCategoryConfig_ascii (categoryId : string) :
  isAscii categoryId ->
  (getCategoryConfig categoryId = Some (Category SCIENCE)
   <-> toLowerCase categoryId = "science")
  /\ (getCategoryConfig categoryId = Some (Category GEM)
      <-> toLowerCase categoryId = "gem" \/ toLowerCase categoryId = "academic")
  /\ (getCategoryConfig categoryId = None
      <-> toLowerCase categoryId <> "science" /\ toLowerCase categoryId <> "gem"
          /\ toLowerCase categoryId <> "academic").
Proof.
  intros _.
  assert (Hup : forall k, toLowerCase categoryId = toLowerCase k ->
                          toUpperCase categoryId = toUpperCase k).
  { intros k Hk. by rewrite <- toUpperCase_toLowerCase, Hk, toUpperCase_toLowerCase. }
  assert (Hlow : forall k, toUpperCase categoryId = toUpperCase k ->
                           toLowerCase categoryId = toLowerCase k).
  { intros k Hk. by rewrite <- toLowerCase_toUpperCase, Hk, toLowerCase_toUpperCase. }
  unfold getCategoryConfig.
  destruct (String.eqb categoryId "") eqn:Ee.
  { apply String.eqb_eq in Ee. subst. cbn. repeat split; try done.
    intros [?|?]; done. }
  destruct (String.eqb (toLowerCase categoryId) "academic") eqn:Ea.
  { apply String.eqb_eq in Ea. rewrite Ea. repeat split; try done.
    - by right.
    - intros (_ & _ & H). done. }
  apply String.eqb_neq in Ea.
  rewrite toUpperCase_not_inherited.
  unfold CATEGORIES. cbn -[String.eqb toUpperCase toLowerCase].
  destruct (String.eqb "SCIENCE" (toUpperCase categoryId)) eqn:Es.
  { apply String.eqb_eq in Es. symmetry in Es.
    apply (Hlow "science") in Es. cbn in Es. rewrite Es.
    repeat split; try done.
    - intros [?|?]; done.
    - intros (H & _). done. }
  destruct (String.eqb "GEM" (toUpperCase categoryId)) eqn:Eg.
  { apply String.eqb_eq in Eg. symmetry in Eg.
    apply (Hlow "gem") in Eg. cbn in Eg. rewrite Eg.
    repeat split; try done.
    - by left.
    - intros (_ & H & _). done. }
  destruct (String.eqb "ACADEMIC" (toUpperCase categoryId)) eqn:Ec.
  { apply String.eqb_eq in Ec. symmetry in Ec.
    apply (Hlow "academic") in Ec. cbn in Ec. done. }
  apply String.eqb_neq in Es, Eg.
  assert (toLowerCase categoryId <> "science") as Hs.
  { intros H. apply Es. symmetry. by apply (Hup "science"). }
  assert (toLowerCase categoryId <> "gem") as Hg.
  { intros H. apply Eg. symmetry. by apply (Hup "gem"). }
  repeat split; try done.
  intros [?|?]; done.
Qed.

Lemma getCategoryConfig_ascii_witness :
  getCategoryConfig "AcaDemic" = Some (Category GEM)
  <-> toLowerCase "AcaDemic" = "gem" \/ toLowerCase "AcaDemic" = "academic".
Proof.
  apply (getCategoryConfig_ascii "AcaDemic").
  vm_compute. repeat split; repeat constructor.
Defined.

(** X19.  [detectCompetitionCategory] answers science or gem, and gem
    only for a name that contains a gem keyword; a name that contains a
    science keyword anywhere is science, whatever else it contains (a gem
    keyword included); and two names with the same lower-case form get the
    same answer. *)
Theorem detectCompetitionCategory_keywords
  (name other before after keyword : string) :
  (detectCompetitionCategory name = "science"
   \/ detectCompetitionCategory name = "gem")
  /\ (detectCompetitionCategory name = "gem" ->
      exists k, In k gemKeywords /\ includes (toLowerCase name) k = true)
  /\ (In keyword scienceKeywords ->
      detectCompetitionCategory (before +:+ keyword +:+ after) = "science")
  /\ (toLowerCase name = toLowerCase other ->
      detectCompetitionCategory name = detectCompetitionCategory other).
Proof.
  split; [|split; [|split]].
  - unfold detectCompetitionCategory.
    destruct (String.eqb name ""); [by left|].
    destruct (existsb _ scienceKeywords); [by left|].
    destruct (existsb _ gemKeywords); [by right | by left].
  - unfold detectCompetitionCategory.
    destruct (String.eqb name ""); [done|].
    destruct (existsb _ scienceKeywords); [done|].
    destruct (existsb _ gemKeywords) eqn:E; [|done].
    intros _. apply existsb_exists in E as (k & Hk & Hi).
    exists k. split; [done|].
    assert (toLowerCase k = k) as <-; [|done].
    unfold gemKeywords in Hk. cbn in Hk.
    repeat (destruct Hk as [<-|Hk]; [reflexivity|]). destruct Hk.
  - intros Hk. unfold detectCompetitionCategory.
    destruct (String.eqb _ ""); [done|].
    assert (existsb
              (fun k => includes (toLowerCase (before +:+ keyword +:+ after))
                          (toLowerCase k)) scienceKeywords = true) as ->; [|done].
    apply existsb_exists. exists keyword. split; [done|].
    rewrite !toLowerCase_append. apply includes_part.
  - intros Heq. unfold detectCompetitionCategory. rewrite Heq.
    destruct name, other; try reflexivity; discriminate Heq.
Qed.

Lemma detectCompetitionCategory_keywords_witness :
  detectCompetitionCategory ("วาดภาพ" +:+ "3d" +:+ " Show") = "science"
  /\ detectCompetitionCategory "STORY TELLING" = detectCompetitionCategory "Story Telling".
Proof.
  split.
  - apply (proj1 (proj2 (proj2
             (detectCompetitionCategory_keywords "" "" "วาดภาพ" " Show" "3d")))).
    vm_compute. do 15 right. left. reflexivity.
  - apply (proj2 (proj2 (proj2
             (detectCompetitionCategory_keywords "STORY TELLING" "Story Telling"
                "" "" "")))).
    vm_compute. reflexivity.
Defined.

(** X20.  The two helpers that map a category to an endpoint agree on
    science, gem and academic, and on nothing else: for any other value
    [DataService.getApiUrl] answers the science endpoint while the
    [getAPIUrl] of config.js answers the placeholder base URL. *)
Theorem getAPIUrl_differs_from_getApiUrl (category : option jsval) :
  (getAPIUrl category = getApiUrl category
   <-> category = Some (JStr "science") \/ category = Some (JStr "gem")
       \/ category = Some (JStr "academic"))
  /\ (getAPIUrl category <> getApiUrl category ->
      getAPIUrl category = BASE_URL /\ getApiUrl category = SCIENCE_URL).
Proof.
  assert (BASE_URL <> SCIENCE_URL) as Hne by (vm_compute; discriminate).
  unfold getAPIUrl, getApiUrl.
  destruct category as [[| |n|c]|]; try (split; [split; [done | intros [?|[?|?]]; done] | done]).
  destruct (String.eqb c "science") eqn:Es.
  { apply String.eqb_eq in Es. subst. split; [split; [by left | done] | done]. }
  destruct (String.eqb c "gem") eqn:Eg.
  { apply String.eqb_eq in Eg. subst. split; [split; [by right; left | done] | done]. }
  destruct (String.eqb c "academic") eqn:Ea.
  { apply String.eqb_eq in Ea. subst.
    split; [split; [by right; right | done] | done]. }
  cbn [orb]. apply String.eqb_neq in Es, Eg, Ea.
  split; [split; [done|] | done].
  intros [[= ->]|[[= ->]|[= ->]]]; done.
Qed.

Lemma getAPIUrl_differs_from_getApiUrl_witness :
  getAPIUrl (Some (JStr "math")) = BASE_URL
  /\ getApiUrl (Some (JStr "math")) = SCIENCE_URL.
Proof.
  apply (getAPIUrl_differs_from_getApiUrl (Some (JStr "math"))).
  vm_compute. discriminate.
Defined.

(** ** More on the snapshot *)

(** X21.  [isCacheReady] answers [true] exactly when [isCacheValid] is
    [true]: the loaded flag it tests first is tested by [isCacheValid]
    again.  It never changes the state. *)
Theorem isCacheReady_iff_valid (w : World) :
  (isCacheReady w = (Returns true, w)
   <-> isCacheValid (clock w) (GLOBAL_CACHE w) = Some (JBool true))
  /\ (isCacheReady w = (Returns false, w)
      <-> isCacheValid (clock w) (GLOBAL_CACHE w) <> Some (JBool true)).
Proof.
  unfold isCacheReady, gets.
  destruct (truthy (isCacheValid (clock w) (GLOBAL_CACHE w))) eqn:Et.
  - apply isCacheValid_truthy in Et as Ev.
    apply isCacheValid_true in Ev as Hl. destruct Hl as [-> _]. cbn.
    split; split; done.
  - assert (isCacheValid (clock w) (GLOBAL_CACHE w) <> Some (JBool true)) as Hn.
    { intros H. apply isCacheValid_truthy in H. congruence. }
    rewrite andb_false_r. split; split; done.
Qed.

(** X22.  A preload that finds no competition at either endpoint leaves
    no trace: it fails with "No competitions data loaded" after the two
    catalogue requests, the snapshot and localStorage are as before, and the
    preloading flag is reset, so a later preload is not refused. *)
Theorem preload_without_catalogue_leaves_no_trace (net : Network) (w : World) :
  ds_isPreloading (dataService w) = false ->
  fc_science (collectSettled (fst (fetchScienceCompetitions net w))
                (fst (fetchGemCompetitions net w))) = [] ->
  fc_gem (collectSettled (fst (fetchScienceCompetitions net w))
            (fst (fetchGemCompetitions net w))) = [] ->
  exists w',
    DataService_preloadAllData net w
    = (Throws (mkError "No competitions data loaded"), w')
    /\ GLOBAL_CACHE w' = GLOBAL_CACHE w
    /\ localStorage w' = localStorage w
    /\ manager w' = manager w
    /\ ds_isPreloading (dataService w') = false
    /\ requests w' = requests w ++ catalogueRequests.
Proof.
  intros Hpre Hs Hg.
  destruct (DataService_preloadAllData_spec net w Hpre)
    as (competitions & w0 & Hf & Hs0 & Hcase).
  assert (requests w0 = requests w ++ catalogueRequests) as Hr0.
  { destruct (fetchAllCompetitions_spec net (set_isPreloading true w))
      as (t & Hspec & _).
    rewrite Hf in Hspec. injection Hspec as _ ->. done. }
  destruct (fetchAllCompetitions_returns net (set_isPreloading true w)) as [w0' Hf'].
  rewrite Hf in Hf'. injection Hf' as Hc _.
  rewrite (fetchScienceCompetitions_fst net _ w),
    (fetchGemCompetitions_fst net _ w) in Hc.
  rewrite <- Hc in *. clear Hc.
  destruct Hs0 as (Hg0 & Hl0 & _ & Hm0 & _ & _ & _). cbn in Hg0, Hl0, Hm0.
  destruct Hcase as [(_ & _ & ->)|(Hne & _)].
  - eexists. split; [reflexivity|]. cbn. done.
  - rewrite Hs, Hg in Hne. done.
Qed.

Lemma preload_without_catalogue_leaves_no_trace_witness :
  exists w',
    DataService_preloadAllData emptyNetwork (freshWorld 1700000000000 ∅)
    = (Throws (mkError "No competitions data loaded"), w')
    /\ GLOBAL_CACHE w' = GLOBAL_CACHE (freshWorld 1700000000000 ∅)
    /\ localStorage w' = localStorage (freshWorld 1700000000000 ∅)
    /\ manager w' = manager (freshWorld 1700000000000 ∅)
    /\ ds_isPreloading (dataService w') = false
    /\ requests w' = requests (freshWorld 1700000000000 ∅) ++ catalogueRequests.
Proof.
  apply (preload_without_catalogue_leaves_no_trace emptyNetwork
           (freshWorld 1700000000000 ∅)).
  - vm_compute. reflexivity.
  - vm_compute. reflexivity.
  - vm_compute. reflexivity.
Defined.

(** ** Loading the results of a competition *)

Lemma preserves_fetchResults (net : Network) (id category : option jsval) :
  preserves steady (fetchResults net id category).
Proof.
  unfold fetchResults.
  destruct (negb (truthy id)); [apply preserves_throw|].
  intros w r w'. unfold mbind, M_bind, gets.
  destruct (map_get (gc_results (GLOBAL_CACHE w)) id).
  - intros [= <- <-]. apply steady_refl.
  - apply preserves_fetchResultsInternal.
Qed.


Lemma loadResults_miss (lc : string -> string -> Z) (net : Network)
  (results : JsMap (list Result)) (competitionId : string) (w : World) :
  competitionId <> "" ->
  map_get results (Some (JStr competitionId)) = None ->
  loadResults lc net results competitionId w
  = match map_get (gc_results (GLOBAL_CACHE w)) (Some (JStr competitionId)) with
    | Some cachedResults =>
        (Returns (map_set results (Some (JStr competitionId))
                    (processResults lc cachedResults competitionId),
                  processResults lc cachedResults competitionId), w)
    | None =>
        match List.find (fun comp => String.eqb (comp_id comp) (trim competitionId))
                (listed w) with
        | None => (Throws (mkError ERR_COMPETITION_NOT_FOUND), w)
        | Some competition =>
            match fetchResults net (Some (JStr competitionId))
                    (Some (JStr (comp_category competition))) w with
            | (Returns rawResults, w2) =>
                (Returns (map_set results (Some (JStr competitionId))
                            (processResults lc rawResults competitionId),
                          processResults lc rawResults competitionId),
                 set_GLOBAL_CACHE
                   (mkGlobalCache (gc_competitions (GLOBAL_CACHE w2))
                      (map_set (gc_results (GLOBAL_CACHE w2))
                         (Some (JStr competitionId)) rawResults)
                      (gc_lastUpdated (GLOBAL_CACHE w2))
                      (gc_isLoaded (GLOBAL_CACHE w2))) w2)
            | (Throws e, w2) => (Throws e, w2)
            end
        end
    end.
Proof.
  intros Hne%String.eqb_neq Hm. unfold loadResults. rewrite Hne, Hm.
  change ((g ← gets GLOBAL_CACHE; ?k g) w) with (k (GLOBAL_CACHE w) w).
  unfold mbind at 1, M_bind at 1, gets at 1.
  destruct (map_get (gc_results (GLOBAL_CACHE w)) (Some (JStr competitionId)));
    [reflexivity|].
  unfold try_catch, getCompetitionById. rewrite Hne.
  unfold mbind, M_bind, gets, mret, M_ret, listed. cbn [id].
  destruct (List.find _ _) as [competition|]; [|reflexivity].
  destruct (fetchResults net _ _ w) as [[raw|e] w2]; reflexivity.
Qed.



(** X24.  Where [loadResults] takes the results from, for a competition
    not yet in the manager's map: when the snapshot has raw results under
    the id, they are processed and returned with no request and no change of
    state; when it has none and no listed competition carries the id, the
    call fails with the not-found message, again with no request.  In every
    case at most one request is sent, and [localStorage], the catalogue and
    the timestamp of the snapshot are left as they were: results fetched on
    demand are not persisted. *)
Theorem loadResults_sources (localeCompare : string -> string -> Z) (net : Network)
  (results : JsMap (list Result)) (competitionId : string) (w : World) :
  competitionId <> "" ->
  map_get results (Some (JStr competitionId)) = None ->
  (forall cachedResults,
      map_get (gc_results (GLOBAL_CACHE w)) (Some (JStr competitionId))
      = Some cachedResults ->
      loadResults localeCompare net results competitionId w
      = (Returns
           (map_set results (Some (JStr competitionId))
              (processResults localeCompare cachedResults competitionId),
            processResults localeCompare cachedResults competitionId), w))
  /\ (map_get (gc_results (GLOBAL_CACHE w)) (Some (JStr competitionId)) = None ->
      (forall z, z ∈ listed w -> comp_id z <> trim competitionId) ->
      loadResults localeCompare net results competitionId w
      = (Throws (mkError ERR_COMPETITION_NOT_FOUND), w))
  /\ (exists sent,
        requests (snd (loadResults localeCompare net results competitionId w))
        = requests w ++ sent
        /\ (length sent <= 1)%nat)
  /\ localStorage (snd (loadResults localeCompare net results competitionId w))
     = localStorage w
  /\ gc_competitions
       (GLOBAL_CACHE (snd (loadResults localeCompare net results competitionId w)))
     = gc_competitions (GLOBAL_CACHE w)
  /\ gc_lastUpdated
       (GLOBAL_CACHE (snd (loadResults localeCompare net results competitionId w)))
     = gc_lastUpdated (GLOBAL_CACHE w).
Proof.
  intros Hne Hmem. rewrite (loadResults_miss _ _ _ _ _ Hne Hmem).
  split; [|split].
  - intros cached ->. reflexivity.
  - intros -> Hnone. rewrite find_none; [done|].
    intros z Hz. apply String.eqb_neq. by apply Hnone.
  - assert (forall w0 : World, exists sent,
              requests w0 = requests w0 ++ sent /\ (length sent <= 1)%nat) as Hnil.
    { intros w0. exists []. split; [by rewrite app_nil_r | cbn; lia]. }
    destruct (map_get (gc_results (GLOBAL_CACHE w)) (Some (JStr competitionId)))
      as [cached|].
    { cbn [snd]. split; [apply Hnil | done]. }
    destruct (List.find _ _) as [competition|];
      [|cbn [snd]; split; [apply Hnil | done]].
    pose proof (fetchResults_requests net (Some (JStr competitionId))
                  (Some (JStr (comp_category competition))) w) as Hreq.
    destruct (fetchResults net _ _ w) as [[raw|e] w2] eqn:Ef;
      apply preserves_fetchResults in Ef as (Hg & Hl & _);
      cbn [snd] in Hreq;
      cbn [snd requests localStorage GLOBAL_CACHE set_GLOBAL_CACHE gc_competitions
           gc_lastUpdated];
      rewrite Hg, Hl;
      (split; [|done]);
      (destruct Hreq as [-> | ->];
       [apply Hnil | eexists; split; [reflexivity | cbn; lia]]).
Qed.

Lemma loadResults_sources_witness :
  exists sent,
    requests (snd (loadResults ordinalCompare sampleNetwork [] "g2"
                     (snd (initialize sampleNetwork (freshWorld 1700000000000 ∅)))))
    = requests (snd (initialize sampleNetwork (freshWorld 1700000000000 ∅))) ++ sent
    /\ (length sent <= 1)%nat.
Proof.
  apply (loadResults_sources ordinalCompare sampleNetwork [] "g2"
           (snd (initialize sampleNetwork (freshWorld 1700000000000 ∅)))).
  - discriminate.
  - reflexivity.
Defined.

(** ** Requests and time spent *)





(** The three timeouts are reached: with endpoints that deliver a record
    with an own property named [hasOwnProperty] only just before the
    timeout, and results that never arrive, the failing call takes 45.2 s
    less 2 ms. *)
Lemma initialize_slowest_failure :
  fst (initialize slowShadowingNetwork (freshWorld 1700000000000 ∅))
  = Throws (mkError ERR_API_ERROR)
  /\ clock (snd (initialize slowShadowingNetwork (freshWorld 1700000000000 ∅)))
     = 1700000000000 + 45198.
Proof. split; vm_compute; reflexivity. Qed.
